(** * HydraVPN: packet framing, key schedule, obfuscated transport, IP pool
      and the server data loop, embedded from the Go sources.

    The Go packages are modules of definitions: [protocol]
    (pkg/protocol/protocol.go), [crypto] (pkg/crypto/crypto.go), [transport]
    (the obfuscated connection), [server] (pkg/server/server.go: IP pool,
    data loop, key derivation of the handshake) and [client]
    (pkg/client/client.go: key derivation of the handshake). They are
    preceded by Go's bytes, slices and [encoding/binary], and followed by
    the primitives of the external crypto packages. The facts proved about
    each package are in the modules [protocol_facts], [crypto_facts],
    [primitives_facts], [transport_facts], [server_facts] and
    [handshake_facts]; [runs] holds runs on concrete inputs. *)

From Stdlib Require Import ZArith List Lia Strings.Byte String.
From stdpp Require Import base decidable option list gmap.

Local Open Scope Z_scope.

(* ================================================================== *)
(** * Go bytes, slices and [encoding/binary]                           *)
(* ================================================================== *)

#[global] Instance byte_eq_dec : EqDecision byte := Byte.byte_eq_dec.
#[global] Instance byte_inhabited : Inhabited byte := populate x00.

(** A Go [byte] seen as an integer in [0, 256). *)
Definition byte_to_Z (b : byte) : Z := Z.of_N (Byte.to_N b).

(** Go's conversion [byte(v)] / [uint8(v)]: keep the low eight bits. *)
Definition byte_of_Z (v : Z) : byte :=
  default x00 (Byte.of_N (Z.to_N (v mod 256))).

(** Go's [^] on two bytes. *)
Definition byte_xor (a b : byte) : byte :=
  byte_of_Z (Z.lxor (byte_to_Z a) (byte_to_Z b)).

(** Go's [&] and [|] of a byte with a constant. *)
Definition byte_and (a : byte) (m : Z) : byte :=
  byte_of_Z (Z.land (byte_to_Z a) m).
Definition byte_or (a : byte) (m : Z) : byte :=
  byte_of_Z (Z.lor (byte_to_Z a) m).

(** [uintN(v)]: conversion to an unsigned integer of [w] bits. *)
Definition wrap (w : Z) (v : Z) : Z := v mod 2 ^ w.

(** [copy(dst, src)]: overwrite the first [min (len dst) (len src)] cells of
    [dst]; the result is the new content of [dst]. *)
Definition go_copy (dst src : list byte) : list byte :=
  take (length dst) src ++ drop (length src) dst.

(** [make([]byte, n)]. *)
Definition make_bytes (n : Z) : list byte := replicate (Z.to_nat n) x00.

(** [len(s)] as a Go [int]. *)
Definition len (s : list byte) : Z := Z.of_nat (length s).

(** Big-endian writer of [n] bytes: byte [i] is [byte(v >> 8*(n-1-i))]. *)
Fixpoint be_put (n : nat) (v : Z) : list byte :=
  match n with
  | O => []
  | S n' => byte_of_Z (Z.shiftr v (8 * Z.of_nat n')) :: be_put n' v
  end.

(** Big-endian reader: [acc<<8 | b] over the bytes, left to right. *)
Definition be_get (bs : list byte) : Z :=
  fold_left (fun acc b => Z.lor (Z.shiftl acc 8) (byte_to_Z b)) bs 0.

(** Little-endian writer of [n] bytes: byte [i] is [byte(v >> 8*i)]. *)
Fixpoint le_put (n : nat) (v : Z) : list byte :=
  match n with
  | O => []
  | S n' => byte_of_Z v :: le_put n' (Z.shiftr v 8)
  end.

(** [binary.BigEndian.PutUint16/32/64], [binary.LittleEndian.PutUint64] and
    the matching readers (which read exactly 2, 4, 8 bytes). *)
Definition PutUint16 (v : Z) : list byte := be_put 2 v.
Definition PutUint32 (v : Z) : list byte := be_put 4 v.
Definition PutUint64 (v : Z) : list byte := be_put 8 v.
Definition LePutUint64 (v : Z) : list byte := le_put 8 v.
Definition Uint16 (b : list byte) : Z := be_get (take 2 b).
Definition Uint32 (b : list byte) : Z := be_get (take 4 b).
Definition Uint64 (b : list byte) : Z := be_get (take 8 b).

(** Bytes given by their integer values, for concrete inputs. *)
Definition bytes_of (l : list Z) : list byte := map byte_of_Z l.

(* ================================================================== *)
(** * Results of Go calls                                              *)
(* ================================================================== *)

(** What a Go call of type [(T, error)] can do: return a value with a nil
    error, return an error (built by [errors.New] or [fmt.Errorf]), or
    panic at run time on an index or slice expression out of range. *)
Inductive outcome (A : Type) : Type :=
| Ok (a : A)
| Err (e : string)
| Panic.
Arguments Ok {A} a.
Arguments Err {A} e.
Arguments Panic {A}.

#[global] Instance outcome_ret : MRet outcome := fun A a => Ok a.
#[global] Instance outcome_bind : MBind outcome := fun A B f m =>
  match m with
  | Ok a => f a
  | Err e => Err e
  | Panic => Panic
  end.

#[global] Instance outcome_fmap : FMap outcome := fun A B f m =>
  match m with
  | Ok a => Ok (f a)
  | Err e => Err e
  | Panic => Panic
  end.

Definition is_Err {A} (r : outcome A) : bool :=
  match r with Err _ => true | _ => false end.

Definition is_Ok {A} (r : outcome A) : bool :=
  match r with Ok _ => true | _ => false end.

(** [s[i]] with Go's bounds check. *)
Definition index (s : list byte) (i : Z) : outcome byte :=
  if (0 <=? i) && (i <? len s) then
    match s !! Z.to_nat i with Some b => Ok b | None => Panic end
  else Panic.

(** [s[lo:hi]] with Go's bounds check [0 <= lo <= hi <= len s]. *)
Definition slice (s : list byte) (lo hi : Z) : outcome (list byte) :=
  if (0 <=? lo) && (lo <=? hi) && (hi <=? len s) then
    Ok (take (Z.to_nat (hi - lo)) (drop (Z.to_nat lo) s))
  else Panic.

(** [s[lo:]] *)
Definition slice_from (s : list byte) (lo : Z) : outcome (list byte) :=
  slice s lo (len s).

(** [s[:hi]] *)
Definition slice_to (s : list byte) (hi : Z) : outcome (list byte) :=
  slice s 0 hi.

(* ================================================================== *)
(** * pkg/protocol/protocol.go                                         *)
(* ================================================================== *)

Module protocol.

Definition MagicByte1 : byte := x48.
Definition MagicByte2 : byte := x56.
Definition ProtocolVersion : byte := x01.

Definition PacketTypeHandshakeInit : byte := x01.
Definition PacketTypeHandshakeResponse : byte := x02.
Definition PacketTypeData : byte := x03.
Definition PacketTypeKeepAlive : byte := x04.
Definition PacketTypeDisconnect : byte := x05.

Definition MaxPacketSize : Z := 65535.
Definition HeaderSize : Z := 14.

(** [Version] and [Type] are [uint8], that is bytes; [SessionID] is a
    [uint64] and [Length] a [uint16], kept as integers with their ranges
    in [header_typed]. *)
Record PacketHeader : Type := {
  Magic : byte * byte;
  Version : byte;
  Type' : byte;
  SessionID : Z;
  Length : Z
}.

Record Packet : Type := {
  Header : PacketHeader;
  Payload : list byte
}.

(** The ranges the Go field types impose. *)
Definition header_typed (h : PacketHeader) : Prop :=
  0 <= SessionID h < 2 ^ 64 /\ 0 <= Length h < 2 ^ 16.

(** NewPacket: [Length] is [uint16(len(payload))]. *)
Definition NewPacket (packetType : byte) (sessionID : Z) (payload : list byte)
  : Packet :=
  {| Header := {| Magic := (MagicByte1, MagicByte2);
                  Version := ProtocolVersion;
                  Type' := packetType;
                  SessionID := sessionID;
                  Length := wrap 16 (len payload) |};
     Payload := payload |}.

(** Marshal: a buffer of [HeaderSize + len(Payload)] bytes, the header
    fields at offsets 0, 1, 2, 3, 4..12, 12..14, then the payload. *)
Definition Marshal (p : Packet) : list byte :=
  let h := Header p in
  [fst (Magic h); snd (Magic h); Version h; Type' h]
    ++ PutUint64 (SessionID h)
    ++ PutUint16 (Length h)
    ++ go_copy (make_bytes (len (Payload p))) (Payload p).

(** The header's length field as it sits in a wire buffer: the two bytes
    at offsets 12 and 13, read big-endian. *)
Definition length_field (b : list byte) : Z := Uint16 (drop 12 b).

(** UnmarshalPacket, check by check in the order of the source. *)
Definition UnmarshalPacket (data : list byte) : outcome Packet :=
  if len data <? HeaderSize then Err "packet too short" else
  m0 ← index data 0;
  m1 ← index data 1;
  if negb (bool_decide (m0 = MagicByte1)) || negb (bool_decide (m1 = MagicByte2))
  then Err "invalid magic bytes" else
  ver ← index data 2;
  if negb (bool_decide (ver = ProtocolVersion))
  then Err "unsupported protocol version" else
  ty ← index data 3;
  sid ← Uint64 <$> slice data 4 12;
  plen ← Uint16 <$> slice data 12 14;
  if negb (plen =? len data - HeaderSize)
  then Err "payload length mismatch" else
  rest ← slice_from data HeaderSize;
  Ok {| Header := {| Magic := (m0, m1); Version := ver; Type' := ty;
                     SessionID := sid; Length := plen |};
        Payload := go_copy (make_bytes plen) rest |}.

(** IsValidPacketType *)
Definition IsValidPacketType (t : byte) : bool :=
  bool_decide (t = PacketTypeHandshakeInit)
  || bool_decide (t = PacketTypeHandshakeResponse)
  || bool_decide (t = PacketTypeData)
  || bool_decide (t = PacketTypeKeepAlive)
  || bool_decide (t = PacketTypeDisconnect).

(** ** Handshake bodies *)

(** [int64(v)] for a [uint64] value [v]. *)
Definition int64 (v : Z) : Z := if v <? 2 ^ 63 then v else v - 2 ^ 64.

(** [ClientPublicKey] and [RandomPadding] are [[32]byte], [Timestamp] is
    an [int64]. *)
Record HandshakeInit : Type := {
  ClientPublicKey : list byte;
  Timestamp : Z;
  RandomPadding : list byte
}.

Definition init_typed (h : HandshakeInit) : Prop :=
  length (ClientPublicKey h) = 32%nat
  /\ - 2 ^ 63 <= Timestamp h < 2 ^ 63
  /\ length (RandomPadding h) = 32%nat.

(** [ServerPublicKey] and [RandomPadding] are [[32]byte], [AssignedIP] and
    [ServerIP] are [[4]byte], [SessionID] is a [uint64], [Subnet] a [uint8].
    The fields [SessionID] and [RandomPadding] carry the prefix [Resp], their
    names being taken in this module. *)
Record HandshakeResponse : Type := {
  ServerPublicKey : list byte;
  RespSessionID : Z;
  AssignedIP : list byte;
  ServerIP : list byte;
  Subnet : byte;
  RespRandomPadding : list byte
}.

Definition response_typed (h : HandshakeResponse) : Prop :=
  length (ServerPublicKey h) = 32%nat
  /\ 0 <= RespSessionID h < 2 ^ 64
  /\ length (AssignedIP h) = 4%nat
  /\ length (ServerIP h) = 4%nat
  /\ length (RespRandomPadding h) = 32%nat.

(** MarshalHandshakeInit: a buffer of 72 bytes filled at [0:32], [32:40]
    and [40:72]. *)
Definition MarshalHandshakeInit (h : HandshakeInit) : list byte :=
  go_copy (make_bytes 32) (ClientPublicKey h)
    ++ PutUint64 (wrap 64 (Timestamp h))
    ++ go_copy (make_bytes 32) (RandomPadding h).

(** UnmarshalHandshakeInit *)
Definition UnmarshalHandshakeInit (data : list byte) : outcome HandshakeInit :=
  if len data <? 72 then Err "handshake init too short" else
  key ← slice data 0 32;
  ts ← slice data 32 40;
  padding ← slice data 40 72;
  Ok {| ClientPublicKey := go_copy (make_bytes 32) key;
        Timestamp := int64 (Uint64 ts);
        RandomPadding := go_copy (make_bytes 32) padding |}.

(** MarshalHandshakeResponse: a buffer of 81 bytes. *)
Definition MarshalHandshakeResponse (h : HandshakeResponse) : list byte :=
  go_copy (make_bytes 32) (ServerPublicKey h)
    ++ PutUint64 (RespSessionID h)
    ++ go_copy (make_bytes 4) (AssignedIP h)
    ++ go_copy (make_bytes 4) (ServerIP h)
    ++ [Subnet h]
    ++ go_copy (make_bytes 32) (RespRandomPadding h).

(** UnmarshalHandshakeResponse *)
Definition UnmarshalHandshakeResponse (data : list byte)
  : outcome HandshakeResponse :=
  if len data <? 81 then Err "handshake response too short" else
  key ← slice data 0 32;
  sid ← slice data 32 40;
  assigned ← slice data 40 44;
  server ← slice data 44 48;
  subnet ← index data 48;
  padding ← slice data 49 81;
  Ok {| ServerPublicKey := go_copy (make_bytes 32) key;
        RespSessionID := Uint64 sid;
        AssignedIP := go_copy (make_bytes 4) assigned;
        ServerIP := go_copy (make_bytes 4) server;
        Subnet := subnet;
        RespRandomPadding := go_copy (make_bytes 32) padding |}.

End protocol.

(* ================================================================== *)
(** * Readers: [io.Reader] with [io.ReadFull]                          *)
(* ================================================================== *)

(** A reader is the finite stream of bytes it will still deliver
    ([crypto/rand.Reader], the HKDF key stream, a TLS byte stream whose peer
    has closed after these bytes). *)
Definition reader : Type := list byte.

(** [io.ReadFull(r, buf)] with [len(buf) = n]: exactly [n] bytes or an
    error ([io.EOF] when nothing is left, [io.ErrUnexpectedEOF] when the
    stream ends early). Returns the bytes read and the reader afterwards. *)
Definition ReadFull (r : reader) (n : Z) : outcome (list byte * reader) :=
  if n <=? len r then Ok (take (Z.to_nat n) r, drop (Z.to_nat n) r)
  else if len r =? 0 then Err "EOF"
  else Err "unexpected EOF".

(* ================================================================== *)
(** * pkg/crypto/crypto.go                                             *)
(* ================================================================== *)

Module crypto.

(** ** The primitives taken from golang.org/x/crypto *)

(** [hkdf.New(sha256.New, secret, salt, info)]: the key stream the returned
    reader delivers. HKDF-SHA256 delivers 255 blocks of 32 bytes. *)
Class KDF : Type := {
  hkdf_New : list byte -> list byte -> list byte -> reader;
  hkdf_New_length : forall secret salt info,
    len (hkdf_New secret salt info) = 255 * 32
}.

(** The XChaCha20-Poly1305 sealing and opening functions under a key:
    [xseal key nonce plaintext ad] is the ciphertext with its tag,
    [xopen key nonce ciphertext ad] the plaintext or [None] when
    authentication fails. *)
Class AEAD : Type := {
  xseal : list byte -> list byte -> list byte -> list byte -> list byte;
  xopen : list byte -> list byte -> list byte -> list byte -> option (list byte)
}.

Definition KeySize : Z := 32.
Definition NonceSizeX : Z := 24.

(** The cipher object returned by [chacha20poly1305.NewX(key)]; it holds a
    copy of the key. *)
Record cipher : Type := { cipher_key : list byte }.

(** [chacha20poly1305.NewX]. *)
Definition NewX (key : list byte) : outcome cipher :=
  if negb (len key =? KeySize) then Err "chacha20poly1305: bad key length"
  else Ok {| cipher_key := key |}.

Section aead.
Context {aead : AEAD}.

(** [c.Seal(dst, nonce, plaintext, additionalData)]: appends to [dst];
    panics on a nonce that is not 24 bytes long. *)
Definition Seal (c : cipher) (dst nonce plaintext ad : list byte)
  : outcome (list byte) :=
  if negb (len nonce =? NonceSizeX) then Panic
  else Ok (dst ++ xseal (cipher_key c) nonce plaintext ad).

(** [c.Open(dst, nonce, ciphertext, additionalData)]. *)
Definition Open (c : cipher) (dst nonce ciphertext ad : list byte)
  : outcome (list byte) :=
  if negb (len nonce =? NonceSizeX) then Panic
  else match xopen (cipher_key c) nonce ciphertext ad with
       | Some plaintext => Ok (dst ++ plaintext)
       | None => Err "chacha20poly1305: message authentication failed"
       end.

End aead.

(** ** Session *)

(** [SendKey], [RecvKey] are [[32]byte]; [SendNonce], [RecvNonce] are
    [uint64]. *)
Record Session : Type := {
  SendKey : list byte;
  RecvKey : list byte;
  SendNonce : Z;
  RecvNonce : Z;
  sendCipher : cipher;
  recvCipher : cipher
}.

Definition session_typed (s : Session) : Prop :=
  0 <= SendNonce s < 2 ^ 64 /\ 0 <= RecvNonce s < 2 ^ 64.

Definition set_SendNonce (v : Z) (s : Session) : Session :=
  {| SendKey := SendKey s; RecvKey := RecvKey s; SendNonce := v;
     RecvNonce := RecvNonce s; sendCipher := sendCipher s;
     recvCipher := recvCipher s |}.

Definition set_RecvNonce (v : Z) (s : Session) : Session :=
  {| SendKey := SendKey s; RecvKey := RecvKey s; SendNonce := SendNonce s;
     RecvNonce := v; sendCipher := sendCipher s;
     recvCipher := recvCipher s |}.

Definition session_keys_info : list byte :=
  list_byte_of_string "hydravpn-session-keys".

Section kdf.
Context {kdf : KDF}.

(** DeriveSessionKeys *)
Definition DeriveSessionKeys (sharedSecret : list byte) (isInitiator : bool)
    (salt : list byte) : outcome Session :=
  let hkdfReader := hkdf_New sharedSecret salt session_keys_info in
  '(key1, hkdfReader) ← ReadFull hkdfReader 32;
  '(key2, hkdfReader) ← ReadFull hkdfReader 32;
  let '(sendKey, recvKey) :=
    if isInitiator then (key1, key2) else (key2, key1) in
  sc ← NewX sendKey;
  rc ← NewX recvKey;
  Ok {| SendKey := sendKey; RecvKey := recvKey;
        SendNonce := 0; RecvNonce := 0;
        sendCipher := sc; recvCipher := rc |}.

End kdf.

Section session.
Context {aead : AEAD}.

(** Encrypt. [rand] is [crypto/rand.Reader]; the result is the returned
    pair, the session after the call and the reader after the call. The
    counter is bumped before the random bytes are read, so also when that
    read fails. *)
Definition Encrypt (s : Session) (rand : reader) (plaintext : list byte)
  : outcome (list byte) * Session * reader :=
  let nonce := go_copy (make_bytes 24) (LePutUint64 (SendNonce s)) in
  let s := set_SendNonce (wrap 64 (SendNonce s + 1)) s in
  match ReadFull rand (len (drop 8 nonce)) with
  | Ok (random, rand) =>
      let nonce := take 8 nonce ++ go_copy (drop 8 nonce) random in
      (Seal (sendCipher s) nonce nonce plaintext [], s, rand)
  | Err e => (Err e, s, rand)
  | Panic => (Panic, s, rand)
  end.

(** Decrypt. The result is the returned pair and the session after the
    call. *)
Definition Decrypt (s : Session) (ciphertext : list byte)
  : outcome (list byte) * Session :=
  if len ciphertext <? 24 then (Err "ciphertext too short", s) else
  match slice_to ciphertext 24, slice_from ciphertext 24 with
  | Ok nonce, Ok ciphertext =>
      match Open (recvCipher s) [] nonce ciphertext [] with
      | Ok plaintext =>
          (Ok plaintext, set_RecvNonce (wrap 64 (RecvNonce s + 1)) s)
      | Err e => (Err e, s)
      | Panic => (Panic, s)
      end
  | _, _ => (Panic, s)
  end.

End session.

(** GenerateRandomBytes *)
Definition GenerateRandomBytes (rand : reader) (n : Z)
  : outcome (list byte) * reader :=
  match ReadFull rand (len (make_bytes n)) with
  | Ok (b, rand) => (Ok b, rand)
  | Err e => (Err e, rand)
  | Panic => (Panic, rand)
  end.

(** ** Key pairs and key agreement *)

(** [curve25519.ScalarMult] and [curve25519.ScalarBaseMult], on 32-byte
    scalars and points. *)
Class X25519 : Type := {
  ScalarMult : list byte -> list byte -> list byte;
  ScalarBaseMult : list byte -> list byte
}.

(** [PrivateKey] and [PublicKey] are [[32]byte]. *)
Record KeyPair : Type := {
  PrivateKey : list byte;
  PublicKey : list byte
}.

Section key_agreement.
Context {dh : X25519}.

(** GenerateKeyPair: 32 bytes from [crypto/rand], clamped at bytes 0 and
    31, and the public key of the clamped scalar. Returns the key pair and
    the reader afterwards. *)
Definition GenerateKeyPair (rand : reader) : outcome KeyPair * reader :=
  match ReadFull rand (len (make_bytes 32)) with
  | Err e => (Err e, rand)
  | Panic => (Panic, rand)
  | Ok (random, rand) =>
      let priv := go_copy (make_bytes 32) random in
      let priv := <[0%nat := byte_and (priv !!! 0%nat) 248]> priv in
      let priv := <[31%nat := byte_and (priv !!! 31%nat) 127]> priv in
      let priv := <[31%nat := byte_or (priv !!! 31%nat) 64]> priv in
      (Ok {| PrivateKey := priv; PublicKey := ScalarBaseMult priv |}, rand)
  end.

(** ComputeSharedSecret: the X25519 product, refused when it is the
    all-zero array. *)
Definition ComputeSharedSecret (privateKey peerPublicKey : list byte)
  : outcome (list byte) :=
  let sharedSecret := ScalarMult privateKey peerPublicKey in
  let zero := make_bytes 32 in
  if bool_decide (sharedSecret = zero)
  then Err "invalid shared secret: low-order point"
  else Ok sharedSecret.

End key_agreement.

End crypto.

(* ================================================================== *)
(** * The obfuscated transport (XOR over a TLS byte stream)            *)
(* ================================================================== *)

Module transport.

(** obfuscate: XOR [data] in place with the rolling key, moving [*keyPos].
    Returns the new content of [data] and the new [*keyPos]. Indexing an
    empty key panics. *)
Fixpoint obfuscate (data key : list byte) (keyPos : Z)
  : outcome (list byte * Z) :=
  match data with
  | [] => Ok ([], keyPos)
  | d :: data =>
      k ← index key keyPos;
      '(data, keyPos) ← obfuscate data key (Z.rem (keyPos + 1) (len key));
      Ok (byte_xor d k :: data, keyPos)
  end.

(** The connection's own state; [conn], the TLS stream underneath, is
    passed to [Read] as the reader of the bytes still to arrive and
    collected from [Write] as the bytes handed to [conn.Write]. *)
Record ObfuscatedConnection : Type := {
  key : list byte;
  keyPos : Z
}.

Definition set_keyPos (v : Z) (c : ObfuscatedConnection) : ObfuscatedConnection :=
  {| key := key c; keyPos := v |}.

(** What [Dial] and [Accept] build: the transport's key, [keyPos] zero. *)
Definition new_connection (k : list byte) : ObfuscatedConnection :=
  {| key := k; keyPos := 0 |}.

(** Read, into a buffer [b] of [blen] bytes. Returns [b[:n]] (or the
    error), the connection afterwards and the stream afterwards. *)
Definition Read (c : ObfuscatedConnection) (conn : reader) (blen : Z)
  : outcome (list byte) * ObfuscatedConnection * reader :=
  match ReadFull conn (len (make_bytes 4)) with
  | Err e => (Err e, c, conn)
  | Panic => (Panic, c, conn)
  | Ok (lenBuf, conn) =>
      let tempKeyPos := keyPos c in
      match obfuscate lenBuf (key c) tempKeyPos with
      | Err e => (Err e, c, conn)
      | Panic => (Panic, c, conn)
      | Ok (lenBuf, tempKeyPos) =>
          let length := Uint32 lenBuf in
          if 65535 <? length then (Err "invalid packet length", c, conn) else
          match ReadFull conn (len (make_bytes length)) with
          | Err e => (Err e, c, conn)
          | Panic => (Panic, c, conn)
          | Ok (data, conn) =>
              match obfuscate data (key c) (keyPos c) with
              | Err e => (Err e, c, conn)
              | Panic => (Panic, c, conn)
              | Ok (data, keyPos') =>
                  (Ok (take (Z.to_nat blen) data), set_keyPos keyPos' c, conn)
              end
          end
      end
  end.

(** Write. [werr] is the error of the underlying [conn.Write], if any.
    Returns [n] (or the error), the connection afterwards and the bytes
    handed to [conn.Write]. *)
Definition Write (c : ObfuscatedConnection) (werr : option string)
    (b : list byte) : outcome Z * ObfuscatedConnection * list byte :=
  let packet := PutUint32 (wrap 32 (len b)) ++ go_copy (make_bytes (len b)) b in
  let tempKeyPos := keyPos c in
  match obfuscate packet (key c) tempKeyPos with
  | Err e => (Err e, c, [])
  | Panic => (Panic, c, [])
  | Ok (packet, tempKeyPos) =>
      let c := set_keyPos tempKeyPos c in
      match werr with
      | Some e => (Err e, c, packet)
      | None => (Ok (len b), c, packet)
      end
  end.

(** ** The WebSocket connection *)

(** [conn], the gorilla connection underneath, is passed to the read as
    the list of binary messages still to arrive; [ReadMessage] on the empty
    list fails (the peer has closed). *)
Record WebSocketConnection : Type := {
  readBuf : list byte
}.

(** (c *WebSocketConnection) Read, into a buffer [b] of [blen] bytes.
    Returns [b[:n]] (or the error), the connection afterwards and the
    messages still to arrive. *)
Definition WebSocketRead (c : WebSocketConnection) (conn : list (list byte))
    (blen : Z) : outcome (list byte) * WebSocketConnection * list (list byte) :=
  if 0 <? len (readBuf c) then
    let n := Z.min blen (len (readBuf c)) in
    (Ok (take (Z.to_nat n) (readBuf c)),
     {| readBuf := drop (Z.to_nat n) (readBuf c) |}, conn)
  else
    match conn with
    | [] => (Err "websocket: close", c, conn)
    | data :: conn =>
        let n := Z.min blen (len data) in
        let c := if n <? len data
                 then {| readBuf := drop (Z.to_nat n) data |} else c in
        (Ok (take (Z.to_nat n) data), c, conn)
    end.

(** [k] calls of Read in a row with buffers of [blen] bytes: what each
    returned, and the state afterwards. *)
Fixpoint WebSocketReads (k : nat) (c : WebSocketConnection)
    (conn : list (list byte)) (blen : Z)
  : list (outcome (list byte)) * WebSocketConnection * list (list byte) :=
  match k with
  | O => ([], c, conn)
  | S k =>
      let '(r, c, conn) := WebSocketRead c conn blen in
      let '(rs, c, conn) := WebSocketReads k c conn blen in
      (r :: rs, c, conn)
  end.

(** ** Transport types (pkg/transport/transport.go) *)

(** [TransportType] is an [int]; the constants are [iota]. *)
Definition TransportQUIC : Z := 0.
Definition TransportWebSocket : Z := 1.
Definition TransportObfuscated : Z := 2.

(** (t TransportType) String *)
Definition TransportType_String (t : Z) : string :=
  if t =? TransportQUIC then "quic"
  else if t =? TransportWebSocket then "websocket"
  else if t =? TransportObfuscated then "obfuscated"
  else "unknown".

End transport.

(* ================================================================== *)
(** * pkg/server/server.go                                             *)
(* ================================================================== *)

Module server.

(** ** IP pool *)

(** Addresses are kept as the [uint32] that [binary.BigEndian.Uint32] reads
    from their four bytes. [used] is keyed in the source by [ip.String()],
    the dotted-decimal text of those four bytes, which determines the
    address; here it is keyed by the address. [ones] and [bits] are what
    [subnet.Mask.Size()] returns. *)
Record IPPool : Type := {
  baseIP : Z;
  ones : Z;
  bits : Z;
  used : gmap Z bool;
  nextHost : Z
}.

(** NewIPPool, for the subnet [base/ones] of an IPv4 network. *)
Definition NewIPPool (base ones : Z) : IPPool :=
  {| baseIP := base; ones := ones; bits := 32; used := ∅; nextHost := 2 |}.

(** The loop of Allocate: [todo] iterations remain, the loop variable is
    [i]. A zero modulus panics (integer division by zero). *)
Fixpoint Allocate_loop (p : IPPool) (maxHosts : Z) (i : Z) (todo : nat)
  : outcome Z * IPPool :=
  match todo with
  | O => (Err "IP pool exhausted", p)
  | S todo =>
      if wrap 32 (maxHosts - 1) =? 0 then (Panic, p) else
      let hostNum := wrap 32 (nextHost p + i) mod wrap 32 (maxHosts - 1) in
      let hostNum := if hostNum <? 2 then 2 else hostNum in
      let ip := wrap 32 (baseIP p + hostNum) in
      if negb (default false (used p !! ip)) then
        (Ok ip, {| baseIP := baseIP p; ones := ones p; bits := bits p;
                   used := <[ip := true]> (used p);
                   nextHost := wrap 32 (hostNum + 1) |})
      else Allocate_loop p maxHosts (wrap 32 (i + 1)) todo
  end.

(** Allocate: [for i := uint32(0); i < maxHosts-2; i++]. *)
Definition Allocate (p : IPPool) : outcome Z * IPPool :=
  let maxHosts := wrap 32 (Z.shiftl 1 (bits p - ones p)) in
  Allocate_loop p maxHosts 0 (Z.to_nat (wrap 32 (maxHosts - 2))).

(** Release *)
Definition Release (p : IPPool) (ip : Z) : IPPool :=
  {| baseIP := baseIP p; ones := ones p; bits := bits p;
     used := delete ip (used p); nextHost := nextHost p |}.

(** The pool of [New]: [net.ParseCIDR("10.8.0.0/24")]. *)
Definition subnet_base : Z := 0x0a080000.
Definition default_pool : IPPool := NewIPPool subnet_base 24.

(** The calls made on a pool. *)
Inductive pool_call : Type :=
| CallAllocate
| CallRelease (ip : Z).

Definition pool_step (p : IPPool) (c : pool_call) : IPPool :=
  match c with
  | CallAllocate => snd (Allocate p)
  | CallRelease ip => Release p ip
  end.

(** [n] consecutive calls of Allocate: their results in order and the
    pool afterwards. *)
Fixpoint Allocate_many (n : nat) (p : IPPool) : list (outcome Z) * IPPool :=
  match n with
  | O => ([], p)
  | S n =>
      let '(r, p) := Allocate p in
      let '(rs, p) := Allocate_many n p in
      (r :: rs, p)
  end.

(** The pool after a sequence of calls. *)
Definition pool_run (p : IPPool) (cs : list pool_call) : IPPool :=
  fold_left pool_step cs p.

(** The states the default pool can reach. *)
Definition reachable (p : IPPool) : Prop :=
  exists cs, p = pool_run default_pool cs.

(** ** Sessions and the data loop of handleConnection *)

(** [Conn] is left out of the record: what the loop writes to it is
    reported as an effect. [AssignedIP] is kept as the pool keeps it;
    [LastSeen] is a time stamp. *)
Record ClientSession : Type := {
  ID : Z;
  CryptoSession : crypto.Session;
  AssignedIP : Z;
  LastSeen : Z
}.

Definition set_LastSeen (t : Z) (s : ClientSession) : ClientSession :=
  {| ID := ID s; CryptoSession := CryptoSession s;
     AssignedIP := AssignedIP s; LastSeen := t |}.

Definition set_CryptoSession (c : crypto.Session) (s : ClientSession)
  : ClientSession :=
  {| ID := ID s; CryptoSession := c;
     AssignedIP := AssignedIP s; LastSeen := LastSeen s |}.

(** What one turn of the loop does to the outside. *)
Inductive effect : Type :=
| Log (format : string)
| TunWrite (packet : list byte)
| ConnWrite (packet : list byte).

(** How one turn of the loop ends: [continue] or falling out of the
    [switch] (next turn), [return], or a panic. *)
Inductive control : Type :=
| Continue
| Return
| Crash.

(** What [conn.Read(buf)] gave: [buf[:n]] or an error. *)
Inductive read_result : Type :=
| ReadOk (data : list byte)
| ReadErr (e : string).

Section data_loop.
Context {aead : crypto.AEAD}.

(** One turn of the [for] loop that handles data packets. [tunDevice] tells
    whether [s.tunDevice != nil], [done] whether [s.ctx.Done()] is closed,
    [rd] is the result of [conn.Read] and [now] the value of [time.Now()].
    The session is the one [session] and [cryptoSession] point to. *)
Definition data_loop_turn (tunDevice : bool) (session : ClientSession)
    (done : bool) (rd : read_result) (now : Z)
  : control * ClientSession * list effect :=
  let sessionID := ID session in
  if done then (Return, session, []) else
  match rd with
  | ReadErr e => (Return, session, [Log "Session %d read error: %v"])
  | ReadOk data =>
      match protocol.UnmarshalPacket data with
      | Err e => (Continue, session, [Log "Session %d parse error: %v"])
      | Panic => (Crash, session, [])
      | Ok packet =>
          let session := set_LastSeen now session in
          let ty := protocol.Type' (protocol.Header packet) in
          if bool_decide (ty = protocol.PacketTypeData) then
            match crypto.Decrypt (CryptoSession session)
                    (protocol.Payload packet) with
            | (Err e, cs) =>
                (Continue, set_CryptoSession cs session,
                 [Log "Session %d decrypt error: %v"])
            | (Panic, cs) => (Crash, set_CryptoSession cs session, [])
            | (Ok plaintext, cs) =>
                (Continue, set_CryptoSession cs session,
                 if tunDevice then [TunWrite plaintext] else [])
            end
          else if bool_decide (ty = protocol.PacketTypeKeepAlive) then
            let kaPacket :=
              protocol.NewPacket protocol.PacketTypeKeepAlive sessionID [] in
            (Continue, session, [ConnWrite (protocol.Marshal kaPacket)])
          else if bool_decide (ty = protocol.PacketTypeDisconnect) then
            (Return, session, [Log "Session %d disconnected by client"])
          else (Continue, session, [])
      end
  end.

(** The loop over the reads that arrive, each with its time; it stops at
    the first turn that does not continue. *)
Fixpoint data_loop (tunDevice : bool) (session : ClientSession)
    (reads : list (read_result * Z)) : control * ClientSession * list effect :=
  match reads with
  | [] => (Continue, session, [])
  | (rd, now) :: reads =>
      match data_loop_turn tunDevice session false rd now with
      | (Continue, session, out) =>
          let '(c, session, out') := data_loop tunDevice session reads in
          (c, session, out ++ out')
      | stop => stop
      end
  end.

End data_loop.

(** ** The key derivation step of handleConnection *)

Section handshake.
Context {kdf : crypto.KDF}.

(** [salt, _ := crypto.GenerateRandomBytes(32)] then
    [crypto.DeriveSessionKeys(sharedSecret, false, salt)]; on a failed
    read the ignored error leaves [salt] nil. *)
Definition handleConnection_keys (rand : reader) (sharedSecret : list byte)
  : outcome crypto.Session * reader :=
  let '(r, rand) := crypto.GenerateRandomBytes rand 32 in
  let salt := match r with Ok salt => salt | _ => [] end in
  (crypto.DeriveSessionKeys sharedSecret false salt, rand).

End handshake.

(** ** handleConnection, from the first read on *)

Section accept.
Context {kdf : crypto.KDF} {dh : crypto.X25519}.

(** [binary.Read(rand.Reader, binary.BigEndian, &sessionID)] with its error
    ignored: eight bytes of the reader, or 0 when it ends before; the
    reader afterwards. *)
Definition read_session_id (rand : reader) : Z * reader :=
  (if 8 <=? len rand then Uint64 (take 8 rand) else 0, drop 8 rand).

(** The part of handleConnection before the response is written: the
    first read [rd] of the connection, the checks, the keys, the session ID
    and the address. [Err] carries the format of the line logged before
    [return]; otherwise the session and the response frame are returned.
    [now] is [time.Now()]; the entry made in [s.sessions] is left out. *)
Definition handleConnection_accept (keyPair : crypto.KeyPair)
    (ipPool : IPPool) (rand : reader) (rd : read_result) (now : Z)
  : outcome (ClientSession * list byte) * IPPool * reader :=
  match rd with
  | ReadErr e => (Err "Read handshake error: %v", ipPool, rand)
  | ReadOk data =>
  match protocol.UnmarshalPacket data with
  | Err e => (Err "Parse packet error: %v", ipPool, rand)
  | Panic => (Panic, ipPool, rand)
  | Ok packet =>
  if negb (bool_decide (protocol.Type' (protocol.Header packet)
                        = protocol.PacketTypeHandshakeInit))
  then (Err "Expected handshake init, got %d", ipPool, rand) else
  match protocol.UnmarshalHandshakeInit (protocol.Payload packet) with
  | Err e => (Err "Parse handshake init error: %v", ipPool, rand)
  | Panic => (Panic, ipPool, rand)
  | Ok hsInit =>
  match crypto.ComputeSharedSecret (crypto.PrivateKey keyPair)
          (protocol.ClientPublicKey hsInit) with
  | Err e => (Err "Compute shared secret error: %v", ipPool, rand)
  | Panic => (Panic, ipPool, rand)
  | Ok sharedSecret =>
  match handleConnection_keys rand sharedSecret with
  | (Err e, rand) => (Err "Derive keys error: %v", ipPool, rand)
  | (Panic, rand) => (Panic, ipPool, rand)
  | (Ok cryptoSession, rand) =>
  let '(sessionID, rand) := read_session_id rand in
  match Allocate ipPool with
  | (Err e, ipPool) => (Err "IP allocation error: %v", ipPool, rand)
  | (Panic, ipPool) => (Panic, ipPool, rand)
  | (Ok clientIP, ipPool) =>
  let session := {| ID := sessionID; CryptoSession := cryptoSession;
                    AssignedIP := clientIP; LastSeen := now |} in
  let hsResp :=
    {| protocol.ServerPublicKey := crypto.PublicKey keyPair;
       protocol.RespSessionID := sessionID;
       protocol.AssignedIP := go_copy (make_bytes 4) (PutUint32 clientIP);
       protocol.ServerIP := go_copy (make_bytes 4) (bytes_of [10; 8; 0; 1]);
       protocol.Subnet := byte_of_Z 24;
       protocol.RespRandomPadding := go_copy (make_bytes 32) rand |} in
  let rand := drop 32 rand in
  let respPayload := protocol.MarshalHandshakeResponse hsResp in
  let respPacket :=
    protocol.NewPacket protocol.PacketTypeHandshakeResponse sessionID
      respPayload in
  (Ok (session, protocol.Marshal respPacket), ipPool, rand)
  end end end end end end.

End accept.

Section serve.
Context {kdf : crypto.KDF} {dh : crypto.X25519} {aead : crypto.AEAD}.

(** handleConnection as a whole: the part above, the write of the response
    ([werr] is the error of that [conn.Write], if any), the data loop over
    the reads that follow, and the deferred release of the address, which
    runs when the function returns. [s.ctx] is not cancelled during the
    call. [Continue] as the result means that the loop is waiting for the
    next read. *)
Definition handleConnection (keyPair : crypto.KeyPair) (tunDevice : bool)
    (ipPool : IPPool) (rand : reader) (rd : read_result) (now : Z)
    (werr : option string) (reads : list (read_result * Z))
  : control * IPPool * list effect :=
  match handleConnection_accept keyPair ipPool rand rd now with
  | (Err line, ipPool, _) => (Return, ipPool, [Log line])
  | (Panic, ipPool, _) => (Crash, ipPool, [])
  | (Ok (session, resp), ipPool, _) =>
      let clientIP := AssignedIP session in
      let closed := Log "Session %d closed, released IP %s" in
      match werr with
      | Some e =>
          (Return, Release ipPool clientIP,
           [ConnWrite resp; Log "Write handshake response error: %v"; closed])
      | None =>
          let established := Log "Session %d established, assigned IP %s" in
          match data_loop tunDevice session reads with
          | (Continue, _, out) =>
              (Continue, ipPool, ConnWrite resp :: established :: out)
          | (ctl, _, out) =>
              (ctl, Release ipPool clientIP,
               ConnWrite resp :: established :: out ++ [closed])
          end
      end
  end.

End serve.

(** ** tunReadLoop *)

(** What a turn of tunReadLoop does to the outside: a frame written to the
    connection of the session with this ID, or a line logged. *)
Inductive tun_effect : Type :=
| Sent (sessionID : Z) (frame : list byte)
| Logged (format : string).

Section tun.
Context {aead : crypto.AEAD}.

(** [for _, session := range s.sessions] in tunReadLoop. [sessions] lists
    the sessions in the order this [range] visits them, [destIP] is the
    [uint32] of the four bytes compared with [session.AssignedIP], [packet]
    is [buf[:n]]. A failed Encrypt goes on with the next session. Returns
    the sessions and the reader afterwards and what was done; [None] is a
    panic. *)
Fixpoint tun_dispatch (sessions : list ClientSession) (rand : reader)
    (destIP : Z) (packet : list byte)
  : option (list ClientSession * reader * list tun_effect) :=
  match sessions with
  | [] => Some ([], rand, [])
  | session :: rest =>
      if AssignedIP session =? destIP then
        match crypto.Encrypt (CryptoSession session) rand packet with
        | (Err e, cs, rand) =>
            '(rest, rand, out) ← tun_dispatch rest rand destIP packet;
            Some (set_CryptoSession cs session :: rest, rand,
                  Logged "Encrypt error: %v" :: out)
        | (Panic, _, _) => None
        | (Ok ciphertext, cs, rand) =>
            let frame :=
              protocol.Marshal
                (protocol.NewPacket protocol.PacketTypeData (ID session)
                   ciphertext) in
            Some (set_CryptoSession cs session :: rest, rand,
                  [Sent (ID session) frame])
        end
      else
        '(rest, rand, out) ← tun_dispatch rest rand destIP packet;
        Some (session :: rest, rand, out)
  end.

(** One turn of tunReadLoop with [s.ctx] not cancelled: [rd] is the result
    of [s.tunDevice.Read(buf)]. *)
Definition tunReadLoop_turn (sessions : list ClientSession) (rand : reader)
    (rd : read_result)
  : control * list ClientSession * reader * list tun_effect :=
  match rd with
  | ReadErr e => (Continue, sessions, rand, [Logged "TUN read error: %v"])
  | ReadOk packet =>
      if len packet <? 20 then (Continue, sessions, rand, []) else
      match slice packet 16 20 with
      | Ok destIP =>
          match tun_dispatch sessions rand (Uint32 destIP) packet with
          | Some (sessions, rand, out) => (Continue, sessions, rand, out)
          | None => (Crash, sessions, rand, [])
          end
      | _ => (Crash, sessions, rand, [])
      end
  end.

End tun.

End server.

(* ================================================================== *)
(** * pkg/client/client.go                                             *)
(* ================================================================== *)

Module client.

Section handshake.
Context {kdf : crypto.KDF}.

(** The key derivation step of performHandshake:
    [salt := make([]byte, 32)] then
    [crypto.DeriveSessionKeys(sharedSecret, true, salt)]. *)
Definition performHandshake_keys (sharedSecret : list byte)
  : outcome crypto.Session :=
  let salt := make_bytes 32 in
  crypto.DeriveSessionKeys sharedSecret true salt.

End handshake.

(** What performHandshake stores in the client. *)
Record Client : Type := {
  cryptoSession : crypto.Session;
  sessionID : Z;
  assignedIP : list byte;
  serverIP : list byte
}.

Section connect.
Context {kdf : crypto.KDF} {dh : crypto.X25519}.

(** The frame performHandshake sends first, and the reader afterwards.
    [now] is [time.Now().Unix()]; [rand.Read] fills the padding with what
    [rand] delivers, its error being ignored. *)
Definition handshake_init (keyPair : crypto.KeyPair) (now : Z) (rand : reader)
  : list byte * reader :=
  let hsInit :=
    {| protocol.ClientPublicKey := crypto.PublicKey keyPair;
       protocol.Timestamp := now;
       protocol.RandomPadding := go_copy (make_bytes 32) rand |} in
  let initPayload := protocol.MarshalHandshakeInit hsInit in
  let initPacket :=
    protocol.NewPacket protocol.PacketTypeHandshakeInit 0 initPayload in
  (protocol.Marshal initPacket, drop 32 rand).


End connect.

Definition set_cryptoSession (s : crypto.Session) (c : Client) : Client :=
  {| cryptoSession := s; sessionID := sessionID c;
     assignedIP := assignedIP c; serverIP := serverIP c |}.

Section tunnel.
Context {aead : crypto.AEAD}.

(** One turn of tunReadLoop with [c.ctx] not cancelled. [rd] is the result
    of [c.tunDevice.Read(buf)], [werr] the error of [c.conn.Write], if any.
    Returns how the turn ends, the client and the reader afterwards, and
    what was logged and written. After a failed write the turn calls
    handleDisconnect and returns; that call is left out. *)
Definition tunReadLoop_turn (c : Client) (rand : reader)
    (rd : server.read_result) (werr : option string)
  : server.control * Client * reader * list server.effect :=
  match rd with
  | server.ReadErr e =>
      (server.Continue, c, rand, [server.Log "TUN read error: %v"])
  | server.ReadOk data =>
      match crypto.Encrypt (cryptoSession c) rand data with
      | (Err e, s, rand) =>
          (server.Continue, set_cryptoSession s c, rand,
           [server.Log "Encrypt error: %v"])
      | (Panic, s, rand) => (server.Crash, set_cryptoSession s c, rand, [])
      | (Ok ciphertext, s, rand) =>
          let packet :=
            protocol.NewPacket protocol.PacketTypeData (sessionID c)
              ciphertext in
          let c := set_cryptoSession s c in
          match werr with
          | Some e =>
              (server.Return, c, rand,
               [server.ConnWrite (protocol.Marshal packet);
                server.Log "Send error: %v"])
          | None =>
              (server.Continue, c, rand,
               [server.ConnWrite (protocol.Marshal packet)])
          end
      end
  end.

End tunnel.

End client.

(* ================================================================== *)
(** * cmd/hydra/main.go                                                *)
(* ================================================================== *)

Module main.

(** parseTransport *)
Definition parseTransport (t : string) : Z :=
  if bool_decide (t = "quic"%string) then transport.TransportQUIC
  else if bool_decide (t = "websocket"%string) || bool_decide (t = "ws"%string)
  then transport.TransportWebSocket
  else if bool_decide (t = "obfuscated"%string) || bool_decide (t = "obfs"%string)
  then transport.TransportObfuscated
  else transport.TransportWebSocket.

End main.


(* ================================================================== *)
(** * The primitives of golang.org/x/crypto and crypto/sha256          *)
(* ================================================================== *)

(** These packages are outside the repository. They are written out here
    from their published definitions (FIPS 180-4, RFC 2104, RFC 5869,
    RFC 8439, the XChaCha20 construction and RFC 7748) so that the code of the
    repository can be run on concrete inputs. *)

(** Little-endian reader. *)
Definition le_get (bs : list byte) : Z :=
  fold_right (fun b acc => Z.lor (byte_to_Z b) (Z.shiftl acc 8)) 0 bs.

(** The [n]-byte chunks of [bs], the last one possibly shorter; [fuel]
    bounds their number. *)
Fixpoint chunks (fuel : nat) (n : nat) (bs : list byte) : list (list byte) :=
  match fuel with
  | O => []
  | S fuel =>
      match bs with
      | [] => []
      | _ => take n bs :: chunks fuel n (drop n bs)
      end
  end.

Definition xor_bytes (a b : list byte) : list byte :=
  zip_with byte_xor a b.

Definition mask32 : Z := 0xffffffff.
Definition add32 (a b : Z) : Z := (a + b) mod 2 ^ 32.

Module sha256.

Definition rotr (n x : Z) : Z :=
  Z.lor (Z.shiftr x n) (Z.land (Z.shiftl x (32 - n)) mask32).
Definition not32 (x : Z) : Z := Z.lxor x mask32.
Definition Ch (x y z : Z) : Z := Z.lxor (Z.land x y) (Z.land (not32 x) z).
Definition Maj (x y z : Z) : Z :=
  Z.lxor (Z.lxor (Z.land x y) (Z.land x z)) (Z.land y z).
Definition bsig0 (x : Z) : Z := Z.lxor (Z.lxor (rotr 2 x) (rotr 13 x)) (rotr 22 x).
Definition bsig1 (x : Z) : Z := Z.lxor (Z.lxor (rotr 6 x) (rotr 11 x)) (rotr 25 x).
Definition ssig0 (x : Z) : Z := Z.lxor (Z.lxor (rotr 7 x) (rotr 18 x)) (Z.shiftr x 3).
Definition ssig1 (x : Z) : Z := Z.lxor (Z.lxor (rotr 17 x) (rotr 19 x)) (Z.shiftr x 10).

(** The first [n] primes, by trial division over [2, 2 + fuel). *)
Definition is_prime (p : Z) : bool :=
  forallb (fun d => negb (p mod d =? 0)) (seqZ 2 (p - 2)).
Definition primes (n : nat) : list Z :=
  take n (filter (fun p => is_prime p = true) (seqZ 2 400)).

(** The integer cube root, bit by bit from bit [b - 1] down. *)
Fixpoint cube_root (b : nat) (n r : Z) : Z :=
  match b with
  | O => r
  | S b =>
      let r' := r + 2 ^ Z.of_nat b in
      cube_root b n (if r' * r' * r' <=? n then r' else r)
  end.

(** The round constants: the first 32 bits of the fractional parts of the
    cube roots of the first 64 primes. *)
Definition K : list Z :=
  Eval vm_compute in
    map (fun p => cube_root 40 (p * 2 ^ 96) 0 mod 2 ^ 32) (primes 64).

(** The eight working variables [a..h], also the chaining value. *)
Definition state : Type := Z * Z * Z * Z * Z * Z * Z * Z.

(** The initial chaining value: the first 32 bits of the fractional parts
    of the square roots of the first 8 primes. *)
Definition frac_sqrt (p : Z) : Z := Z.sqrt (p * 2 ^ 64) mod 2 ^ 32.
Definition H0 : state :=
  Eval vm_compute in
    (frac_sqrt 2, frac_sqrt 3, frac_sqrt 5, frac_sqrt 7,
     frac_sqrt 11, frac_sqrt 13, frac_sqrt 17, frac_sqrt 19).

Definition round (st : state) (k w : Z) : state :=
  let '(a, b, c, d, e, f, g, h) := st in
  let t1 := add32 (add32 (add32 (add32 h (bsig1 e)) (Ch e f g)) k) w in
  let t2 := add32 (bsig0 a) (Maj a b c) in
  (add32 t1 t2, a, b, c, add32 d t1, e, f, g).

(** The 64 rounds; [w] is the window of the sixteen schedule words
    [W(t) .. W(t+15)]. *)
Fixpoint rounds (ks : list Z) (w : list Z) (st : state) : state :=
  match ks with
  | [] => st
  | k :: ks =>
      let wt := w !!! 0%nat in
      let next :=
        add32 (add32 (ssig1 (w !!! 14%nat)) (w !!! 9%nat))
              (add32 (ssig0 (w !!! 1%nat)) wt) in
      rounds ks (drop 1 w ++ [next]) (round st k wt)
  end.

Definition add_state (x y : state) : state :=
  let '(a, b, c, d, e, f, g, h) := x in
  let '(a', b', c', d', e', f', g', h') := y in
  (add32 a a', add32 b b', add32 c c', add32 d d',
   add32 e e', add32 f f', add32 g g', add32 h h').

Definition compress (st : state) (block : list byte) : state :=
  add_state st (rounds K (map be_get (chunks 16 4 block)) st).

(** The message followed by 0x80, zeros up to 56 mod 64 and the bit length
    on eight bytes. *)
Definition pad (msg : list byte) : list byte :=
  msg ++ [x80] ++ replicate (Z.to_nat ((55 - len msg) mod 64)) x00
      ++ be_put 8 (8 * len msg).

Definition digest (st : state) : list byte :=
  let '(a, b, c, d, e, f, g, h) := st in
  be_put 4 a ++ be_put 4 b ++ be_put 4 c ++ be_put 4 d
    ++ be_put 4 e ++ be_put 4 f ++ be_put 4 g ++ be_put 4 h.

Definition Sum256 (msg : list byte) : list byte :=
  let m := pad msg in
  digest (fold_left compress (chunks (length m) 64 m) H0).

End sha256.

Module hmac.

Definition BlockSize : Z := 64.

(** HMAC-SHA256: keys longer than a block are hashed first, then padded
    with zeros to a block. *)
Definition Sum (key msg : list byte) : list byte :=
  let key := if BlockSize <? len key then sha256.Sum256 key else key in
  let key := go_copy (make_bytes BlockSize) key in
  let ipad := map (byte_xor x36) key in
  let opad := map (byte_xor x5c) key in
  sha256.Sum256 (opad ++ sha256.Sum256 (ipad ++ msg)).

End hmac.

Module hkdf.

Definition Extract (secret salt : list byte) : list byte :=
  hmac.Sum salt secret.

(** Blocks [T(i), T(i+1), ...], [n] of them, after [prev = T(i-1)]. *)
Fixpoint blocks (prk info : list byte) (n : nat) (i : Z) (prev : list byte)
  : list byte :=
  match n with
  | O => []
  | S n =>
      let t := hmac.Sum prk (prev ++ info ++ [byte_of_Z i]) in
      t ++ blocks prk info n (i + 1) t
  end.

(** The whole key stream of [hkdf.New]: 255 blocks. *)
Definition New (secret salt info : list byte) : reader :=
  blocks (Extract secret salt) info 255 1 [].

End hkdf.

Module chacha20.

Definition rotl (n x : Z) : Z :=
  Z.lor (Z.land (Z.shiftl x n) mask32) (Z.shiftr x (32 - n)).

Definition quarter (st : list Z) (ia ib ic id : nat) : list Z :=
  let a := st !!! ia in let b := st !!! ib in
  let c := st !!! ic in let d := st !!! id in
  let a := add32 a b in let d := rotl 16 (Z.lxor d a) in
  let c := add32 c d in let b := rotl 12 (Z.lxor b c) in
  let a := add32 a b in let d := rotl 8 (Z.lxor d a) in
  let c := add32 c d in let b := rotl 7 (Z.lxor b c) in
  <[ia:=a]> (<[ib:=b]> (<[ic:=c]> (<[id:=d]> st))).

Definition double_round (st : list Z) : list Z :=
  let st := quarter st 0 4 8 12 in
  let st := quarter st 1 5 9 13 in
  let st := quarter st 2 6 10 14 in
  let st := quarter st 3 7 11 15 in
  let st := quarter st 0 5 10 15 in
  let st := quarter st 1 6 11 12 in
  let st := quarter st 2 7 8 13 in
  quarter st 3 4 9 14.

Definition rounds20 (st : list Z) : list Z := Nat.iter 10 double_round st.

Definition sigma : list Z := [0x61707865; 0x3320646e; 0x79622d32; 0x6b206574].

Definition words (bs : list byte) : list Z := map le_get (chunks (length bs) 4 bs).

Definition serialize (ws : list Z) : list byte := flat_map (le_put 4) ws.

(** The 64-byte key stream block for a key, a block counter and a 12-byte
    nonce. *)
Definition block (key : list byte) (counter : Z) (nonce : list byte)
  : list byte :=
  let init := sigma ++ words key ++ [counter] ++ words nonce in
  serialize (zip_with add32 init (rounds20 init)).

(** HChaCha20: a 32-byte subkey from a key and a 16-byte nonce. *)
Definition hchacha20 (key nonce : list byte) : list byte :=
  let st := rounds20 (sigma ++ words key ++ words nonce) in
  serialize (take 4 st ++ drop 12 st).

(** XOR with the key stream, block counters [counter], [counter+1], ... *)
Fixpoint xor_stream (key nonce : list byte) (counter : Z)
    (data : list (list byte)) : list byte :=
  match data with
  | [] => []
  | c :: data =>
      xor_bytes c (block key counter nonce)
        ++ xor_stream key nonce (counter + 1) data
  end.

Definition encrypt (key nonce : list byte) (counter : Z) (data : list byte)
  : list byte :=
  xor_stream key nonce counter (chunks (length data) 64 data).

End chacha20.

Module poly1305.

Definition p : Z := 2 ^ 130 - 5.
Definition clamp : Z := 0x0ffffffc0ffffffc0ffffffc0fffffff.

Definition mac (key msg : list byte) : list byte :=
  let r := Z.land (le_get (take 16 key)) clamp in
  let s := le_get (drop 16 key) in
  let acc :=
    fold_left (fun acc c => ((acc + le_get (c ++ [x01])) * r) mod p)
              (chunks (length msg) 16 msg) 0 in
  le_put 16 (acc + s).

End poly1305.

Module chacha20poly1305.

Definition pad16 (x : list byte) : list byte :=
  replicate (Z.to_nat ((- len x) mod 16)) x00.

Definition tag (key nonce ad ciphertext : list byte) : list byte :=
  let otk := take 32 (chacha20.block key 0 nonce) in
  poly1305.mac otk
    (ad ++ pad16 ad ++ ciphertext ++ pad16 ciphertext
        ++ le_put 8 (len ad) ++ le_put 8 (len ciphertext)).

(** The IETF construction with a 12-byte nonce. *)
Definition seal (key nonce plaintext ad : list byte) : list byte :=
  let ciphertext := chacha20.encrypt key nonce 1 plaintext in
  ciphertext ++ tag key nonce ad ciphertext.

Definition open (key nonce sealed ad : list byte) : option (list byte) :=
  if len sealed <? 16 then None else
  let n := (length sealed - 16)%nat in
  let ciphertext := take n sealed in
  if bool_decide (drop n sealed = tag key nonce ad ciphertext)
  then Some (chacha20.encrypt key nonce 1 ciphertext)
  else None.

(** XChaCha20-Poly1305 with a 24-byte nonce: a subkey from the first 16
    nonce bytes, then the IETF construction with four zero bytes and the
    last 8 nonce bytes as nonce. *)
Definition xseal (key nonce plaintext ad : list byte) : list byte :=
  seal (chacha20.hchacha20 key (take 16 nonce))
       (replicate 4 x00 ++ drop 16 nonce) plaintext ad.

Definition xopen (key nonce sealed ad : list byte) : option (list byte) :=
  open (chacha20.hchacha20 key (take 16 nonce))
       (replicate 4 x00 ++ drop 16 nonce) sealed ad.

End chacha20poly1305.

Module curve25519.

(** X25519 of RFC 7748: the Montgomery ladder on the integers modulo
    [2^255 - 19]. *)
Definition p : Z := Eval vm_compute in 2 ^ 255 - 19.
Definition a24 : Z := 121665.

(** Reduction modulo [p] of a value below [2^512], by [2^255 = 19]. *)
Definition fold255 (x : Z) : Z :=
  Z.land x (Z.ones 255) + 19 * Z.shiftr x 255.
Definition reduce (x : Z) : Z :=
  let z := fold255 (fold255 x) in
  if p <=? z then z - p else z.
Definition mul (a b : Z) : Z := reduce (a * b).
Definition add (a b : Z) : Z := reduce (a + b).
Definition sub (a b : Z) : Z := reduce (a + p - b).

(** [b ^ e mod p] by repeated squaring over the [bits] low bits of [e]. *)
Fixpoint pow_mod (bits : nat) (b e : Z) : Z :=
  match bits with
  | O => 1
  | S bits =>
      let h := pow_mod bits b (Z.shiftr e 1) in
      let sq := mul h h in
      if Z.testbit e 0 then mul sq b else sq
  end.

(** The scalar as an integer: 32 bytes little-endian, clamped. *)
Definition decode_scalar (k : list byte) : Z :=
  let k := go_copy (make_bytes 32) k in
  let k := <[0%nat := byte_and (k !!! 0%nat) 248]> k in
  let k := <[31%nat := byte_and (k !!! 31%nat) 127]> k in
  let k := <[31%nat := byte_or (k !!! 31%nat) 64]> k in
  le_get k.

(** The u-coordinate: 32 bytes little-endian, the top bit ignored. *)
Definition decode_u (u : list byte) : Z :=
  reduce (Z.land (le_get (go_copy (make_bytes 32) u)) (Z.ones 255)).

(** The ladder state [(x2, z2, x3, z3)] and the pending swap. *)
Definition state : Type := Z * Z * Z * Z * bool.

Definition cswap (swap : bool) (a b : Z) : Z * Z :=
  if swap then (b, a) else (a, b).

Definition step (x1 : Z) (kt : bool) (st : state) : state :=
  let '(x2, z2, x3, z3, swap) := st in
  let swap := xorb swap kt in
  let '(x2, x3) := cswap swap x2 x3 in
  let '(z2, z3) := cswap swap z2 z3 in
  let A := add x2 z2 in
  let AA := mul A A in
  let B := sub x2 z2 in
  let BB := mul B B in
  let E := sub AA BB in
  let C := add x3 z3 in
  let D := sub x3 z3 in
  let DA := mul D A in
  let CB := mul C B in
  let x3 := mul (add DA CB) (add DA CB) in
  let z3 := mul x1 (mul (sub DA CB) (sub DA CB)) in
  let x2 := mul AA BB in
  let z2 := mul E (add AA (mul a24 E)) in
  (x2, z2, x3, z3, kt).

(** Bits [t - 1] down to 0 of the scalar. *)
Fixpoint ladder (t : nat) (k x1 : Z) (st : state) : state :=
  match t with
  | O => st
  | S t => ladder t k x1 (step x1 (Z.testbit k (Z.of_nat t)) st)
  end.

Definition X25519 (k u : list byte) : list byte :=
  let x1 := decode_u u in
  let '(x2, z2, x3, z3, swap) :=
    ladder 255 (decode_scalar k) x1 (1, 0, x1, 1, false) in
  let '(x2, _) := cswap swap x2 x3 in
  let '(z2, _) := cswap swap z2 z3 in
  le_put 32 (mul x2 (pow_mod 255 z2 (p - 2))).

Definition Basepoint : list byte := x09 :: replicate 31 x00.

End curve25519.


(* ================================================================== *)
(** * Proofs                                                           *)
(* ================================================================== *)

(** ** Facts about bytes and the integer codecs *)

Lemma byte_to_Z_range (b : byte) : 0 <= byte_to_Z b < 256.
Proof.
  unfold byte_to_Z. pose proof (Byte.to_N_bounded b). lia.
Qed.

Lemma byte_of_to_Z (b : byte) : byte_of_Z (byte_to_Z b) = b.
Proof.
  unfold byte_of_Z. pose proof (byte_to_Z_range b) as Hr.
  rewrite Z.mod_small by lia. unfold byte_to_Z.
  rewrite N2Z.id, Byte.of_to_N. reflexivity.
Qed.

Lemma byte_to_of_Z (v : Z) : byte_to_Z (byte_of_Z v) = v mod 256.
Proof.
  unfold byte_of_Z, byte_to_Z.
  assert (Hr : 0 <= v mod 256 < 256) by (apply Z.mod_pos_bound; lia).
  destruct (Byte.of_N (Z.to_N (v mod 256))) as [b|] eqn:E.
  - simpl. apply Byte.to_of_N in E. rewrite E. lia.
  - apply Byte.of_N_None_iff in E. lia.
Qed.

Lemma byte_to_Z_inj (a b : byte) : byte_to_Z a = byte_to_Z b -> a = b.
Proof.
  intros H. rewrite <- (byte_of_to_Z a), <- (byte_of_to_Z b). now rewrite H.
Qed.

Lemma lxor_byte_range (a b : Z) :
  0 <= a < 256 -> 0 <= b < 256 -> 0 <= Z.lxor a b < 256.
Proof.
  intros Ha Hb.
  assert (Hn : 0 <= Z.lxor a b) by (apply Z.lxor_nonneg; lia).
  split; [exact Hn|].
  replace (Z.lxor a b) with (Z.lxor a b mod 2 ^ 8).
  { apply Z.mod_pos_bound. reflexivity. }
  apply Z.bits_inj'. intros n Hn'.
  destruct (Z_lt_dec n 8).
  - now rewrite Z.mod_pow2_bits_low by lia.
  - rewrite Z.mod_pow2_bits_high by lia. rewrite Z.lxor_spec.
    replace a with (a mod 2 ^ 8) by (apply Z.mod_small; simpl; lia).
    replace b with (b mod 2 ^ 8) by (apply Z.mod_small; simpl; lia).
    now rewrite !Z.mod_pow2_bits_high by lia.
Qed.

(** XOR with the same byte twice gives the byte back. *)
Lemma byte_xor_involutive (a k : byte) : byte_xor (byte_xor a k) k = a.
Proof.
  unfold byte_xor. rewrite byte_to_of_Z.
  pose proof (byte_to_Z_range a). pose proof (byte_to_Z_range k).
  rewrite Z.mod_small by (apply lxor_byte_range; lia).
  rewrite Z.lxor_assoc, Z.lxor_nilpotent, Z.lxor_0_r. apply byte_of_to_Z.
Qed.

Lemma wrap_small (w v : Z) : 0 <= v < 2 ^ w -> wrap w v = v.
Proof. intros H. unfold wrap. now apply Z.mod_small. Qed.

Lemma len_nonneg (s : list byte) : 0 <= len s.
Proof. unfold len. lia. Qed.

Lemma go_copy_exact (src : list byte) :
  go_copy (make_bytes (len src)) src = src.
Proof.
  unfold go_copy, make_bytes, len.
  rewrite Nat2Z.id, length_replicate, take_ge, drop_ge by (rewrite ?length_replicate; lia).
  apply app_nil_r.
Qed.

Lemma length_be_put n v : length (be_put n v) = n.
Proof. induction n; simpl; congruence. Qed.

Lemma length_le_put n v : length (le_put n v) = n.
Proof. revert v; induction n; intros; simpl; congruence. Qed.

(** [acc<<8 | b] is [256*acc + b] when [b] is a byte. *)
Lemma shift_or_byte (acc : Z) (b : byte) :
  Z.lor (Z.shiftl acc 8) (byte_to_Z b) = 256 * acc + byte_to_Z b.
Proof.
  pose proof (byte_to_Z_range b) as Hb.
  assert (Hl : Z.land (Z.shiftl acc 8) (byte_to_Z b) = 0).
  { apply Z.bits_inj'. intros n Hn.
    rewrite Z.land_spec, Z.bits_0.
    destruct (Z_lt_dec n 8).
    - rewrite Z.shiftl_spec_low by lia. reflexivity.
    - replace (byte_to_Z b) with (byte_to_Z b mod 2 ^ 8)
        by (apply Z.mod_small; simpl; lia).
      rewrite Z.mod_pow2_bits_high by lia. apply andb_false_r. }
  rewrite <- Z.lxor_lor by exact Hl.
  rewrite <- Z.add_nocarry_lxor by exact Hl.
  rewrite Z.shiftl_mul_pow2 by lia. change (2 ^ 8) with 256. lia.
Qed.

Lemma be_get_acc (bs : list byte) (acc : Z) :
  fold_left (fun a b => Z.lor (Z.shiftl a 8) (byte_to_Z b)) bs acc
  = acc * 256 ^ Z.of_nat (length bs) + be_get bs.
Proof.
  unfold be_get. revert acc.
  induction bs as [|b bs IH]; intros acc; simpl fold_left.
  - simpl. lia.
  - rewrite (IH (Z.lor _ _)), (IH (Z.lor (Z.shiftl 0 8) _)).
    rewrite !shift_or_byte.
    replace (Z.of_nat (length (b :: bs))) with (1 + Z.of_nat (length bs))
      by (simpl length; lia).
    rewrite Z.pow_add_r by lia. lia.
Qed.

Lemma be_get_cons (b : byte) (bs : list byte) :
  be_get (b :: bs) = byte_to_Z b * 256 ^ Z.of_nat (length bs) + be_get bs.
Proof.
  unfold be_get at 1. simpl fold_left. rewrite be_get_acc, shift_or_byte. lia.
Qed.

Lemma be_get_range (bs : list byte) :
  0 <= be_get bs < 256 ^ Z.of_nat (length bs).
Proof.
  induction bs as [|b bs IH].
  - unfold be_get; simpl. lia.
  - rewrite be_get_cons. pose proof (byte_to_Z_range b).
    replace (Z.of_nat (length (b :: bs))) with (1 + Z.of_nat (length bs))
      by (simpl length; lia).
    rewrite Z.pow_add_r by lia. nia.
Qed.

Lemma byte_of_Z_mod (v : Z) : byte_of_Z (v mod 256) = byte_of_Z v.
Proof. unfold byte_of_Z. rewrite Z.mod_mod by lia. reflexivity. Qed.

Lemma byte_of_Z_add_mul (v k : Z) : byte_of_Z (v + k * 256) = byte_of_Z v.
Proof.
  rewrite <- (byte_of_Z_mod (v + k * 256)), Z.mod_add by lia.
  apply byte_of_Z_mod.
Qed.

(** Reading back what was written gives the value truncated to [n] bytes. *)
Lemma be_get_put (n : nat) (v : Z) :
  be_get (be_put n v) = v mod 256 ^ Z.of_nat n.
Proof.
  induction n as [|n IH].
  - unfold be_get; simpl. now rewrite Z.mod_1_r.
  - cbn [be_put]. rewrite be_get_cons, IH, length_be_put, byte_to_of_Z.
    rewrite Z.shiftr_div_pow2 by lia.
    replace (2 ^ (8 * Z.of_nat n)) with (256 ^ Z.of_nat n)
      by (rewrite Z.pow_mul_r by lia; reflexivity).
    replace (Z.of_nat (S n)) with (Z.of_nat n + 1) by lia.
    rewrite Z.pow_add_r, Z.pow_1_r by lia.
    assert (0 < 256 ^ Z.of_nat n) by (apply Z.pow_pos_nonneg; lia).
    rewrite Z.rem_mul_r by lia. lia.
Qed.

Lemma be_put_high (n : nat) (a r : Z) :
  be_put n (a * 256 ^ Z.of_nat n + r) = be_put n r.
Proof.
  revert a. induction n as [|n IH]; intros a; [reflexivity|].
  cbn [be_put].
  replace (Z.of_nat (S n)) with (Z.of_nat n + 1) by lia.
  rewrite Z.pow_add_r, Z.pow_1_r by lia.
  replace (a * (256 ^ Z.of_nat n * 256) + r)
    with ((a * 256) * 256 ^ Z.of_nat n + r) by lia.
  rewrite IH. f_equal.
  rewrite !Z.shiftr_div_pow2 by lia.
  replace (2 ^ (8 * Z.of_nat n)) with (256 ^ Z.of_nat n)
    by (rewrite Z.pow_mul_r by lia; reflexivity).
  assert (0 < 256 ^ Z.of_nat n) by (apply Z.pow_pos_nonneg; lia).
  rewrite Z.add_comm, Z.div_add by lia.
  apply byte_of_Z_add_mul.
Qed.

(** Writing back what was read gives the same bytes. *)
Lemma be_put_get (bs : list byte) : be_put (length bs) (be_get bs) = bs.
Proof.
  induction bs as [|b bs IH]; [reflexivity|].
  rewrite be_get_cons. cbn [length be_put]. f_equal.
  - rewrite Z.shiftr_div_pow2 by lia.
    replace (2 ^ (8 * Z.of_nat (length bs))) with (256 ^ Z.of_nat (length bs))
      by (rewrite Z.pow_mul_r by lia; reflexivity).
    pose proof (be_get_range bs).
    assert (0 < 256 ^ Z.of_nat (length bs)) by (apply Z.pow_pos_nonneg; lia).
    rewrite Z.add_comm, Z.div_add, Z.div_small by lia.
    apply byte_of_to_Z.
  - rewrite be_put_high. exact IH.
Qed.


(** ** Index and slice expressions inside their bounds *)

Lemma index_Ok (s : list byte) (i : Z) :
  0 <= i < len s -> index s i = Ok (s !!! Z.to_nat i).
Proof.
  intros Hi. unfold index.
  replace ((0 <=? i) && (i <? len s)) with true
    by (symmetry; apply andb_true_iff; split; [apply Z.leb_le|apply Z.ltb_lt]; lia).
  destruct (s !! Z.to_nat i) as [b|] eqn:E.
  - now rewrite (list_lookup_total_correct _ _ _ E).
  - apply lookup_ge_None in E. unfold len in Hi. lia.
Qed.

Lemma slice_Ok (s : list byte) (lo hi : Z) :
  0 <= lo <= hi -> hi <= len s ->
  slice s lo hi = Ok (take (Z.to_nat (hi - lo)) (drop (Z.to_nat lo) s)).
Proof.
  intros H1 H2. unfold slice.
  replace ((0 <=? lo) && (lo <=? hi) && (hi <=? len s)) with true; [reflexivity|].
  symmetry. rewrite !andb_true_iff, !Z.leb_le. lia.
Qed.

Lemma slice_from_Ok (s : list byte) (lo : Z) :
  0 <= lo <= len s -> slice_from s lo = Ok (drop (Z.to_nat lo) s).
Proof.
  intros H. unfold slice_from. rewrite slice_Ok by lia.
  rewrite take_ge; [reflexivity|].
  rewrite length_drop. unfold len in *. lia.
Qed.

Lemma ReadFull_Ok (r : reader) (n : Z) :
  n <= len r ->
  ReadFull r n = Ok (take (Z.to_nat n) r, drop (Z.to_nat n) r).
Proof.
  intros H. unfold ReadFull.
  now replace (n <=? len r) with true by (symmetry; apply Z.leb_le; lia).
Qed.

Lemma len_take (s : list byte) (n : nat) :
  Z.of_nat n <= len s -> len (take n s) = Z.of_nat n.
Proof. unfold len. rewrite length_take. lia. Qed.

Lemma len_drop (s : list byte) (n : nat) :
  len (drop n s) = Z.max 0 (len s - Z.of_nat n).
Proof. unfold len. rewrite length_drop. lia. Qed.

Lemma len_app (a b : list byte) : len (a ++ b) = len a + len b.
Proof. unfold len. rewrite length_app. lia. Qed.

Lemma len_make_bytes (n : Z) : 0 <= n -> len (make_bytes n) = n.
Proof. intros H. unfold len, make_bytes. rewrite length_replicate. lia. Qed.

Lemma go_copy_same_length (dst src : list byte) :
  length dst = length src -> go_copy dst src = src.
Proof.
  intros H. unfold go_copy. rewrite H, take_ge, drop_ge by lia.
  apply app_nil_r.
Qed.

(** Little-endian codec. *)
Lemma le_get_cons (b : byte) (bs : list byte) :
  le_get (b :: bs) = byte_to_Z b + 256 * le_get bs.
Proof.
  unfold le_get. cbn [fold_right]. rewrite Z.lor_comm, shift_or_byte. lia.
Qed.

Lemma le_get_put (n : nat) (v : Z) :
  le_get (le_put n v) = v mod 256 ^ Z.of_nat n.
Proof.
  revert v. induction n as [|n IH]; intros v.
  - cbn. now rewrite Z.mod_1_r.
  - cbn [le_put]. rewrite le_get_cons, IH, byte_to_of_Z.
    rewrite Z.shiftr_div_pow2 by lia. change (2 ^ 8) with 256.
    replace (Z.of_nat (S n)) with (1 + Z.of_nat n) by lia.
    rewrite Z.pow_add_r, Z.pow_1_r by lia.
    assert (0 < 256 ^ Z.of_nat n) by (apply Z.pow_pos_nonneg; lia).
    rewrite (Z.rem_mul_r v 256) by lia. reflexivity.
Qed.

(* ================================================================== *)
(** * Framing: pkg/protocol                                            *)
(* ================================================================== *)

Module protocol_facts.
Import protocol.

(** What UnmarshalPacket computes once the buffer holds a whole header:
    no index or slice leaves the buffer, and three checks remain. *)
Lemma UnmarshalPacket_header (data : list byte) :
  HeaderSize <= len data ->
  UnmarshalPacket data =
    if negb (bool_decide (data !!! 0%nat = MagicByte1))
       || negb (bool_decide (data !!! 1%nat = MagicByte2))
    then Err "invalid magic bytes"
    else if negb (bool_decide (data !!! 2%nat = ProtocolVersion))
    then Err "unsupported protocol version"
    else if negb (length_field data =? len data - HeaderSize)
    then Err "payload length mismatch"
    else Ok {| Header := {| Magic := (data !!! 0%nat, data !!! 1%nat);
                            Version := data !!! 2%nat;
                            Type' := data !!! 3%nat;
                            SessionID := Uint64 (drop 4 data);
                            Length := length_field data |};
               Payload := drop 14 data |}.
Proof.
  unfold HeaderSize. intros Hlen. unfold UnmarshalPacket, HeaderSize.
  replace (len data <? 14) with false by (symmetry; apply Z.ltb_ge; lia).
  rewrite !index_Ok, !slice_Ok, slice_from_Ok by lia.
  cbn [mbind outcome_bind fmap outcome_fmap].
  change (Z.to_nat 0) with 0%nat. change (Z.to_nat 1) with 1%nat.
  change (Z.to_nat 2) with 2%nat. change (Z.to_nat 3) with 3%nat.
  change (Z.to_nat 4) with 4%nat. change (Z.to_nat 12) with 12%nat.
  change (Z.to_nat 14) with 14%nat.
  change (Z.to_nat (12 - 4)) with 8%nat. change (Z.to_nat (14 - 12)) with 2%nat.
  unfold length_field, Uint64, Uint16. rewrite !take_take. cbn [Nat.min].
  destruct (negb _ || negb _); [reflexivity|].
  destruct (negb (bool_decide (_ = ProtocolVersion))); [reflexivity|].
  destruct (be_get (take 2 (drop 12 data)) =? len data - 14) eqn:E;
    cbn [negb]; [|reflexivity].
  apply Z.eqb_eq in E. do 2 f_equal.
  rewrite E. replace (len data - 14) with (len (drop 14 data))
    by (unfold len; rewrite length_drop; unfold len in Hlen; lia).
  apply go_copy_exact.
Qed.

Lemma UnmarshalPacket_short (data : list byte) :
  len data < HeaderSize -> UnmarshalPacket data = Err "packet too short".
Proof.
  intros H. unfold UnmarshalPacket.
  now replace (len data <? HeaderSize) with true by (symmetry; apply Z.ltb_lt; lia).
Qed.

Lemma Marshal_bytes (p : Packet) :
  Marshal p =
    [fst (Magic (Header p)); snd (Magic (Header p)); Version (Header p);
     Type' (Header p)]
    ++ PutUint64 (SessionID (Header p)) ++ PutUint16 (Length (Header p))
    ++ Payload p.
Proof. unfold Marshal. now rewrite go_copy_exact. Qed.

Lemma len_Marshal (p : Packet) : len (Marshal p) = HeaderSize + len (Payload p).
Proof.
  rewrite Marshal_bytes. unfold len, HeaderSize, PutUint64, PutUint16.
  rewrite !length_app, !length_be_put. simpl length. lia.
Qed.

Lemma Marshal_Unmarshal (data : list byte) (p : Packet) :
  UnmarshalPacket data = Ok p -> Marshal p = data.
Proof.
  intros H.
  destruct (Z_lt_dec (len data) HeaderSize) as [Hs|Hl].
  { rewrite UnmarshalPacket_short in H by exact Hs. discriminate. }
  rewrite UnmarshalPacket_header in H by lia.
  destruct (negb _ || negb _); [discriminate|].
  destruct (negb (bool_decide (_ = ProtocolVersion))); [discriminate|].
  destruct (negb _); [discriminate|].
  injection H as <-. rewrite Marshal_bytes. cbn [Header Payload Magic Version
    Type' SessionID Length fst snd].
  unfold HeaderSize, len in Hl.
  do 14 (destruct data as [|? data]; [simpl in Hl; lia|]).
  cbn [lookup_total list_lookup_total drop]. unfold length_field.
  cbn [drop]. unfold PutUint64, PutUint16, Uint64, Uint16.
  cbn [take].
  change 8%nat with (length [b3; b4; b5; b6; b7; b8; b9; b10]) at 1.
  change 2%nat with (length [b11; b12]) at 1.
  rewrite !be_put_get. reflexivity.
Qed.

(** C2. Framing round trip. For every packet [p] with valid magic, version
    1 and [Header.Length = len(Payload)] (its fields in the ranges of their
    Go types), [UnmarshalPacket(p.Marshal())] returns [p]; and for every
    byte string [b], [UnmarshalPacket(b)] either returns an error or returns
    a packet whose [Marshal] is [b] again. *)
Theorem C2_framing_round_trip (p : Packet) (b : list byte) :
  (header_typed (Header p) ->
   Magic (Header p) = (MagicByte1, MagicByte2) ->
   Version (Header p) = ProtocolVersion ->
   Length (Header p) = len (Payload p) ->
   UnmarshalPacket (Marshal p) = Ok p)
  /\ ((exists e, UnmarshalPacket b = Err e)
      \/ (exists q, UnmarshalPacket b = Ok q /\ Marshal q = b)).
Proof.
  split.
  - intros [Hsid Hlen] Hmagic Hver Hl.
    destruct p as [[[m0 m1] ver ty sid plen] payload].
    cbn [Header Payload Magic Version Type' SessionID Length] in *.
    injection Hmagic as -> ->. subst ver plen.
    rewrite UnmarshalPacket_header
      by (rewrite len_Marshal; pose proof (len_nonneg payload); cbn [Payload];
          unfold HeaderSize; lia).
    rewrite len_Marshal, Marshal_bytes.
    cbn [Header Payload Magic Version Type' SessionID Length fst snd].
    cbn [app lookup_total list_lookup_total]. unfold length_field.
    unfold PutUint64, PutUint16, Uint64, Uint16.
    cbn [be_put app drop]. simpl take. rewrite !take_0.
    change [byte_of_Z (Z.shiftr sid (8 * Z.of_nat 7));
            byte_of_Z (Z.shiftr sid (8 * Z.of_nat 6));
            byte_of_Z (Z.shiftr sid (8 * Z.of_nat 5));
            byte_of_Z (Z.shiftr sid (8 * Z.of_nat 4));
            byte_of_Z (Z.shiftr sid (8 * Z.of_nat 3));
            byte_of_Z (Z.shiftr sid (8 * Z.of_nat 2));
            byte_of_Z (Z.shiftr sid (8 * Z.of_nat 1));
            byte_of_Z (Z.shiftr sid (8 * Z.of_nat 0))] with (be_put 8 sid).
    change [byte_of_Z (Z.shiftr (len payload) (8 * Z.of_nat 1));
            byte_of_Z (Z.shiftr (len payload) (8 * Z.of_nat 0))]
      with (be_put 2 (len payload)).
    rewrite !be_get_put.
    change (256 ^ Z.of_nat 8) with (2 ^ 64). change (256 ^ Z.of_nat 2) with (2 ^ 16).
    rewrite !Z.mod_small by lia.
    rewrite !bool_decide_eq_true_2 by reflexivity. cbn [negb orb].
    replace (len payload =? HeaderSize + len payload - HeaderSize) with true
      by (symmetry; apply Z.eqb_eq; lia).
    reflexivity.
  - destruct (UnmarshalPacket b) as [q|e|] eqn:E.
    + right. exists q. split; [reflexivity|]. now apply Marshal_Unmarshal.
    + left. now exists e.
    + exfalso. destruct (Z_lt_dec (len b) HeaderSize) as [Hs|Hl].
      * rewrite UnmarshalPacket_short in E by exact Hs. discriminate.
      * rewrite UnmarshalPacket_header in E by lia.
        repeat match type of E with
               | (if ?c then _ else _) = _ => destruct c
               end; discriminate.
Qed.

Lemma lookup_header_byte (data : list byte) (i : nat) (c : byte) :
  (i < length data)%nat -> (data !! i ≠ Some c <-> data !!! i ≠ c).
Proof.
  intros Hi. destruct (lookup_lt_is_Some_2 data i Hi) as [x Hx].
  rewrite (list_lookup_total_correct _ _ _ Hx), Hx. split; congruence.
Qed.

(** C8. [UnmarshalPacket(b)] returns an error if and only if [len(b) < 14],
    or the magic bytes differ from 0x48 0x56, or the version byte differs
    from 1, or the length field differs from [len(b) - 14]. The type byte is
    never a cause of failure: overwriting byte 3 of [b] with any value [t]
    leaves the verdict unchanged; and a call that returns no error returns a
    packet whose type is byte 3 as it came (nothing panics). *)
Theorem C8_unmarshal_error_iff (b : list byte) :
  (is_Err (UnmarshalPacket b) = true <->
     len b < 14
     \/ (b !! 0%nat ≠ Some x48 \/ b !! 1%nat ≠ Some x56)
     \/ b !! 2%nat ≠ Some x01
     \/ length_field b ≠ len b - 14)
  /\ (forall t : byte,
        is_Err (UnmarshalPacket (<[3%nat:=t]> b)) = is_Err (UnmarshalPacket b))
  /\ (is_Err (UnmarshalPacket b) = false ->
      exists p, UnmarshalPacket b = Ok p /\ b !! 3%nat = Some (Type' (Header p))).
Proof.
  destruct (Z_lt_dec (len b) HeaderSize) as [Hs|Hl].
  - split; [|split].
    + rewrite UnmarshalPacket_short by exact Hs. cbn [is_Err].
      unfold HeaderSize in Hs. split; [intros _; now left | reflexivity].
    + intros t. rewrite !UnmarshalPacket_short; trivial.
      unfold len in *. now rewrite length_insert.
    + rewrite UnmarshalPacket_short by exact Hs. discriminate.
  - assert (Hn : (14 <= length b)%nat) by (unfold HeaderSize, len in Hl; lia).
    assert (Hh : HeaderSize <= len b) by lia.
    split; [|split].
    + rewrite UnmarshalPacket_header by exact Hh.
      rewrite !lookup_header_byte by lia.
      change x48 with MagicByte1. change x56 with MagicByte2.
      change x01 with ProtocolVersion. unfold HeaderSize in *.
      repeat case_bool_decide; cbn [negb orb is_Err];
        try (split; [intros _; tauto | reflexivity]).
      destruct (length_field b =? len b - 14) eqn:E; cbn [negb is_Err].
      * apply Z.eqb_eq in E. split; [discriminate|]. intros Hor. exfalso. tauto.
      * apply Z.eqb_neq in E. split; [intros _; tauto | reflexivity].
    + intros t.
      rewrite !UnmarshalPacket_header
        by (unfold len in *; rewrite ?length_insert; exact Hh).
      rewrite !list_lookup_total_insert_ne by lia.
      unfold length_field, len. rewrite drop_insert_lt, length_insert by lia.
      repeat match goal with
             | |- context [if ?c then _ else _] => destruct c
             end; reflexivity.
    + rewrite UnmarshalPacket_header by exact Hh.
      repeat match goal with
             | |- context [if ?c then _ else _] => destruct c
             end; cbn [is_Err]; try discriminate.
      intros _. eexists. split; [reflexivity|]. cbn [Header Type'].
      apply list_lookup_lookup_total_lt. lia.
Qed.

Lemma length_field_Marshal (p : Packet) :
  length_field (Marshal p) = Length (Header p) mod 2 ^ 16.
Proof.
  rewrite Marshal_bytes. unfold length_field, Uint16.
  change 12%nat with
    (length ([fst (Magic (Header p)); snd (Magic (Header p));
              Version (Header p); Type' (Header p)]
             ++ PutUint64 (SessionID (Header p)))).
  rewrite (app_assoc _ (PutUint64 _)), drop_app_length.
  change 2%nat with (length (PutUint16 (Length (Header p)))) at 1.
  rewrite take_app_length. unfold PutUint16. apply be_get_put.
Qed.

(** C9. For every payload of 65536 bytes or more, [NewPacket] stores
    [len(payload) mod 2^16] in [Header.Length] and keeps the whole payload;
    [Marshal] then emits [14 + len(payload)] bytes whose length field holds
    that truncated value, which differs from the payload length, and
    [UnmarshalPacket] rejects those bytes with an error. *)
Theorem C9_oversize_payload (t : byte) (sid : Z) (payload : list byte) :
  65536 <= len payload ->
  let p := NewPacket t sid payload in
  Length (Header p) = len payload mod 2 ^ 16
  /\ Payload p = payload
  /\ len (Marshal p) = 14 + len payload
  /\ length_field (Marshal p) = len payload mod 2 ^ 16
  /\ length_field (Marshal p) ≠ len payload
  /\ UnmarshalPacket (Marshal p) = Err "payload length mismatch".
Proof.
  intros Hbig p.
  assert (Hm : 0 <= len payload mod 2 ^ 16 < 2 ^ 16)
    by (apply Z.mod_pos_bound; lia).
  assert (Hf : length_field (Marshal p) = len payload mod 2 ^ 16).
  { rewrite length_field_Marshal. subst p. unfold NewPacket, wrap.
    cbn [Header Length]. now rewrite Z.mod_mod by lia. }
  assert (Hl : len (Marshal p) = 14 + len payload) by apply len_Marshal.
  repeat split; trivial.
  - lia.
  - rewrite UnmarshalPacket_header by (rewrite Hl; unfold HeaderSize; lia).
    rewrite Hf, Hl. rewrite Marshal_bytes. subst p. unfold NewPacket.
    cbn [Header Payload Magic Version Type' SessionID Length fst snd].
    cbn [app lookup_total list_lookup_total].
    rewrite !bool_decide_eq_true_2 by reflexivity. cbn [negb orb].
    replace (len payload mod 2 ^ 16 =? 14 + len payload - HeaderSize) with false
      by (symmetry; apply Z.eqb_neq; unfold HeaderSize; lia).
    reflexivity.
Qed.

Lemma int64_wrap (t : Z) : - 2 ^ 63 <= t < 2 ^ 63 -> int64 (wrap 64 t) = t.
Proof.
  intros H. unfold int64, wrap.
  destruct (Z_lt_dec t 0) as [Hneg|Hpos].
  - replace (t mod 2 ^ 64) with (t + 2 ^ 64).
    + replace (t + 2 ^ 64 <? 2 ^ 63) with false by (symmetry; apply Z.ltb_ge; lia).
      lia.
    + symmetry. rewrite <- (Z.mod_add t 1 (2 ^ 64)) by lia.
      apply Z.mod_small. lia.
  - rewrite Z.mod_small by lia.
    now replace (t <? 2 ^ 63) with true by (symmetry; apply Z.ltb_lt; lia).
Qed.

Lemma wrap_int64 (v : Z) : 0 <= v < 2 ^ 64 -> wrap 64 (int64 v) = v.
Proof.
  intros H. unfold int64, wrap. destruct (v <? 2 ^ 63) eqn:E.
  - apply Z.mod_small. lia.
  - rewrite <- (Z.mod_add (v - 2 ^ 64) 1 (2 ^ 64)) by lia.
    replace (v - 2 ^ 64 + 1 * 2 ^ 64) with v by lia. apply Z.mod_small. lia.
Qed.

Lemma int64_range (v : Z) : 0 <= v < 2 ^ 64 -> - 2 ^ 63 <= int64 v < 2 ^ 63.
Proof.
  intros H. unfold int64. destruct (v <? 2 ^ 63) eqn:E.
  - apply Z.ltb_lt in E. lia.
  - apply Z.ltb_ge in E. lia.
Qed.

Lemma Uint64_range (b : list byte) : 0 <= Uint64 b < 2 ^ 64.
Proof.
  unfold Uint64. pose proof (be_get_range (take 8 b)) as H.
  assert (256 ^ Z.of_nat (length (take 8 b)) <= 2 ^ 64).
  { change (2 ^ 64) with (256 ^ 8). apply Z.pow_le_mono_r; [lia|].
    rewrite length_take. lia. }
  lia.
Qed.

Lemma take_plus (n m : nat) (l : list byte) :
  take (n + m) l = take n l ++ take m (drop n l).
Proof.
  revert l. induction n as [|n IH]; intros l; [now rewrite drop_0|].
  destruct l as [|x l]; [now rewrite drop_nil, !take_nil|].
  cbn [Nat.add take drop app]. now rewrite IH.
Qed.

Lemma take_1_drop (l : list byte) (n : nat) :
  (n < length l)%nat -> take 1 (drop n l) = [l !!! n].
Proof.
  intros H. destruct (drop n l) as [|x rest] eqn:E.
  - apply (f_equal length) in E. rewrite length_drop in E. cbn in E. lia.
  - rewrite <- (Nat.add_0_r n), <- lookup_total_drop, E. reflexivity.
Qed.

Lemma go_copy_full (n : nat) (src : list byte) :
  length src = n -> go_copy (make_bytes (Z.of_nat n)) src = src.
Proof.
  intros H. apply go_copy_same_length. unfold make_bytes.
  rewrite length_replicate. lia.
Qed.

Lemma UnmarshalHandshakeInit_long (data : list byte) :
  72 <= len data ->
  UnmarshalHandshakeInit data =
    Ok {| ClientPublicKey := take 32 data;
          Timestamp := int64 (Uint64 (take 8 (drop 32 data)));
          RandomPadding := take 32 (drop 40 data) |}.
Proof.
  intros H. unfold UnmarshalHandshakeInit.
  replace (len data <? 72) with false by (symmetry; apply Z.ltb_ge; lia).
  rewrite !slice_Ok by lia. cbn [mbind outcome_bind].
  change (Z.to_nat (32 - 0)) with 32%nat. change (Z.to_nat 0) with 0%nat.
  change (Z.to_nat (40 - 32)) with 8%nat. change (Z.to_nat 32) with 32%nat.
  change (Z.to_nat (72 - 40)) with 32%nat. change (Z.to_nat 40) with 40%nat.
  rewrite drop_0.
  rewrite !(go_copy_full 32)
    by (rewrite length_take, ?length_drop; unfold len in H; lia).
  reflexivity.
Qed.

Lemma UnmarshalHandshakeInit_short (data : list byte) :
  len data < 72 -> UnmarshalHandshakeInit data = Err "handshake init too short".
Proof.
  intros H. unfold UnmarshalHandshakeInit.
  now replace (len data <? 72) with true by (symmetry; apply Z.ltb_lt; lia).
Qed.

Lemma MarshalHandshakeInit_typed (h : HandshakeInit) :
  init_typed h ->
  MarshalHandshakeInit h =
    ClientPublicKey h ++ PutUint64 (wrap 64 (Timestamp h)) ++ RandomPadding h.
Proof.
  intros (Hk & _ & Hp). unfold MarshalHandshakeInit.
  now rewrite !(go_copy_full 32) by assumption.
Qed.

Lemma length_MarshalHandshakeInit (h : HandshakeInit) :
  length (MarshalHandshakeInit h) = 72%nat.
Proof.
  unfold MarshalHandshakeInit, go_copy, make_bytes, PutUint64.
  rewrite !length_app, !length_take, !length_drop, !length_replicate, length_be_put.
  lia.
Qed.

(** Parsing a marshalled init message with fields of the right sizes gives
    the message back. *)
Lemma UnmarshalHandshakeInit_Marshal (h : HandshakeInit) :
  init_typed h ->
  UnmarshalHandshakeInit (MarshalHandshakeInit h) = Ok h.
Proof.
  intros Ht. assert (Hl : len (MarshalHandshakeInit h) = 72)
    by (unfold len; now rewrite length_MarshalHandshakeInit).
  rewrite UnmarshalHandshakeInit_long by lia.
  rewrite MarshalHandshakeInit_typed by exact Ht.
  destruct Ht as (Hk & Hts & Hp). destruct h as [k ts p].
  cbn [ClientPublicKey Timestamp RandomPadding] in *.
  rewrite (take_app_length' k _ 32) by now rewrite Hk.
  rewrite (drop_app_length' k _ 32) by now rewrite Hk.
  rewrite (take_app_length' (PutUint64 _) _ 8)
    by (unfold PutUint64; now rewrite length_be_put).
  replace (drop 40 (k ++ PutUint64 (wrap 64 ts) ++ p)) with p.
  2:{ rewrite app_assoc. symmetry. apply drop_app_length'.
      rewrite length_app, Hk. unfold PutUint64. now rewrite length_be_put. }
  rewrite take_ge by lia.
  unfold Uint64, PutUint64. rewrite take_ge by (rewrite length_be_put; lia).
  rewrite be_get_put. change (256 ^ Z.of_nat 8) with (2 ^ 64).
  unfold wrap. rewrite Z.mod_mod by lia. fold (wrap 64 ts).
  now rewrite int64_wrap.
Qed.

(** X1. Handshake init round trip. MarshalHandshakeInit always produces 72
    bytes, and for every init message whose fields have the sizes of their Go
    types, UnmarshalHandshakeInit of these bytes returns the message, negative
    timestamps included. *)
Theorem X1_handshake_init_round_trip (h : HandshakeInit) :
  init_typed h ->
  len (MarshalHandshakeInit h) = 72
  /\ UnmarshalHandshakeInit (MarshalHandshakeInit h) = Ok h.
Proof.
  intros Ht. split; [|now apply UnmarshalHandshakeInit_Marshal].
  unfold len. now rewrite length_MarshalHandshakeInit.
Qed.

(** X2. UnmarshalHandshakeInit returns an error exactly when the input is
    shorter than 72 bytes and never panics. On longer inputs it reads the
    first 72 bytes only: trailing bytes are ignored, the result has fields of
    the right sizes, and marshalling it gives back the first 72 bytes. *)
Theorem X2_unmarshal_init (data extra : list byte) :
  (is_Err (UnmarshalHandshakeInit data) = true <-> len data < 72)
  /\ UnmarshalHandshakeInit data <> Panic
  /\ (72 <= len data ->
      exists h, UnmarshalHandshakeInit data = Ok h
                /\ UnmarshalHandshakeInit (data ++ extra) = Ok h
                /\ init_typed h
                /\ MarshalHandshakeInit h = take 72 data).
Proof.
  destruct (Z_lt_dec (len data) 72) as [Hs|Hl].
  - rewrite UnmarshalHandshakeInit_short by exact Hs. cbn [is_Err].
    repeat split; try discriminate; intros; [assumption|lia].
  - rewrite UnmarshalHandshakeInit_long by lia. cbn [is_Err].
    split; [split; [discriminate|lia]|]. split; [discriminate|].
    intros _. eexists. split; [reflexivity|].
    assert (Hn : (72 <= length data)%nat) by (unfold len in Hl; lia).
    split; [|split].
    + rewrite UnmarshalHandshakeInit_long by (rewrite len_app; pose proof (len_nonneg extra); lia).
      rewrite !(take_app_le data), !(drop_app_le data) by lia.
      rewrite !(take_app_le (drop _ data)) by (rewrite length_drop; lia).
      reflexivity.
    + unfold init_typed. cbn. rewrite !length_take, ?length_drop.
      pose proof (int64_range _ (Uint64_range (take 8 (drop 32 data)))). lia.
    + rewrite MarshalHandshakeInit_typed.
      2:{ unfold init_typed. cbn. rewrite !length_take, ?length_drop.
          pose proof (int64_range _ (Uint64_range (take 8 (drop 32 data)))). lia. }
      cbn [ClientPublicKey Timestamp RandomPadding].
      rewrite wrap_int64 by apply Uint64_range.
      unfold Uint64, PutUint64. rewrite take_take. cbn [Nat.min].
      pose proof (be_put_get (take 8 (drop 32 data))) as E.
      rewrite length_take, length_drop in E.
      replace (8 `min` (length data - 32))%nat with 8%nat in E by lia.
      rewrite E. change 72%nat with (32 + (8 + 32))%nat.
      rewrite (take_plus 32), (take_plus 8), drop_drop. reflexivity.
Qed.

Lemma UnmarshalHandshakeResponse_long (data : list byte) :
  81 <= len data ->
  UnmarshalHandshakeResponse data =
    Ok {| ServerPublicKey := take 32 data;
          RespSessionID := Uint64 (take 8 (drop 32 data));
          AssignedIP := take 4 (drop 40 data);
          ServerIP := take 4 (drop 44 data);
          Subnet := data !!! 48%nat;
          RespRandomPadding := take 32 (drop 49 data) |}.
Proof.
  intros H. unfold UnmarshalHandshakeResponse.
  replace (len data <? 81) with false by (symmetry; apply Z.ltb_ge; lia).
  rewrite !slice_Ok, index_Ok by lia. cbn [mbind outcome_bind].
  change (Z.to_nat (32 - 0)) with 32%nat. change (Z.to_nat 0) with 0%nat.
  change (Z.to_nat (40 - 32)) with 8%nat. change (Z.to_nat 32) with 32%nat.
  change (Z.to_nat (44 - 40)) with 4%nat. change (Z.to_nat 40) with 40%nat.
  change (Z.to_nat (48 - 44)) with 4%nat. change (Z.to_nat 44) with 44%nat.
  change (Z.to_nat (81 - 49)) with 32%nat. change (Z.to_nat 49) with 49%nat.
  change (Z.to_nat 48) with 48%nat.
  rewrite drop_0.
  rewrite !(go_copy_full 32), !(go_copy_full 4)
    by (rewrite length_take, ?length_drop; unfold len in H; lia).
  reflexivity.
Qed.

Lemma UnmarshalHandshakeResponse_short (data : list byte) :
  len data < 81 ->
  UnmarshalHandshakeResponse data = Err "handshake response too short".
Proof.
  intros H. unfold UnmarshalHandshakeResponse.
  now replace (len data <? 81) with true by (symmetry; apply Z.ltb_lt; lia).
Qed.

Lemma MarshalHandshakeResponse_typed (h : HandshakeResponse) :
  response_typed h ->
  MarshalHandshakeResponse h =
    ServerPublicKey h ++ PutUint64 (RespSessionID h) ++ AssignedIP h
      ++ ServerIP h ++ [Subnet h] ++ RespRandomPadding h.
Proof.
  intros (Hk & _ & Ha & Hs & Hp). unfold MarshalHandshakeResponse.
  now rewrite !(go_copy_full 32), !(go_copy_full 4) by assumption.
Qed.

Lemma length_MarshalHandshakeResponse (h : HandshakeResponse) :
  length (MarshalHandshakeResponse h) = 81%nat.
Proof.
  unfold MarshalHandshakeResponse, go_copy, make_bytes, PutUint64.
  rewrite !length_app, !length_take, !length_drop, !length_replicate, length_be_put.
  cbn [length]. lia.
Qed.

(** What the parser reads at each offset of six fields laid end to end. *)
Lemma response_layout (k s a v p : list byte) (b : byte) :
  length k = 32%nat -> length s = 8%nat -> length a = 4%nat ->
  length v = 4%nat ->
  let l := k ++ s ++ a ++ v ++ [b] ++ p in
  take 32 l = k
  /\ take 8 (drop 32 l) = s
  /\ take 4 (drop 40 l) = a
  /\ take 4 (drop 44 l) = v
  /\ l !!! 48%nat = b
  /\ drop 49 l = p.
Proof.
  intros Hk Hs Ha Hv l. subst l.
  assert (D32 : drop 32 (k ++ s ++ a ++ v ++ [b] ++ p) = s ++ a ++ v ++ [b] ++ p)
    by (apply drop_app_length'; now rewrite Hk).
  assert (D40 : drop 40 (k ++ s ++ a ++ v ++ [b] ++ p) = a ++ v ++ [b] ++ p).
  { change 40%nat with (32 + 8)%nat. rewrite <- drop_drop, D32.
    apply drop_app_length'. now rewrite Hs. }
  assert (D44 : drop 44 (k ++ s ++ a ++ v ++ [b] ++ p) = v ++ [b] ++ p).
  { change 44%nat with (40 + 4)%nat. rewrite <- drop_drop, D40.
    apply drop_app_length'. now rewrite Ha. }
  assert (D48 : drop 48 (k ++ s ++ a ++ v ++ [b] ++ p) = [b] ++ p).
  { change 48%nat with (44 + 4)%nat. rewrite <- drop_drop, D44.
    apply drop_app_length'. now rewrite Hv. }
  repeat split.
  - apply take_app_length'. now rewrite Hk.
  - rewrite D32. apply take_app_length'. now rewrite Hs.
  - rewrite D40. apply take_app_length'. now rewrite Ha.
  - rewrite D44. apply take_app_length'. now rewrite Hv.
  - rewrite <- (Nat.add_0_r 48), <- lookup_total_drop, D48. reflexivity.
  - change 49%nat with (48 + 1)%nat. rewrite <- drop_drop, D48. reflexivity.
Qed.

(** Parsing a marshalled response with fields of the right sizes gives the
    response back. *)
Lemma UnmarshalHandshakeResponse_Marshal (h : HandshakeResponse) :
  response_typed h ->
  UnmarshalHandshakeResponse (MarshalHandshakeResponse h) = Ok h.
Proof.
  intros Ht. assert (Hl : len (MarshalHandshakeResponse h) = 81)
    by (unfold len; now rewrite length_MarshalHandshakeResponse).
  rewrite UnmarshalHandshakeResponse_long by lia.
  rewrite MarshalHandshakeResponse_typed by exact Ht.
  destruct Ht as (Hk & Hsid & Ha & Hs & Hp). destruct h as [k sid a s b p].
  cbn [ServerPublicKey RespSessionID AssignedIP ServerIP Subnet
       RespRandomPadding] in *.
  destruct (response_layout k (PutUint64 sid) a s p b
              Hk (length_be_put 8 sid) Ha Hs)
    as (E1 & E2 & E3 & E4 & E5 & E6).
  rewrite E1, E2, E3, E4, E5, E6. rewrite take_ge by lia.
  unfold Uint64, PutUint64. rewrite take_ge by (rewrite length_be_put; lia).
  rewrite be_get_put. change (256 ^ Z.of_nat 8) with (2 ^ 64).
  now rewrite Z.mod_small by lia.
Qed.

(** X3. Handshake response round trip. MarshalHandshakeResponse always
    produces 81 bytes, and for every response whose fields have the sizes of
    their Go types, UnmarshalHandshakeResponse of these bytes returns the
    response. *)
Theorem X3_handshake_response_round_trip (h : HandshakeResponse) :
  response_typed h ->
  len (MarshalHandshakeResponse h) = 81
  /\ UnmarshalHandshakeResponse (MarshalHandshakeResponse h) = Ok h.
Proof.
  intros Ht. split; [|now apply UnmarshalHandshakeResponse_Marshal].
  unfold len. now rewrite length_MarshalHandshakeResponse.
Qed.

(** X4. UnmarshalHandshakeResponse returns an error exactly when the input
    is shorter than 81 bytes and never panics. On longer inputs it reads the
    first 81 bytes only: trailing bytes are ignored, the result has fields of
    the right sizes, and marshalling it gives back the first 81 bytes. *)
Theorem X4_unmarshal_response (data extra : list byte) :
  (is_Err (UnmarshalHandshakeResponse data) = true <-> len data < 81)
  /\ UnmarshalHandshakeResponse data <> Panic
  /\ (81 <= len data ->
      exists h, UnmarshalHandshakeResponse data = Ok h
                /\ UnmarshalHandshakeResponse (data ++ extra) = Ok h
                /\ response_typed h
                /\ MarshalHandshakeResponse h = take 81 data).
Proof.
  destruct (Z_lt_dec (len data) 81) as [Hs|Hl].
  - rewrite UnmarshalHandshakeResponse_short by exact Hs. cbn [is_Err].
    repeat split; try discriminate; intros; [assumption|lia].
  - rewrite UnmarshalHandshakeResponse_long by lia. cbn [is_Err].
    split; [split; [discriminate|lia]|]. split; [discriminate|].
    intros _. eexists. split; [reflexivity|].
    assert (Hn : (81 <= length data)%nat) by (unfold len in Hl; lia).
    assert (Hty : response_typed
      {| ServerPublicKey := take 32 data;
         RespSessionID := Uint64 (take 8 (drop 32 data));
         AssignedIP := take 4 (drop 40 data);
         ServerIP := take 4 (drop 44 data);
         Subnet := data !!! 48%nat;
         RespRandomPadding := take 32 (drop 49 data) |}).
    { unfold response_typed.
      cbn [ServerPublicKey RespSessionID AssignedIP ServerIP Subnet
           RespRandomPadding].
      rewrite !length_take, ?length_drop.
      pose proof (Uint64_range (take 8 (drop 32 data))). lia. }
    split; [|split; [exact Hty|]].
    + rewrite UnmarshalHandshakeResponse_long
        by (rewrite len_app; pose proof (len_nonneg extra); lia).
      rewrite !(take_app_le data), !(drop_app_le data) by lia.
      rewrite !(take_app_le (drop _ data)) by (rewrite length_drop; lia).
      rewrite lookup_total_app_l by lia. reflexivity.
    + rewrite MarshalHandshakeResponse_typed by exact Hty.
      cbn [ServerPublicKey RespSessionID AssignedIP ServerIP Subnet
           RespRandomPadding].
      unfold Uint64, PutUint64. rewrite take_take. cbn [Nat.min].
      pose proof (be_put_get (take 8 (drop 32 data))) as E.
      rewrite length_take, length_drop in E.
      replace (8 `min` (length data - 32))%nat with 8%nat in E by lia.
      rewrite E.
      rewrite (take_plus 32 49 data : take 81 data = _).
      rewrite (take_plus 8 41 (drop 32 data) : take 49 (drop 32 data) = _).
      rewrite (drop_drop data 8 32 : _ = drop 40 data).
      rewrite (take_plus 4 37 (drop 40 data) : take 41 (drop 40 data) = _).
      rewrite (drop_drop data 4 40 : _ = drop 44 data).
      rewrite (take_plus 4 33 (drop 44 data) : take 37 (drop 44 data) = _).
      rewrite (drop_drop data 4 44 : _ = drop 48 data).
      rewrite (take_plus 1 32 (drop 48 data) : take 33 (drop 48 data) = _).
      rewrite (drop_drop data 1 48 : _ = drop 49 data).
      now rewrite (take_1_drop data 48) by lia.
Qed.

(** The frame of a packet as the parser sees it. *)
Lemma Unmarshal_Marshal (p : Packet) :
  header_typed (Header p) ->
  Magic (Header p) = (MagicByte1, MagicByte2) ->
  Version (Header p) = ProtocolVersion ->
  Length (Header p) = len (Payload p) ->
  UnmarshalPacket (Marshal p) = Ok p.
Proof.
  intros [Hsid Hlen] Hmagic Hver Hl.
  destruct p as [[[m0 m1] ver ty sid plen] payload].
  cbn [Header Payload Magic Version Type' SessionID Length] in *.
  injection Hmagic as -> ->. subst ver plen.
  rewrite UnmarshalPacket_header
    by (rewrite len_Marshal; pose proof (len_nonneg payload); cbn [Payload];
        unfold HeaderSize; lia).
  rewrite len_Marshal, Marshal_bytes.
  cbn [Header Payload Magic Version Type' SessionID Length fst snd].
  cbn [app lookup_total list_lookup_total]. unfold length_field.
  unfold PutUint64, PutUint16, Uint64, Uint16.
  cbn [be_put app drop]. simpl take. rewrite !take_0.
  change [byte_of_Z (Z.shiftr sid (8 * Z.of_nat 7));
          byte_of_Z (Z.shiftr sid (8 * Z.of_nat 6));
          byte_of_Z (Z.shiftr sid (8 * Z.of_nat 5));
          byte_of_Z (Z.shiftr sid (8 * Z.of_nat 4));
          byte_of_Z (Z.shiftr sid (8 * Z.of_nat 3));
          byte_of_Z (Z.shiftr sid (8 * Z.of_nat 2));
          byte_of_Z (Z.shiftr sid (8 * Z.of_nat 1));
          byte_of_Z (Z.shiftr sid (8 * Z.of_nat 0))] with (be_put 8 sid).
  change [byte_of_Z (Z.shiftr (len payload) (8 * Z.of_nat 1));
          byte_of_Z (Z.shiftr (len payload) (8 * Z.of_nat 0))]
    with (be_put 2 (len payload)).
  rewrite !be_get_put.
  change (256 ^ Z.of_nat 8) with (2 ^ 64). change (256 ^ Z.of_nat 2) with (2 ^ 16).
  rewrite !Z.mod_small by lia.
  rewrite !bool_decide_eq_true_2 by reflexivity. cbn [negb orb].
  replace (len payload =? HeaderSize + len payload - HeaderSize) with true
    by (symmetry; apply Z.eqb_eq; lia).
  reflexivity.
Qed.

(** X5. A packet built by NewPacket from a payload of at most 65535 bytes
    (and a session id in the range of [uint64]) survives the wire:
    UnmarshalPacket of its Marshal returns the same packet, with the payload
    length in the header. *)
Theorem X5_new_packet_round_trip (t : byte) (sid : Z) (payload : list byte) :
  0 <= sid < 2 ^ 64 ->
  len payload <= 65535 ->
  UnmarshalPacket (Marshal (NewPacket t sid payload))
    = Ok (NewPacket t sid payload)
  /\ Length (Header (NewPacket t sid payload)) = len payload
  /\ len (Marshal (NewPacket t sid payload)) = 14 + len payload.
Proof.
  intros Hsid Hlen. pose proof (len_nonneg payload) as Hnn.
  assert (Hw : wrap 16 (len payload) = len payload)
    by (apply wrap_small; simpl; lia).
  split; [|split].
  - apply Unmarshal_Marshal; unfold NewPacket, header_typed;
      cbn [Header Payload Magic Version Type' SessionID Length];
      rewrite ?Hw; try reflexivity. simpl; lia.
  - exact Hw.
  - apply len_Marshal.
Qed.

Lemma be_get_two (a b : byte) : be_get [a; b] = 256 * byte_to_Z a + byte_to_Z b.
Proof.
  rewrite !be_get_cons. unfold be_get. cbn [fold_left length].
  change (256 ^ Z.of_nat 1) with 256. change (256 ^ Z.of_nat 0) with 1. lia.
Qed.

Lemma UnmarshalPacket_Ok_inv (b : list byte) (p : Packet) :
  UnmarshalPacket b = Ok p ->
  HeaderSize <= len b
  /\ b !!! 0%nat = MagicByte1 /\ b !!! 1%nat = MagicByte2
  /\ b !!! 2%nat = ProtocolVersion
  /\ length_field b = len b - HeaderSize.
Proof.
  intros Hok.
  destruct (Z_lt_dec (len b) HeaderSize) as [Hs|Hl].
  { rewrite UnmarshalPacket_short in Hok by exact Hs. discriminate. }
  rewrite UnmarshalPacket_header in Hok by lia.
  repeat case_bool_decide; cbn [negb orb] in Hok; try discriminate.
  destruct (_ =? _) eqn:E in Hok; cbn [negb] in Hok; [|discriminate].
  apply Z.eqb_eq in E. repeat split; trivial. lia.
Qed.

(** X6. Header tampering. In a frame that UnmarshalPacket accepts, replacing
    any one of the two magic bytes, the version byte or the two bytes of the
    length field by a different value makes UnmarshalPacket return an
    error. *)
Theorem X6_header_tampering (b : list byte) (p : Packet) (i : nat) (v : byte) :
  UnmarshalPacket b = Ok p ->
  i ∈ [0; 1; 2; 12; 13]%nat ->
  b !! i <> Some v ->
  is_Err (UnmarshalPacket (<[i := v]> b)) = true.
Proof.
  intros Hok Hi Hv.
  destruct (UnmarshalPacket_Ok_inv b p Hok) as (Hl & H0 & H1 & H2 & H3).
  clear Hok.
  assert (Hlen : HeaderSize <= len (<[i := v]> b))
    by (unfold len; rewrite length_insert; unfold len in Hl; lia).
  rewrite UnmarshalPacket_header by exact Hlen.
  unfold len. rewrite length_insert. fold (len b).
  unfold HeaderSize, len in Hl.
  destruct b as [|x0 [|x1 [|x2 [|x3 [|x4 [|x5 [|x6 [|x7 [|x8 [|x9 [|x10 [|x11
    [|x12 [|x13 rest]]]]]]]]]]]]]]; try (cbn in Hl; lia).
  set (l := len (x0 :: x1 :: x2 :: x3 :: x4 :: x5 :: x6 :: x7 :: x8 :: x9
                 :: x10 :: x11 :: x12 :: x13 :: rest)) in *.
  unfold length_field, Uint16 in *.
  cbn [lookup_total list_lookup_total drop take] in H0, H1, H2, H3.
  rewrite be_get_two in H3.
  repeat (apply elem_of_cons in Hi; destruct Hi as [->|Hi]);
    [ | | | | | inversion Hi ];
    cbn [insert list_insert lookup_total list_lookup_total drop take];
    cbn [lookup list_lookup] in Hv;
    rewrite ?be_get_two.
  - rewrite (bool_decide_eq_false_2 (v = MagicByte1)) by congruence.
    reflexivity.
  - rewrite (bool_decide_eq_false_2 (v = MagicByte2)) by congruence.
    now rewrite orb_true_r.
  - rewrite !bool_decide_eq_true_2 by assumption.
    rewrite (bool_decide_eq_false_2 (v = ProtocolVersion)) by congruence.
    reflexivity.
  - rewrite !bool_decide_eq_true_2 by assumption. cbn [negb orb].
    assert (byte_to_Z v <> byte_to_Z x12)
      by (intros Heq; apply byte_to_Z_inj in Heq; congruence).
    replace (_ =? _) with false by (symmetry; apply Z.eqb_neq; lia).
    reflexivity.
  - rewrite !bool_decide_eq_true_2 by assumption. cbn [negb orb].
    assert (byte_to_Z v <> byte_to_Z x13)
      by (intros Heq; apply byte_to_Z_inj in Heq; congruence).
    replace (_ =? _) with false by (symmetry; apply Z.eqb_neq; lia).
    reflexivity.
Qed.

End protocol_facts.

(* ================================================================== *)
(** * Key schedule and sessions: pkg/crypto                            *)
(* ================================================================== *)

Module crypto_facts.
Import crypto.

Section key_schedule.
Context {kdf : KDF}.

(** The two keys DeriveSessionKeys reads from the key stream. *)
Definition K1 (sharedSecret salt : list byte) : list byte :=
  take 32 (hkdf_New sharedSecret salt session_keys_info).
Definition K2 (sharedSecret salt : list byte) : list byte :=
  take 32 (drop 32 (hkdf_New sharedSecret salt session_keys_info)).

Lemma len_K1 secret salt : len (K1 secret salt) = 32.
Proof.
  unfold K1. rewrite len_take; [reflexivity|].
  rewrite hkdf_New_length. lia.
Qed.

Lemma len_K2 secret salt : len (K2 secret salt) = 32.
Proof.
  unfold K2. rewrite len_take; [reflexivity|].
  rewrite len_drop, hkdf_New_length. lia.
Qed.

(** DeriveSessionKeys always returns a session, and which one. *)
Lemma DeriveSessionKeys_returns secret (isInitiator : bool) salt :
  DeriveSessionKeys secret isInitiator salt =
    let sendKey := if isInitiator then K1 secret salt else K2 secret salt in
    let recvKey := if isInitiator then K2 secret salt else K1 secret salt in
    Ok {| SendKey := sendKey; RecvKey := recvKey;
          SendNonce := 0; RecvNonce := 0;
          sendCipher := {| cipher_key := sendKey |};
          recvCipher := {| cipher_key := recvKey |} |}.
Proof.
  unfold DeriveSessionKeys.
  rewrite ReadFull_Ok by (rewrite hkdf_New_length; lia).
  cbn [mbind outcome_bind]. change (Z.to_nat 32) with 32%nat.
  rewrite ReadFull_Ok by (rewrite len_drop, hkdf_New_length; lia).
  cbn [mbind outcome_bind]. change (Z.to_nat 32) with 32%nat.
  fold (K1 secret salt). fold (K2 secret salt).
  pose proof (len_K1 secret salt) as H1. pose proof (len_K2 secret salt) as H2.
  destruct isInitiator; unfold NewX, KeySize; rewrite H1, H2; reflexivity.
Qed.

(** C5. For every shared secret and every salt, DeriveSessionKeys with
    [isInitiator = true] and with [isInitiator = false] both return a
    session, and the initiator's SendKey is the responder's RecvKey and
    the initiator's RecvKey is the responder's SendKey (also as keyed into
    the two ciphers). *)
Theorem C5_directional_split (sharedSecret salt : list byte) :
  exists i r : Session,
    DeriveSessionKeys sharedSecret true salt = Ok i
    /\ DeriveSessionKeys sharedSecret false salt = Ok r
    /\ SendKey i = RecvKey r
    /\ RecvKey i = SendKey r
    /\ sendCipher i = recvCipher r
    /\ recvCipher i = sendCipher r.
Proof.
  rewrite !DeriveSessionKeys_returns. cbn zeta.
  do 2 eexists. repeat split.
Qed.

End key_schedule.

Section sessions.
Context {aead : AEAD}.

(** The nonce Encrypt assembles: the counter on eight little-endian bytes,
    then sixteen bytes from [crypto/rand]. *)
Definition nonce_of (counter : Z) (rand : reader) : list byte :=
  LePutUint64 counter ++ take 16 rand.

Lemma len_nonce_of counter rand : 16 <= len rand -> len (nonce_of counter rand) = 24.
Proof.
  intros H. unfold nonce_of, LePutUint64. rewrite len_app, len_take by exact H.
  unfold len. rewrite length_le_put. reflexivity.
Qed.

(** Encrypt bumps the counter whatever the random source does. *)
Lemma Encrypt_counter (s : Session) (rand : reader) (plaintext : list byte) :
  SendNonce (snd (fst (Encrypt s rand plaintext))) = wrap 64 (SendNonce s + 1).
Proof.
  unfold Encrypt. destruct (ReadFull _ _) as [[random rand']| |]; reflexivity.
Qed.

(** C7. For every session state and every plaintext, Encrypt (with the
    random source delivering its sixteen bytes) returns [nonce ||
    aead_ciphertext_with_tag], where the 24-byte nonce has bytes 0-7 equal
    to the little-endian encoding of the SendNonce counter before the call
    and bytes 8-23 taken from the random source, the ciphertext being sealed
    under that nonce; and the call increments SendNonce by exactly 1 (as a
    [uint64]: [SendNonce + 1] below [2^64 - 1], and zero after [2^64 - 1]),
    touching nothing else in the session. *)
Theorem C7_encrypt_nonce (s : Session) (rand : reader) (plaintext : list byte) :
  session_typed s ->
  16 <= len rand ->
  let nonce := nonce_of (SendNonce s) rand in
  Encrypt s rand plaintext =
    (Ok (nonce ++ xseal (cipher_key (sendCipher s)) nonce plaintext []),
     set_SendNonce (wrap 64 (SendNonce s + 1)) s,
     drop 16 rand)
  /\ len nonce = 24
  /\ take 8 nonce = LePutUint64 (SendNonce s)
  /\ le_get (take 8 nonce) = SendNonce s
  /\ drop 8 nonce = take 16 rand
  /\ SendNonce (snd (fst (Encrypt s rand plaintext)))
     = (SendNonce s + 1) mod 2 ^ 64
  /\ (SendNonce s < 2 ^ 64 - 1 ->
      SendNonce (snd (fst (Encrypt s rand plaintext))) = SendNonce s + 1).
Proof.
  intros [Hs _] Hrand nonce.
  assert (Hl8 : length (LePutUint64 (SendNonce s)) = 8%nat)
    by apply length_le_put.
  assert (Hn : len nonce = 24) by now apply len_nonce_of.
  assert (Ht : take 8 nonce = LePutUint64 (SendNonce s)).
  { subst nonce. unfold nonce_of. apply take_app_length'. now rewrite Hl8. }
  assert (Hd : drop 8 nonce = take 16 rand).
  { subst nonce. unfold nonce_of. apply drop_app_length'. now rewrite Hl8. }
  assert (He : Encrypt s rand plaintext =
    (Ok (nonce ++ xseal (cipher_key (sendCipher s)) nonce plaintext []),
     set_SendNonce (wrap 64 (SendNonce s + 1)) s, drop 16 rand)).
  { unfold Encrypt.
    assert (Hbuf : go_copy (make_bytes 24) (LePutUint64 (SendNonce s))
                   = LePutUint64 (SendNonce s) ++ replicate 16 x00).
    { unfold go_copy, make_bytes. rewrite Hl8, length_replicate.
      change (Z.to_nat 24) with 24%nat.
      rewrite take_ge by lia. reflexivity. }
    rewrite Hbuf.
    rewrite (drop_app_length' _ _ 8), (take_app_length' _ _ 8) by now rewrite Hl8.
    replace (len (replicate 16 x00)) with 16
      by (unfold len; now rewrite length_replicate).
    rewrite ReadFull_Ok by exact Hrand. change (Z.to_nat 16) with 16%nat.
    rewrite go_copy_same_length
      by (rewrite length_replicate, length_take; unfold len in Hrand; lia).
    fold (nonce_of (SendNonce s) rand). fold nonce.
    unfold Seal, NonceSizeX. rewrite Hn. reflexivity. }
  repeat split; trivial.
  - rewrite Ht. unfold LePutUint64. rewrite le_get_put.
    change (256 ^ Z.of_nat 8) with (2 ^ 64). apply Z.mod_small. exact Hs.
  - apply Encrypt_counter.
  - intros Hmax. rewrite Encrypt_counter. unfold wrap. apply Z.mod_small. lia.
Qed.

(** What Decrypt does on 24 bytes or more: the two slice expressions stay
    inside the buffer and Open decides. *)
Lemma Decrypt_long (s : Session) (ciphertext : list byte) :
  24 <= len ciphertext ->
  Decrypt s ciphertext =
    match xopen (cipher_key (recvCipher s)) (take 24 ciphertext)
                (drop 24 ciphertext) [] with
    | Some plaintext =>
        (Ok plaintext, set_RecvNonce (wrap 64 (RecvNonce s + 1)) s)
    | None => (Err "chacha20poly1305: message authentication failed", s)
    end.
Proof.
  intros H. unfold Decrypt, slice_to.
  replace (len ciphertext <? 24) with false by (symmetry; apply Z.ltb_ge; lia).
  rewrite slice_Ok, slice_from_Ok by lia.
  change (Z.to_nat (24 - 0)) with 24%nat. change (Z.to_nat 0) with 0%nat.
  change (Z.to_nat 24) with 24%nat. rewrite drop_0.
  unfold Open, NonceSizeX. rewrite len_take by lia.
  cbn [Z.eqb Pos.eqb negb]. change (Z.of_nat 24 =? 24) with true. cbn [negb].
  destruct (xopen _ _ _ _); reflexivity.
Qed.

Lemma Decrypt_short (s : Session) (ciphertext : list byte) :
  len ciphertext < 24 -> Decrypt s ciphertext = (Err "ciphertext too short", s).
Proof.
  intros H. unfold Decrypt.
  now replace (len ciphertext <? 24) with true by (symmetry; apply Z.ltb_lt; lia).
Qed.

(** Decrypt never panics, and an error leaves the session as it was. *)
Lemma Decrypt_no_panic (s : Session) (ciphertext : list byte) :
  fst (Decrypt s ciphertext) <> Panic.
Proof.
  destruct (Z_lt_dec (len ciphertext) 24) as [H|H].
  - now rewrite Decrypt_short.
  - rewrite Decrypt_long by lia. now destruct (xopen _ _ _ _).
Qed.

Lemma Decrypt_Err_same (s : Session) (ciphertext : list byte) :
  is_Err (fst (Decrypt s ciphertext)) = true -> snd (Decrypt s ciphertext) = s.
Proof.
  destruct (Z_lt_dec (len ciphertext) 24) as [H|H].
  - now rewrite Decrypt_short.
  - rewrite Decrypt_long by lia.
    destruct (xopen _ _ _ _); cbn [fst snd is_Err]; [discriminate|trivial].
Qed.

(** C10. For every session state and every input shorter than 24 bytes,
    Decrypt returns an error and accesses nothing out of bounds; for every
    input the split into a 24-byte nonce and the remainder stays in bounds
    (no slice expression panics, and from 24 bytes on the two slices are
    the first 24 bytes and the rest); and on every error path the session,
    RecvNonce included, is unchanged. *)
Theorem C10_decrypt_bounds (s : Session) (ciphertext : list byte) :
  (len ciphertext < 24 ->
   Decrypt s ciphertext = (Err "ciphertext too short", s))
  /\ fst (Decrypt s ciphertext) <> Panic
  /\ (24 <= len ciphertext ->
      slice_to ciphertext 24 = Ok (take 24 ciphertext)
      /\ slice_from ciphertext 24 = Ok (drop 24 ciphertext)
      /\ len (take 24 ciphertext) = 24
      /\ take 24 ciphertext ++ drop 24 ciphertext = ciphertext)
  /\ (is_Err (fst (Decrypt s ciphertext)) = true ->
      snd (Decrypt s ciphertext) = s
      /\ RecvNonce (snd (Decrypt s ciphertext)) = RecvNonce s).
Proof.
  split; [apply Decrypt_short|].
  split; [apply Decrypt_no_panic|]. split.
  - intros H. unfold slice_to. rewrite slice_Ok, slice_from_Ok by lia.
    change (Z.to_nat (24 - 0)) with 24%nat. change (Z.to_nat 0) with 0%nat.
    change (Z.to_nat 24) with 24%nat. rewrite drop_0, take_drop.
    rewrite len_take by lia. repeat split.
  - intros H. now rewrite (Decrypt_Err_same s ciphertext H).
Qed.

End sessions.

Lemma ReadFull_short (r : reader) (n : Z) :
  len r < n -> is_Err (ReadFull r n) = true.
Proof.
  intros H. unfold ReadFull.
  replace (n <=? len r) with false by (symmetry; apply Z.leb_gt; lia).
  now destruct (len r =? 0).
Qed.

(** Clearing the low three bits, and forcing bit 7 off and bit 6 on. *)
Lemma clamp_low (b : byte) :
  byte_to_Z (byte_and b 248) = byte_to_Z b - byte_to_Z b mod 8.
Proof. destruct b; reflexivity. Qed.

Lemma clamp_high (b : byte) :
  byte_to_Z (byte_or (byte_and b 127) 64) = 64 + byte_to_Z b mod 64.
Proof. destruct b; reflexivity. Qed.

Section key_agreement.
Context {dh : X25519}.

(** X7. GenerateKeyPair fails when the random source cannot deliver 32
    bytes. Otherwise it consumes exactly 32 bytes and returns a 32-byte
    private key that is the random string clamped for X25519: byte 0 with its
    low three bits cleared, byte 31 with bit 7 cleared and bit 6 set, bytes 1
    to 30 untouched; the public key is the base-point product of this
    clamped key. *)
Theorem X7_generate_key_pair (rand : reader) :
  (len rand < 32 -> is_Err (fst (GenerateKeyPair rand)) = true)
  /\ (32 <= len rand ->
      exists kp,
        GenerateKeyPair rand = (Ok kp, drop 32 rand)
        /\ length (PrivateKey kp) = 32%nat
        /\ byte_to_Z (PrivateKey kp !!! 0%nat)
           = byte_to_Z (rand !!! 0%nat) - byte_to_Z (rand !!! 0%nat) mod 8
        /\ byte_to_Z (PrivateKey kp !!! 31%nat)
           = 64 + byte_to_Z (rand !!! 31%nat) mod 64
        /\ (forall i : nat, (0 < i < 31)%nat ->
              PrivateKey kp !!! i = rand !!! i)
        /\ PublicKey kp = ScalarBaseMult (PrivateKey kp)).
Proof.
  split.
  - intros H. unfold GenerateKeyPair. rewrite len_make_bytes by lia.
    pose proof (ReadFull_short rand 32 H) as He.
    destruct (ReadFull rand 32) as [[a b]|e|]; try discriminate. reflexivity.
  - intros H. unfold GenerateKeyPair. rewrite len_make_bytes by lia.
    rewrite ReadFull_Ok by exact H. change (Z.to_nat 32) with 32%nat.
    assert (Hl : length (take 32 rand) = 32%nat)
      by (rewrite length_take; unfold len in H; lia).
    rewrite (go_copy_same_length _ (take 32 rand))
      by (unfold make_bytes; now rewrite length_replicate, Hl).
    eexists. split; [reflexivity|]. cbn [PrivateKey PublicKey].
    split; [now rewrite !length_insert|].
    split; [|split; [|split; [|reflexivity]]].
    + rewrite !list_lookup_total_insert_ne by lia.
      rewrite list_lookup_total_insert_eq by lia.
      rewrite clamp_low, lookup_total_take by lia. reflexivity.
    + rewrite list_lookup_total_insert_eq by (rewrite !length_insert; lia).
      rewrite list_lookup_total_insert_eq by (rewrite !length_insert; lia).
      rewrite list_lookup_total_insert_ne by lia.
      rewrite clamp_high, lookup_total_take by lia. reflexivity.
    + intros i Hi. rewrite !list_lookup_total_insert_ne by lia.
      rewrite lookup_total_take. case_decide; [reflexivity|lia].
Qed.

(** ComputeSharedSecret returns an error exactly when the X25519 product
    is 32 zero bytes, and the product itself otherwise. *)
Lemma ComputeSharedSecret_returns (privateKey peerPublicKey : list byte) :
  (is_Err (ComputeSharedSecret privateKey peerPublicKey) = true
   <-> ScalarMult privateKey peerPublicKey = replicate 32 x00)
  /\ (forall secret, ComputeSharedSecret privateKey peerPublicKey = Ok secret ->
        secret = ScalarMult privateKey peerPublicKey
        /\ secret <> replicate 32 x00).
Proof.
  unfold ComputeSharedSecret. change (make_bytes 32) with (replicate 32 x00).
  case_bool_decide as E; cbn [is_Err].
  - split; [tauto|discriminate].
  - split; [split; [discriminate|contradiction]|].
    intros secret [= <-]. tauto.
Qed.

End key_agreement.

Section sessions.
Context {aead : AEAD}.

(** What Encrypt returns when the random source delivers. *)
Lemma Encrypt_returns (s : Session) (rand : reader) (plaintext : list byte) :
  16 <= len rand ->
  let nonce := nonce_of (SendNonce s) rand in
  Encrypt s rand plaintext =
    (Ok (nonce ++ xseal (cipher_key (sendCipher s)) nonce plaintext []),
     set_SendNonce (wrap 64 (SendNonce s + 1)) s,
     drop 16 rand).
Proof.
  intros Hrand nonce.
  assert (Hl8 : length (LePutUint64 (SendNonce s)) = 8%nat)
    by apply length_le_put.
  assert (Hn : len nonce = 24) by now apply len_nonce_of.
  unfold Encrypt.
  assert (Hbuf : go_copy (make_bytes 24) (LePutUint64 (SendNonce s))
                 = LePutUint64 (SendNonce s) ++ replicate 16 x00).
  { unfold go_copy, make_bytes. rewrite Hl8, length_replicate.
    change (Z.to_nat 24) with 24%nat.
    rewrite take_ge by lia. reflexivity. }
  rewrite Hbuf.
  rewrite (drop_app_length' _ _ 8), (take_app_length' _ _ 8) by now rewrite Hl8.
  replace (len (replicate 16 x00)) with 16
    by (unfold len; now rewrite length_replicate).
  rewrite ReadFull_Ok by exact Hrand. change (Z.to_nat 16) with 16%nat.
  rewrite go_copy_same_length
    by (rewrite length_replicate, length_take; unfold len in Hrand; lia).
  fold (nonce_of (SendNonce s) rand). fold nonce.
  unfold Seal, NonceSizeX. rewrite Hn. reflexivity.
Qed.

(** Encrypt returns a text only when the random source delivered. *)
Lemma Encrypt_Ok_inv (s : Session) (rand : reader) (plaintext out : list byte) :
  fst (fst (Encrypt s rand plaintext)) = Ok out ->
  16 <= len rand
  /\ out = nonce_of (SendNonce s) rand
           ++ xseal (cipher_key (sendCipher s)) (nonce_of (SendNonce s) rand)
                plaintext [].
Proof.
  intros H. destruct (Z_lt_dec (len rand) 16) as [Hs|Hl].
  - exfalso. unfold Encrypt in H.
    assert (Hbuf : len (drop 8 (go_copy (make_bytes 24)
                     (LePutUint64 (SendNonce s)))) = 16).
    { unfold go_copy, make_bytes, len, LePutUint64.
      rewrite length_drop, length_app, length_take, length_drop,
        !length_le_put, !length_replicate. reflexivity. }
    rewrite Hbuf in H. pose proof (ReadFull_short rand 16 Hs) as He.
    destruct (ReadFull rand 16) as [[a b]|e|]; discriminate.
  - split; [lia|]. rewrite Encrypt_returns in H by lia. cbn [fst] in H.
    now injection H as <-.
Qed.

Lemma nonce_of_inj (c1 c2 : Z) (rand1 rand2 : reader) :
  0 <= c1 < 2 ^ 64 -> 0 <= c2 < 2 ^ 64 ->
  nonce_of c1 rand1 = nonce_of c2 rand2 -> c1 = c2.
Proof.
  intros H1 H2 E. unfold nonce_of in E.
  apply (f_equal (take 8)) in E.
  rewrite !(take_app_length' (LePutUint64 _) _ 8) in E
    by (unfold LePutUint64; now rewrite length_le_put).
  apply (f_equal le_get) in E. unfold LePutUint64 in E.
  rewrite !le_get_put in E. change (256 ^ Z.of_nat 8) with (2 ^ 64) in E.
  now rewrite !Z.mod_small in E by assumption.
Qed.

(** X8. What one side encrypts the other decrypts. If the receiver's
    receive cipher is keyed like the sender's send cipher and the cipher
    opens what it sealed under the nonce of this call, then Decrypt on the
    receiver of what Encrypt returned on the sender gives the plaintext back
    and advances the receiver's RecvNonce by one, leaving the rest of its
    session alone. *)
Theorem X8_encrypt_then_decrypt (s r : Session) (rand : reader)
    (plaintext : list byte) :
  16 <= len rand ->
  sendCipher s = recvCipher r ->
  (let nonce := nonce_of (SendNonce s) rand in
   let key := cipher_key (sendCipher s) in
   xopen key nonce (xseal key nonce plaintext []) [] = Some plaintext) ->
  exists sealed,
    fst (fst (Encrypt s rand plaintext)) = Ok sealed
    /\ Decrypt r sealed
       = (Ok plaintext, set_RecvNonce (wrap 64 (RecvNonce r + 1)) r).
Proof.
  intros Hrand Hkey Hopen. cbv zeta in Hopen.
  rewrite Encrypt_returns by exact Hrand. cbn [fst].
  eexists. split; [reflexivity|].
  pose proof (len_nonce_of (SendNonce s) rand Hrand) as Hn.
  assert (Hn' : length (nonce_of (SendNonce s) rand) = 24%nat)
    by (unfold len in Hn; lia).
  rewrite Decrypt_long
    by (rewrite len_app, Hn; pose proof (len_nonneg
          (xseal (cipher_key (sendCipher s)) (nonce_of (SendNonce s) rand)
             plaintext [])); lia).
  rewrite (take_app_length' _ _ 24), (drop_app_length' _ _ 24) by now rewrite Hn'.
  now rewrite <- Hkey, Hopen.
Qed.

(** X9. Nonces do not repeat while the counter does not. Two calls of
    Encrypt at different values of SendNonce return texts with different
    24-byte nonces, whatever the random bytes; in particular two calls in a
    row on one session do. *)
Theorem X9_nonces_differ (s1 s2 : Session) (rand1 rand2 : reader)
    (p1 p2 out1 out2 : list byte) :
  session_typed s1 -> session_typed s2 ->
  fst (fst (Encrypt s1 rand1 p1)) = Ok out1 ->
  fst (fst (Encrypt s2 rand2 p2)) = Ok out2 ->
  (SendNonce s1 <> SendNonce s2 -> take 24 out1 <> take 24 out2)
  /\ (s2 = snd (fst (Encrypt s1 rand1 p1)) -> take 24 out1 <> take 24 out2).
Proof.
  intros [T1 _] [T2 _] E1 E2.
  apply Encrypt_Ok_inv in E1 as [R1 ->]. apply Encrypt_Ok_inv in E2 as [R2 ->].
  assert (Hd : SendNonce s1 <> SendNonce s2 ->
    take 24 (nonce_of (SendNonce s1) rand1 ++
             xseal (cipher_key (sendCipher s1)) (nonce_of (SendNonce s1) rand1) p1 [])
    <> take 24 (nonce_of (SendNonce s2) rand2 ++
             xseal (cipher_key (sendCipher s2)) (nonce_of (SendNonce s2) rand2) p2 [])).
  { intros Hne E.
    rewrite !(take_app_length' (nonce_of _ _) _ 24) in E
      by (symmetry; pose proof (len_nonce_of (SendNonce s1) rand1 R1);
          pose proof (len_nonce_of (SendNonce s2) rand2 R2); unfold len in *; lia).
    apply Hne. eapply nonce_of_inj; eassumption. }
  split; [exact Hd|].
  intros Hs. apply Hd. rewrite Hs, Encrypt_counter. unfold wrap.
  destruct (Z.eq_dec (SendNonce s1) (2 ^ 64 - 1)) as [->|Hne].
  - vm_compute. discriminate.
  - rewrite Z.mod_small by lia. lia.
Qed.

End sessions.

Section channel.
Context {kdf : KDF} {aead : AEAD}.

(** X10. A handshake under one salt gives a working channel in both
    directions. The initiator's and the responder's sessions derived from
    the same shared secret and the same salt exist, and (the cipher opening
    what it seals under the two keys at the first nonce) what either side
    encrypts first the other side decrypts to the same plaintext. *)
Theorem X10_same_salt_channel (sharedSecret salt : list byte) (rand : reader)
    (plaintext : list byte) :
  16 <= len rand ->
  (let nonce := nonce_of 0 rand in
   forall key, key = K1 sharedSecret salt \/ key = K2 sharedSecret salt ->
     xopen key nonce (xseal key nonce plaintext []) [] = Some plaintext) ->
  exists (i r : Session) (from_i from_r : list byte),
    DeriveSessionKeys sharedSecret true salt = Ok i
    /\ DeriveSessionKeys sharedSecret false salt = Ok r
    /\ fst (fst (Encrypt i rand plaintext)) = Ok from_i
    /\ fst (Decrypt r from_i) = Ok plaintext
    /\ fst (fst (Encrypt r rand plaintext)) = Ok from_r
    /\ fst (Decrypt i from_r) = Ok plaintext.
Proof.
  intros Hrand Hopen. cbv zeta in Hopen.
  rewrite !DeriveSessionKeys_returns. cbv zeta.
  pose proof (len_nonce_of 0 rand Hrand) as Hn.
  assert (Hn' : length (nonce_of 0 rand) = 24%nat) by (unfold len in Hn; lia).
  do 2 eexists.
  exists (nonce_of 0 rand ++ xseal (K1 sharedSecret salt) (nonce_of 0 rand) plaintext []).
  exists (nonce_of 0 rand ++ xseal (K2 sharedSecret salt) (nonce_of 0 rand) plaintext []).
  split; [reflexivity|]. split; [reflexivity|].
  rewrite !Encrypt_returns by exact Hrand.
  cbn [fst SendNonce sendCipher recvCipher cipher_key].
  split; [reflexivity|].
  split.
  { rewrite Decrypt_long
      by (rewrite len_app, Hn; pose proof (len_nonneg
            (xseal (K1 sharedSecret salt) (nonce_of 0 rand) plaintext [])); lia).
    rewrite (take_app_length' _ _ 24), (drop_app_length' _ _ 24) by now rewrite Hn'.
    cbn [recvCipher cipher_key]. now rewrite Hopen by tauto. }
  split; [reflexivity|].
  rewrite Decrypt_long
    by (rewrite len_app, Hn; pose proof (len_nonneg
          (xseal (K2 sharedSecret salt) (nonce_of 0 rand) plaintext [])); lia).
  rewrite (take_app_length' _ _ 24), (drop_app_length' _ _ 24) by now rewrite Hn'.
  cbn [recvCipher cipher_key]. now rewrite Hopen by tauto.
Qed.

End channel.

End crypto_facts.

(* ================================================================== *)
(** * The primitives: sizes and published test vectors                 *)
(* ================================================================== *)

Module primitives_facts.

Lemma length_Sum256 (msg : list byte) : length (sha256.Sum256 msg) = 32%nat.
Proof.
  unfold sha256.Sum256.
  destruct (fold_left _ _ _) as [[[[[[[a b] c] d] e] f] g] h].
  unfold sha256.digest. rewrite !length_app, !length_be_put. reflexivity.
Qed.

Lemma length_hmac (key msg : list byte) : length (hmac.Sum key msg) = 32%nat.
Proof. apply length_Sum256. Qed.

Lemma length_blocks prk info n i prev :
  length (hkdf.blocks prk info n i prev) = (32 * n)%nat.
Proof.
  revert i prev. induction n as [|n IH]; intros i prev; [reflexivity|].
  cbn [hkdf.blocks]. rewrite length_app, length_hmac, IH. lia.
Qed.

Lemma len_hkdf_New secret salt info : len (hkdf.New secret salt info) = 255 * 32.
Proof. unfold len, hkdf.New. rewrite length_blocks. reflexivity. Qed.

(** HKDF-SHA256 as the key derivation of the sessions. *)
Definition hkdf_sha256 : crypto.KDF :=
  {| crypto.hkdf_New := hkdf.New; crypto.hkdf_New_length := len_hkdf_New |}.

(** XChaCha20-Poly1305 as the cipher of the sessions. *)
Definition xchacha20poly1305 : crypto.AEAD :=
  {| crypto.xseal := chacha20poly1305.xseal;
     crypto.xopen := chacha20poly1305.xopen |}.

(** The first two blocks of the key stream, which are the two session
    keys. *)
Definition T1 (secret salt info : list byte) : list byte :=
  hmac.Sum (hkdf.Extract secret salt) (info ++ [x01]).
Definition T2 (secret salt info : list byte) : list byte :=
  hmac.Sum (hkdf.Extract secret salt) (T1 secret salt info ++ info ++ [x02]).

Lemma blocks_two prk info (n : nat) prev :
  hkdf.blocks prk info (S (S n)) 1 prev =
    let t1 := hmac.Sum prk (prev ++ info ++ [x01]) in
    let t2 := hmac.Sum prk (t1 ++ info ++ [x02]) in
    t1 ++ t2 ++ hkdf.blocks prk info n 3 t2.
Proof. reflexivity. Qed.

Lemma hkdf_New_blocks secret salt info :
  hkdf.New secret salt info =
    T1 secret salt info ++ T2 secret salt info
      ++ hkdf.blocks (hkdf.Extract secret salt) info 253 3 (T2 secret salt info).
Proof. unfold hkdf.New. exact (blocks_two _ _ 253 []). Qed.

Lemma K1_hkdf_sha256 secret salt :
  crypto_facts.K1 (kdf := hkdf_sha256) secret salt
  = T1 secret salt crypto.session_keys_info.
Proof.
  unfold crypto_facts.K1. cbn [crypto.hkdf_New hkdf_sha256].
  rewrite hkdf_New_blocks. apply take_app_length'. unfold T1.
  now rewrite length_hmac.
Qed.

Lemma K2_hkdf_sha256 secret salt :
  crypto_facts.K2 (kdf := hkdf_sha256) secret salt
  = T2 secret salt crypto.session_keys_info.
Proof.
  unfold crypto_facts.K2. cbn [crypto.hkdf_New hkdf_sha256].
  rewrite hkdf_New_blocks, drop_app_length' by (unfold T1; now rewrite length_hmac).
  apply take_app_length'. unfold T2. now rewrite length_hmac.
Qed.

(** The constants of FIPS 180-4: the first and last round constants and
    the first word of the initial chaining value. *)
Example sha256_constants :
  sha256.K !! 0%nat = Some 0x428a2f98
  /\ sha256.K !! 63%nat = Some 0xc67178f2
  /\ length sha256.K = 64%nat
  /\ fst (fst (fst (fst (fst (fst (fst sha256.H0)))))) = 0x6a09e667.
Proof. vm_compute. repeat split. Qed.

(** FIPS 180-4, SHA-256 of "abc". *)
Example sha256_abc :
  sha256.Sum256 (list_byte_of_string "abc") =
  bytes_of [0xba; 0x78; 0x16; 0xbf; 0x8f; 0x01; 0xcf; 0xea;
            0x41; 0x41; 0x40; 0xde; 0x5d; 0xae; 0x22; 0x23;
            0xb0; 0x03; 0x61; 0xa3; 0x96; 0x17; 0x7a; 0x9c;
            0xb4; 0x10; 0xff; 0x61; 0xf2; 0x00; 0x15; 0xad].
Proof. vm_compute. reflexivity. Qed.

(** RFC 5869, test case 1: the first 42 bytes of the key stream. *)
Example hkdf_rfc5869_case1 :
  let ikm := replicate 22 x0b in
  let salt := bytes_of (seqZ 0 13) in
  let info := bytes_of (seqZ 0xf0 10) in
  take 42 (T1 ikm salt info ++ T2 ikm salt info) =
  bytes_of [0x3c; 0xb2; 0x5f; 0x25; 0xfa; 0xac; 0xd5; 0x7a; 0x90; 0x43;
            0x4f; 0x64; 0xd0; 0x36; 0x2f; 0x2a; 0x2d; 0x2d; 0x0a; 0x90;
            0xcf; 0x1a; 0x5a; 0x4c; 0x5d; 0xb0; 0x2d; 0x56; 0xec; 0xc4;
            0xc5; 0xbf; 0x34; 0x00; 0x72; 0x08; 0xd5; 0xb8; 0x87; 0x18;
            0x58; 0x65].
Proof. vm_compute. reflexivity. Qed.

(** RFC 8439, section 2.5.2: Poly1305. *)
Example poly1305_rfc8439 :
  poly1305.mac
    (bytes_of [0x85; 0xd6; 0xbe; 0x78; 0x57; 0x55; 0x6d; 0x33;
               0x7f; 0x44; 0x52; 0xfe; 0x42; 0xd5; 0x06; 0xa8;
               0x01; 0x03; 0x80; 0x8a; 0xfb; 0x0d; 0xb2; 0xfd;
               0x4a; 0xbf; 0xf6; 0xaf; 0x41; 0x49; 0xf5; 0x1b])
    (list_byte_of_string "Cryptographic Forum Research Group") =
  bytes_of [0xa8; 0x06; 0x1d; 0xc1; 0x30; 0x51; 0x36; 0xc6;
            0xc2; 0x2b; 0x8b; 0xaf; 0x0c; 0x01; 0x27; 0xa9].
Proof. vm_compute. reflexivity. Qed.

(** The XChaCha20 construction, HChaCha20 test vector. *)
Example hchacha20_vector :
  chacha20.hchacha20 (bytes_of (seqZ 0 32))
    (bytes_of [0; 0; 0; 9; 0; 0; 0; 0x4a; 0; 0; 0; 0; 0x31; 0x41; 0x59; 0x27]) =
  bytes_of [0x82; 0x41; 0x3b; 0x42; 0x27; 0xb2; 0x7b; 0xfe;
            0xd3; 0x0e; 0x42; 0x50; 0x8a; 0x87; 0x7d; 0x73;
            0xa0; 0xf9; 0xe4; 0xd5; 0x8a; 0x74; 0xa8; 0x53;
            0xc1; 0x2e; 0xc4; 0x13; 0x26; 0xd3; 0xec; 0xdc].
Proof. vm_compute. reflexivity. Qed.

(** The XChaCha20-Poly1305 test vector: the tag of the sealed text, and
    opening gives the plaintext back. *)
Example xchacha20poly1305_vector :
  let key := bytes_of (seqZ 0x80 32) in
  let nonce := bytes_of (seqZ 0x40 24) in
  let ad := bytes_of [0x50; 0x51; 0x52; 0x53; 0xc0; 0xc1; 0xc2; 0xc3;
                      0xc4; 0xc5; 0xc6; 0xc7] in
  let plaintext := list_byte_of_string
    "Ladies and Gentlemen of the class of '99: If I could offer you only one tip for the future, sunscreen would be it." in
  let sealed := chacha20poly1305.xseal key nonce plaintext ad in
  take 8 sealed = bytes_of [0xbd; 0x6d; 0x17; 0x9d; 0x3e; 0x83; 0xd4; 0x3b]
  /\ drop 114 sealed =
     bytes_of [0xc0; 0x87; 0x59; 0x24; 0xc1; 0xc7; 0x98; 0x79;
               0x47; 0xde; 0xaf; 0xd8; 0x78; 0x0a; 0xcf; 0x49]
  /\ chacha20poly1305.xopen key nonce sealed ad = Some plaintext.
Proof. vm_compute. repeat split. Qed.

(** Folding the bits above 255 back in does not change the residue. *)
Lemma fold255_mod (x : Z) :
  0 <= x -> curve25519.fold255 x mod curve25519.p = x mod curve25519.p.
Proof.
  intros Hx. unfold curve25519.fold255.
  rewrite Z.land_ones, Z.shiftr_div_pow2 by lia.
  set (P := 2 ^ 255).
  assert (HP : curve25519.p = P - 19) by reflexivity.
  assert (HP0 : 0 < P) by (subst P; lia).
  rewrite (Z.div_mod x P) at 3 by lia.
  rewrite HP.
  replace (P * (x / P) + x mod P)
    with (x mod P + 19 * (x / P) + (x / P) * (P - 19)) by lia.
  now rewrite Z.mod_add by lia.
Qed.

Lemma fold255_bound (x b : Z) :
  0 <= x < 2 ^ 255 * b -> 0 <= curve25519.fold255 x < 2 ^ 255 + 19 * b.
Proof.
  intros Hx. unfold curve25519.fold255.
  rewrite Z.land_ones, Z.shiftr_div_pow2 by lia.
  set (P := 2 ^ 255) in *.
  assert (HP0 : 0 < P) by (subst P; lia).
  pose proof (Z.mod_pos_bound x P HP0).
  assert (0 <= x / P) by (apply Z.div_pos; lia).
  assert (x / P < b) by (apply Z.div_lt_upper_bound; lia).
  lia.
Qed.

(** [reduce] is the remainder modulo [2^255 - 19] below [2^512]. *)
Lemma reduce_mod (x : Z) :
  0 <= x < 2 ^ 512 -> curve25519.reduce x = x mod curve25519.p.
Proof.
  intros Hx. unfold curve25519.reduce. cbv zeta.
  assert (H1 : 0 <= curve25519.fold255 x < 2 ^ 255 + 19 * 2 ^ 257).
  { apply fold255_bound. replace (2 ^ 255 * 2 ^ 257) with (2 ^ 512) by reflexivity.
    exact Hx. }
  assert (H2 : 0 <= curve25519.fold255 (curve25519.fold255 x) < 2 ^ 255 + 19 * 77).
  { apply fold255_bound. split; [lia|].
    eapply Z.lt_le_trans; [apply H1|]. vm_compute. discriminate. }
  rewrite <- (fold255_mod x), <- (fold255_mod (curve25519.fold255 x)) by lia.
  set (z := curve25519.fold255 (curve25519.fold255 x)) in *.
  assert (HP : curve25519.p = 2 ^ 255 - 19) by reflexivity.
  destruct (curve25519.p <=? z) eqn:E.
  - apply Z.leb_le in E. apply Z.mod_unique with 1; lia.
  - apply Z.leb_gt in E. symmetry. apply Z.mod_small. lia.
Qed.

(** X25519 as the key agreement of the handshake. *)
Definition x25519 : crypto.X25519 :=
  {| crypto.ScalarMult := curve25519.X25519;
     crypto.ScalarBaseMult := fun k => curve25519.X25519 k curve25519.Basepoint |}.

(** RFC 7748, section 5.2, first test vector. *)
Example x25519_vector :
  curve25519.X25519
    (bytes_of [0xa5; 0x46; 0xe3; 0x6b; 0xf0; 0x52; 0x7c; 0x9d;
               0x3b; 0x16; 0x15; 0x4b; 0x82; 0x46; 0x5e; 0xdd;
               0x62; 0x14; 0x4c; 0x0a; 0xc1; 0xfc; 0x5a; 0x18;
               0x50; 0x6a; 0x22; 0x44; 0xba; 0x44; 0x9a; 0xc4])
    (bytes_of [0xe6; 0xdb; 0x68; 0x67; 0x58; 0x30; 0x30; 0xdb;
               0x35; 0x94; 0xc1; 0xa4; 0x24; 0xb1; 0x5f; 0x7c;
               0x72; 0x66; 0x24; 0xec; 0x26; 0xb3; 0x35; 0x3b;
               0x10; 0xa9; 0x03; 0xa6; 0xd0; 0xab; 0x1c; 0x4c]) =
  bytes_of [0xc3; 0xda; 0x55; 0x37; 0x9d; 0xe9; 0xc6; 0x90;
            0x8e; 0x94; 0xea; 0x4d; 0xf2; 0x8d; 0x08; 0x4f;
            0x32; 0xec; 0xcf; 0x03; 0x49; 0x1c; 0x71; 0xf7;
            0x54; 0xb4; 0x07; 0x55; 0x77; 0xa2; 0x85; 0x52].
Proof. vm_compute. reflexivity. Qed.

End primitives_facts.

(* ================================================================== *)
(** * The obfuscated transport                                         *)
(* ================================================================== *)

Module transport_facts.
Import transport.

(** The key used in the runs below: bytes 0, 1, ..., 31. *)
Definition key32 : list byte := bytes_of (seqZ 0 32).

(** C3, evaluated. Two connections start with the same 32-byte key at key
    position 0. The first Write of the one-byte message [00] puts five
    bytes on the stream; the peer's Read recovers the length 1 but returns
    the byte [04], not [00]: the writer XORed the body with the key from
    position 4 on, the reader XORs it back from position 0 on. After this
    exchange the writer stands at key position 5 and the reader at 1, and
    the Read of the second message fails on the length prefix. *)
Theorem C3_write_then_read :
  let w := new_connection key32 in
  let r := new_connection key32 in
  let '(n1, w, stream1) := Write w None [x00] in
  let '(got1, r, left1) := Read r stream1 4096 in
  let '(n2, w', stream2) := Write w None [x00] in
  let '(got2, r', left2) := Read r stream2 4096 in
  n1 = Ok 1
  /\ stream1 = [x00; x01; x02; x02; x04]
  /\ got1 = Ok [x04]
  /\ left1 = []
  /\ keyPos w = 5
  /\ keyPos r = 1
  /\ n2 = Ok 1
  /\ got2 = Err "invalid packet length".
Proof. vm_compute. repeat split. Qed.

(** What obfuscate leaves in [data], as a function. *)
Fixpoint xor_run (k : list byte) (pos : Z) (data : list byte) : list byte :=
  match data with
  | [] => []
  | d :: data =>
      byte_xor d (k !!! Z.to_nat pos) :: xor_run k ((pos + 1) mod len k) data
  end.

Lemma obfuscate_Ok (k data : list byte) (pos : Z) :
  0 <= pos < len k ->
  obfuscate data k pos = Ok (xor_run k pos data, (pos + len data) mod len k).
Proof.
  revert pos. induction data as [|d data IH]; intros pos Hpos.
  - cbn. rewrite Z.add_0_r, Z.mod_small by lia. reflexivity.
  - cbn [obfuscate xor_run]. rewrite index_Ok by exact Hpos.
    cbn [mbind outcome_bind]. rewrite Z.rem_mod_nonneg by lia.
    rewrite IH by (apply Z.mod_pos_bound; lia).
    cbn [mbind outcome_bind]. do 2 f_equal.
    unfold len. cbn [length]. rewrite Zplus_mod_idemp_l. f_equal. lia.
Qed.

Lemma length_xor_run k pos data : length (xor_run k pos data) = length data.
Proof.
  revert pos. induction data as [|d data IH]; intros pos; cbn; [|rewrite IH]; reflexivity.
Qed.

Lemma xor_run_app k pos a b :
  0 <= pos < len k ->
  xor_run k pos (a ++ b) = xor_run k pos a ++ xor_run k ((pos + len a) mod len k) b.
Proof.
  revert pos. induction a as [|x a IH]; intros pos Hpos.
  - cbn [app xor_run]. change (len []) with 0.
    rewrite Z.add_0_r, Z.mod_small by lia. reflexivity.
  - cbn [app xor_run]. rewrite IH by (apply Z.mod_pos_bound; lia).
    do 3 f_equal. unfold len. cbn [length].
    rewrite Zplus_mod_idemp_l. f_equal. lia.
Qed.

Lemma xor_run_involutive k pos data : xor_run k pos (xor_run k pos data) = data.
Proof.
  revert pos. induction data as [|d data IH]; intros pos; [reflexivity|].
  cbn [xor_run]. now rewrite byte_xor_involutive, IH.
Qed.

Lemma len_xor_run k pos data : len (xor_run k pos data) = len data.
Proof. unfold len. now rewrite length_xor_run. Qed.

(** What Write hands to the stream, and where it leaves the cursor. *)
Lemma Write_Ok (c : ObfuscatedConnection) (b : list byte) :
  0 <= keyPos c < len (key c) ->
  Write c None b =
    (Ok (len b),
     set_keyPos ((keyPos c + (4 + len b)) mod len (key c)) c,
     xor_run (key c) (keyPos c) (PutUint32 (wrap 32 (len b)))
       ++ xor_run (key c) ((keyPos c + 4) mod len (key c)) b).
Proof.
  intros Hpos. unfold Write. rewrite go_copy_exact.
  rewrite obfuscate_Ok by exact Hpos.
  rewrite xor_run_app by exact Hpos.
  rewrite len_app.
  replace (len (PutUint32 (wrap 32 (len b)))) with 4
    by (unfold len, PutUint32; now rewrite length_be_put).
  reflexivity.
Qed.

(** The first Read on the peer, standing at the same key position: the
    length prefix is read back, the body is XORed back from the wrong
    position, and the cursor moves by the body only. *)
Lemma Read_after_Write (k : list byte) (pos : Z) (b : list byte) (blen : Z) :
  0 <= pos < len k ->
  len b <= 65535 ->
  len b <= blen ->
  let w := {| key := k; keyPos := pos |} in
  let r := {| key := k; keyPos := pos |} in
  Read r (snd (Write w None b)) blen =
    (Ok (xor_run k pos (xor_run k ((pos + 4) mod len k) b)),
     set_keyPos ((pos + len b) mod len k) r,
     [])
  /\ keyPos (snd (fst (Write w None b))) = (pos + (4 + len b)) mod len k.
Proof.
  intros Hpos Hb Hblen w r. subst w r.
  rewrite Write_Ok by exact Hpos. cbn [snd fst key keyPos set_keyPos].
  split; [|reflexivity].
  set (pre := xor_run k pos (PutUint32 (wrap 32 (len b)))).
  set (body := xor_run k ((pos + 4) mod len k) b).
  assert (Hpre : length pre = 4%nat)
    by (subst pre; rewrite length_xor_run; apply length_be_put).
  assert (Hbody : len body = len b) by (subst body; apply len_xor_run).
  unfold Read. cbn [key keyPos].
  rewrite len_make_bytes by lia.
  rewrite ReadFull_Ok by (unfold len; rewrite length_app, Hpre; lia).
  change (Z.to_nat 4) with 4%nat.
  rewrite (take_app_length' _ _ 4), (drop_app_length' _ _ 4) by now rewrite Hpre.
  rewrite obfuscate_Ok by exact Hpos.
  subst pre. rewrite xor_run_involutive.
  unfold Uint32, PutUint32. rewrite take_ge by (rewrite length_be_put; lia).
  rewrite be_get_put. change (256 ^ Z.of_nat 4) with (2 ^ 32).
  unfold wrap. rewrite Z.mod_mod by lia.
  pose proof (len_nonneg b) as Hnn.
  rewrite Z.mod_small by lia.
  replace (65535 <? len b) with false by (symmetry; apply Z.ltb_ge; lia).
  rewrite len_make_bytes by lia.
  rewrite ReadFull_Ok by lia.
  rewrite take_ge, drop_ge by (unfold len in *; lia).
  rewrite obfuscate_Ok by exact Hpos.
  rewrite take_ge by (rewrite length_xor_run; unfold len in *; lia).
  rewrite Hbody. reflexivity.
Qed.

(** On a fresh pair of connections a one-byte message arrives as another
    byte whenever the key differs at positions 0 and 4. *)
Lemma one_byte_garbled (k : list byte) (x : byte) :
  4 < len k ->
  k !!! 0%nat <> k !!! 4%nat ->
  let w := new_connection k in
  let r := new_connection k in
  exists y, fst (fst (Read r (snd (Write w None [x])) 4096)) = Ok [y] /\ y <> x.
Proof.
  intros Hk Hne w r. subst w r. unfold new_connection.
  destruct (Read_after_Write k 0 [x] 4096) as [H _];
    [lia | unfold len; cbn; lia | unfold len; cbn; lia |].
  rewrite H. cbn [fst]. rewrite Z.add_0_l, Z.mod_small by lia.
  cbn [xor_run]. change (Z.to_nat 4) with 4%nat. change (Z.to_nat 0) with 0%nat.
  eexists. split; [reflexivity|].
  intros Heq. apply Hne.
  apply (f_equal (fun v => byte_xor v (k !!! 0%nat))) in Heq.
  rewrite byte_xor_involutive in Heq.
  apply (f_equal byte_to_Z) in Heq. apply byte_to_Z_inj.
  unfold byte_xor in Heq. rewrite !byte_to_of_Z in Heq.
  pose proof (byte_to_Z_range x). pose proof (byte_to_Z_range (k !!! 0%nat)).
  pose proof (byte_to_Z_range (k !!! 4%nat)).
  rewrite !Z.mod_small in Heq by (apply lxor_byte_range; lia).
  apply (f_equal (Z.lxor (byte_to_Z x))) in Heq.
  rewrite <- !Z.lxor_assoc, Z.lxor_nilpotent, !Z.lxor_0_l in Heq.
  congruence.
Qed.


(** X11. obfuscate is its own inverse. With a non-empty key and the key
    position inside it, obfuscate never panics, keeps the length of the
    data, leaves the position at [(pos + len data) mod len key] (inside the
    key again), and applying it a second time from the same starting
    position gives the data back. With an empty key it panics on any
    non-empty data. *)
Theorem X11_obfuscate_involution (k data : list byte) (pos : Z) :
  (0 <= pos < len k ->
   exists out pos',
     obfuscate data k pos = Ok (out, pos')
     /\ length out = length data
     /\ pos' = (pos + len data) mod len k
     /\ 0 <= pos' < len k
     /\ obfuscate out k pos = Ok (data, pos'))
  /\ (k = [] -> data <> [] -> obfuscate data k pos = Panic).
Proof.
  split.
  - intros Hpos. rewrite obfuscate_Ok by exact Hpos. do 2 eexists.
    split; [reflexivity|]. split; [apply length_xor_run|].
    split; [reflexivity|]. split; [apply Z.mod_pos_bound; lia|].
    rewrite obfuscate_Ok by exact Hpos.
    now rewrite xor_run_involutive, len_xor_run.
  - intros -> Hd. destruct data as [|d data]; [contradiction|].
    cbn [obfuscate]. unfold index. change (len []) with 0.
    destruct (0 <=? pos) eqn:E1; destruct (pos <? 0) eqn:E2; reflexivity.
Qed.


Lemma obfuscate_length (data k : list byte) (pos : Z) (out : list byte) (pos' : Z) :
  obfuscate data k pos = Ok (out, pos') -> length out = length data.
Proof.
  revert pos out pos'. induction data as [|d data IH]; intros pos out pos' H.
  - cbn in H. now injection H as <- <-.
  - cbn [obfuscate] in H. destruct (index k pos) as [b| |]; try discriminate.
    cbn [mbind outcome_bind] in H.
    destruct (obfuscate data k _) as [[o q]| |] eqn:E; try discriminate.
    cbn [mbind outcome_bind] in H. injection H as <- <-.
    cbn [length]. f_equal. eapply IH. exact E.
Qed.

Lemma ReadFull_Ok_inv (r : reader) (n : Z) (got rest : list byte) :
  0 <= n -> ReadFull r n = Ok (got, rest) ->
  len got = n /\ r = got ++ rest.
Proof.
  intros Hn H. unfold ReadFull in H. destruct (n <=? len r) eqn:E.
  - apply Z.leb_le in E. injection H as <- <-.
    split; [rewrite len_take; lia | now rewrite take_drop].
  - destruct (len r =? 0); discriminate.
Qed.

(** X13. Read never returns more than it may and never moves on an error.
    Whatever arrives, a message returned by Read has at most 65535 bytes and
    at most as many as the buffer holds, and it was read under the same key;
    and when Read returns an error (stream ended, length above 65535), the
    connection is left exactly as it was, key position included. *)
Theorem X13_read_bounds (c : ObfuscatedConnection) (conn : reader) (blen : Z) :
  0 <= blen ->
  (forall got c' rest,
      Read c conn blen = (Ok got, c', rest) ->
      len got <= blen /\ len got <= 65535 /\ key c' = key c)
  /\ (is_Err (fst (fst (Read c conn blen))) = true ->
      snd (fst (Read c conn blen)) = c).
Proof.
  intros Hblen. unfold Read. rewrite len_make_bytes by lia.
  destruct (ReadFull conn 4) as [[lenBuf conn1]|e|] eqn:E1;
    [|split; [discriminate|reflexivity]|split; discriminate].
  destruct (obfuscate lenBuf (key c) (keyPos c)) as [[lenBuf' p1]|e|] eqn:E2;
    [|split; [discriminate|reflexivity]|split; discriminate].
  destruct (65535 <? Uint32 lenBuf') eqn:E3;
    [split; [discriminate|reflexivity]|].
  apply Z.ltb_ge in E3.
  assert (Hn : 0 <= Uint32 lenBuf') by (unfold Uint32; apply be_get_range).
  rewrite len_make_bytes by lia.
  destruct (ReadFull conn1 (Uint32 lenBuf')) as [[data conn2]|e|] eqn:E4;
    [|split; [discriminate|reflexivity]|split; discriminate].
  destruct (obfuscate data (key c) (keyPos c)) as [[data' p2]|e|] eqn:E5;
    [|split; [discriminate|reflexivity]|split; discriminate].
  split; [|discriminate].
  intros got c' rest [= <- <- <-].
  apply ReadFull_Ok_inv in E4 as [E4 _]; [|exact Hn].
  apply obfuscate_length in E5.
  unfold len in *. rewrite length_take, E5. cbn [key set_keyPos].
  split; [lia|split; [lia|reflexivity]].
Qed.

(** X14. A message Write accepts can be one Read refuses. For every message
    of more than 65535 bytes (and less than 2^32), Write succeeds, reports
    the whole length and puts [4 + len] bytes on the stream, but the peer's
    Read of this stream returns the invalid-length error, leaving the
    reader where it was while the writer has moved on. *)
Theorem X14_oversize_write (k : list byte) (pos : Z) (b : list byte) (blen : Z) :
  0 <= pos < len k ->
  65535 < len b < 2 ^ 32 ->
  let w := {| key := k; keyPos := pos |} in
  let r := {| key := k; keyPos := pos |} in
  fst (fst (Write w None b)) = Ok (len b)
  /\ len (snd (Write w None b)) = 4 + len b
  /\ keyPos (snd (fst (Write w None b))) = (pos + (4 + len b)) mod len k
  /\ is_Err (fst (fst (Read r (snd (Write w None b)) blen))) = true
  /\ snd (fst (Read r (snd (Write w None b)) blen)) = r.
Proof.
  intros Hpos Hb w r. subst w r.
  rewrite Write_Ok by exact Hpos. cbn [fst snd key keyPos set_keyPos].
  set (pre := xor_run k pos (PutUint32 (wrap 32 (len b)))).
  set (body := xor_run k ((pos + 4) mod len k) b).
  assert (Hpre : length pre = 4%nat)
    by (subst pre; rewrite length_xor_run; apply length_be_put).
  split; [reflexivity|]. split.
  { rewrite len_app. subst body. rewrite len_xor_run. unfold len at 1.
    rewrite Hpre. reflexivity. }
  split; [reflexivity|].
  unfold Read. cbn [key keyPos]. rewrite len_make_bytes by lia.
  rewrite ReadFull_Ok by (unfold len; rewrite length_app, Hpre; lia).
  change (Z.to_nat 4) with 4%nat.
  rewrite (take_app_length' _ _ 4), (drop_app_length' _ _ 4) by now rewrite Hpre.
  rewrite obfuscate_Ok by exact Hpos.
  subst pre. rewrite xor_run_involutive.
  unfold Uint32, PutUint32. rewrite take_ge by (rewrite length_be_put; lia).
  rewrite be_get_put. change (256 ^ Z.of_nat 4) with (2 ^ 32).
  unfold wrap. rewrite Z.mod_mod by lia. rewrite Z.mod_small by lia.
  replace (65535 <? len b) with true by (symmetry; apply Z.ltb_lt; lia).
  split; reflexivity.
Qed.

(** The bytes a Read handed to its caller (none on an error). *)
Definition delivered (r : outcome (list byte)) : list byte :=
  match r with Ok b => b | _ => [] end.

Lemma WebSocketRead_stream (c : WebSocketConnection) (conn : list (list byte))
    (blen : Z) :
  0 <= blen ->
  let '(r, c', conn') := WebSocketRead c conn blen in
  delivered r ++ readBuf c' ++ concat conn' = readBuf c ++ concat conn
  /\ len (delivered r) <= blen.
Proof.
  intros Hb. unfold WebSocketRead.
  destruct (0 <? len (readBuf c)) eqn:E.
  - cbn [delivered readBuf]. split.
    + now rewrite app_assoc, take_drop.
    + apply Z.ltb_lt in E. rewrite len_take; lia.
  - apply Z.ltb_ge in E.
    assert (Hnil : readBuf c = []).
    { destruct (readBuf c); [reflexivity|]. unfold len in E. cbn in E. lia. }
    destruct conn as [|data conn].
    + cbn [delivered]. split; [now rewrite Hnil|unfold len; cbn; lia].
    + cbn [delivered concat]. split.
      * destruct (Z.min blen (len data) <? len data) eqn:E2.
        -- cbn [readBuf]. now rewrite Hnil, !app_assoc, take_drop.
        -- apply Z.ltb_ge in E2. rewrite Hnil. cbn [app].
           rewrite take_ge by (unfold len in *; lia). reflexivity.
      * pose proof (len_nonneg data). rewrite len_take; lia.
Qed.

(** X15. The WebSocket connection turns the messages into one byte stream.
    Over any number of Reads with buffers of any size [blen >= 0], the bytes
    handed to the caller, followed by what the connection still buffers and
    by the messages not yet received, are exactly the bytes that were
    buffered and pending at the start: nothing is lost, repeated or
    reordered, whatever the message boundaries; and no Read returns more
    than [blen] bytes. *)
Theorem X15_websocket_stream (k : nat) (c : WebSocketConnection)
    (conn : list (list byte)) (blen : Z) :
  0 <= blen ->
  let '(rs, c', conn') := WebSocketReads k c conn blen in
  concat (map delivered rs) ++ readBuf c' ++ concat conn'
    = readBuf c ++ concat conn
  /\ Forall (fun r => len (delivered r) <= blen) rs.
Proof.
  intros Hb. revert c conn. induction k as [|k IH]; intros c conn.
  - cbn. split; [reflexivity|constructor].
  - cbn [WebSocketReads].
    pose proof (WebSocketRead_stream c conn blen Hb) as H1.
    destruct (WebSocketRead c conn blen) as [[r c1] conn1].
    specialize (IH c1 conn1).
    destruct (WebSocketReads k c1 conn1 blen) as [[rs c2] conn2].
    destruct H1 as [H1 H1'], IH as [IH IH'].
    split; [|now constructor].
    cbn [map concat]. rewrite <- app_assoc, IH. exact H1.
Qed.

(** X16. A Read with a buffer of at least one byte makes progress. When
    bytes are buffered, or the next message is not empty, Read returns at
    least one byte and no error; when nothing is buffered and no message
    is left, it returns the error of the connection and changes nothing. *)
Theorem X16_websocket_progress (c : WebSocketConnection)
    (conn : list (list byte)) (blen : Z) :
  1 <= blen ->
  (readBuf c <> [] \/ (exists data rest, conn = data :: rest /\ data <> []) ->
   exists got, fst (fst (WebSocketRead c conn blen)) = Ok got /\ 1 <= len got)
  /\ (readBuf c = [] -> conn = [] ->
      is_Err (fst (fst (WebSocketRead c conn blen))) = true
      /\ snd (fst (WebSocketRead c conn blen)) = c).
Proof.
  intros Hb. unfold WebSocketRead. split.
  - intros [Hc | (data & rest & -> & Hd)].
    + assert (0 < len (readBuf c))
        by (destruct (readBuf c); [contradiction|unfold len; cbn; lia]).
      replace (0 <? len (readBuf c)) with true by (symmetry; apply Z.ltb_lt; lia).
      eexists. split; [reflexivity|]. rewrite len_take; lia.
    + assert (0 < len data)
        by (destruct data; [contradiction|unfold len; cbn; lia]).
      destruct (0 <? len (readBuf c)) eqn:E.
      * apply Z.ltb_lt in E. eexists. split; [reflexivity|].
        rewrite len_take; lia.
      * eexists. split; [reflexivity|]. rewrite len_take; lia.
  - intros -> ->. cbn. split; reflexivity.
Qed.

(** X28. Transport names. parseTransport always returns one of the three
    transport types, an unknown name giving WebSocket rather than an error;
    and the name String gives for a transport type parses back to that
    type exactly when the type is one of the three. *)
Theorem X28_transport_names (t : Z) (name : string) :
  (main.parseTransport (TransportType_String t) = t
   <-> t = TransportQUIC \/ t = TransportWebSocket \/ t = TransportObfuscated)
  /\ (main.parseTransport name = TransportQUIC
      \/ main.parseTransport name = TransportWebSocket
      \/ main.parseTransport name = TransportObfuscated)
  /\ (TransportType_String (main.parseTransport name) = name
      <-> (name = "quic" \/ name = "websocket" \/ name = "obfuscated")%string).
Proof.
  split; [|split].
  - unfold TransportType_String, TransportQUIC, TransportWebSocket,
      TransportObfuscated.
    destruct (t =? 0) eqn:E0; [apply Z.eqb_eq in E0; subst; now split; auto|].
    destruct (t =? 1) eqn:E1; [apply Z.eqb_eq in E1; subst; now split; auto|].
    destruct (t =? 2) eqn:E2; [apply Z.eqb_eq in E2; subst; now split; auto|].
    apply Z.eqb_neq in E0, E1, E2.
    change (main.parseTransport "unknown") with 1. split; lia.
  - unfold main.parseTransport.
    repeat (case_bool_decide; cbn [orb]); auto.
  - unfold main.parseTransport.
    case_bool_decide as H1;
      [subst; split; intros _; [now left|reflexivity]|].
    case_bool_decide as H2; cbn [orb];
      [subst; split; intros _; [now right; left|reflexivity]|].
    case_bool_decide as H3; cbn [orb];
      [subst; split; [discriminate|intros [H|[H|H]]; discriminate]|].
    case_bool_decide as H4; cbn [orb];
      [subst; split; intros _; [now right; right|reflexivity]|].
    change (TransportType_String
              (if false || bool_decide (name = "obfs"%string)
               then TransportObfuscated else TransportWebSocket))
      with (if bool_decide (name = "obfs"%string)
            then "obfuscated"%string else "websocket"%string).
    case_bool_decide as H5;
      [subst; split; [discriminate|intros [H|[H|H]]; discriminate]|].
    split; [intros H; now symmetry in H|intros [H|[H|H]]; contradiction].
Qed.

End transport_facts.

(* ================================================================== *)
(** * The server: IP pool and data loop                                *)
(* ================================================================== *)

Module server_facts.
Import server.

(** A failed Allocate leaves the pool as it was. *)
Lemma Allocate_loop_Err (p : IPPool) (maxHosts i : Z) (todo : nat) (e : string) :
  fst (Allocate_loop p maxHosts i todo) = Err e ->
  snd (Allocate_loop p maxHosts i todo) = p.
Proof.
  revert i. induction todo as [|todo IH]; intros i; cbn [Allocate_loop].
  - reflexivity.
  - destruct (wrap 32 (maxHosts - 1) =? 0); [discriminate|].
    destruct (negb _); [discriminate|]. apply IH.
Qed.

Lemma Allocate_Err (p : IPPool) (e : string) :
  fst (Allocate p) = Err e -> snd (Allocate p) = p.
Proof. apply Allocate_loop_Err. Qed.

(** Once Allocate fails it fails for good: further Allocate calls alone
    never change the pool. *)
Lemma Allocate_stuck (p : IPPool) (e : string) (n : nat) :
  fst (Allocate p) = Err e ->
  pool_run p (replicate n CallAllocate) = p
  /\ Forall (fun r => r = Err e) (fst (Allocate_many n p)).
Proof.
  intros H. pose proof (Allocate_Err p e H) as Hp.
  induction n as [|n [IH1 IH2]]; [split; [reflexivity|constructor]|].
  cbn [replicate pool_run fold_left pool_step Allocate_many].
  split.
  - rewrite Hp. exact IH1.
  - destruct (Allocate p) as [r p'] eqn:E. cbn [fst snd] in *. subst p' r.
    destruct (Allocate_many n p) as [rs q] eqn:E'. cbn [fst] in *.
    constructor; [reflexivity|exact IH2].
Qed.

(** A pool over 10.8.0.0/24. *)
Definition slash24 (p : IPPool) : Prop :=
  baseIP p = subnet_base /\ ones p = 24 /\ bits p = 32.

(** Host [h] is handed out. *)
Definition host_used (p : IPPool) (h : Z) : Prop :=
  used p !! (subnet_base + h) = Some true.

(** The scan of Allocate never looks at host [nextHost - 1] once the
    cursor has passed host 3: if every other host is handed out, Allocate
    reports exhaustion whether or not that host is free. *)
Lemma Allocate_loop_skips (p : IPPool) (i : Z) (todo : nat) :
  slash24 p ->
  4 <= nextHost p <= 255 ->
  (forall h, 2 <= h <= 254 -> h <> nextHost p - 1 -> host_used p h) ->
  0 <= i -> i + Z.of_nat todo = 254 ->
  Allocate_loop p 256 i todo = (Err "IP pool exhausted", p).
Proof.
  intros (Hb & _ & _) Hnh Hused. revert i.
  induction todo as [|todo IH]; intros i Hi Hsum; [reflexivity|].
  cbn [Allocate_loop]. change (wrap 32 (256 - 1)) with 255.
  change (255 =? 0) with false. cbv iota.
  rewrite !(wrap_small 32 (nextHost p + i)) by (simpl; lia).
  set (r := (nextHost p + i) mod 255).
  assert (Hr : 0 <= r < 255) by (apply Z.mod_pos_bound; lia).
  assert (Hne : r <> nextHost p - 1).
  { subst r. intros E.
    assert (Hm : (nextHost p + i - (nextHost p - 1)) mod 255 = 0).
    { rewrite Zminus_mod, E, (Z.mod_small (nextHost p - 1)) by lia.
      now rewrite Z.sub_diag. }
    replace (nextHost p + i - (nextHost p - 1)) with (i + 1) in Hm by lia.
    apply Z.mod_divide in Hm; [|lia]. destruct Hm as [q Hq]. lia. }
  set (h := if r <? 2 then 2 else r).
  assert (Hh : 2 <= h <= 254 /\ h <> nextHost p - 1).
  { subst h. destruct (r <? 2) eqn:E; [lia|]. apply Z.ltb_ge in E. lia. }
  rewrite Hb.
  rewrite !(wrap_small 32 (subnet_base + h)) by (unfold subnet_base; simpl; lia).
  rewrite (Hused h) by tauto. cbn [default negb].
  rewrite (wrap_small 32 (i + 1)) by (simpl; lia).
  apply IH; lia.
Qed.

(** Allocate itself: with the cursor past host 3 and every host but
    [nextHost - 1] handed out, it fails and leaves the pool as it was. *)
Lemma Allocate_skips_last (p : IPPool) :
  slash24 p ->
  4 <= nextHost p <= 255 ->
  (forall h, 2 <= h <= 254 -> h <> nextHost p - 1 -> host_used p h) ->
  Allocate p = (Err "IP pool exhausted", p).
Proof.
  intros Hs Hnh Hused. unfold Allocate.
  destruct Hs as (Hb & Ho & Hbi). rewrite Ho, Hbi.
  change (wrap 32 (Z.shiftl 1 (32 - 24))) with 256.
  change (Z.to_nat (wrap 32 (256 - 2))) with 254%nat.
  apply Allocate_loop_skips; try tauto; try lia. repeat split; assumption.
Qed.

Lemma pool_run_snoc (p : IPPool) (cs : list pool_call) (c : pool_call) :
  pool_run p (cs ++ [c]) = pool_step (pool_run p cs) c.
Proof. unfold pool_run. now rewrite fold_left_app. Qed.

Lemma reachable_step (p : IPPool) (c : pool_call) :
  reachable p -> reachable (pool_step p c).
Proof.
  intros [cs ->]. exists (cs ++ [c]). symmetry. apply pool_run_snoc.
Qed.

(** The host numbers handed out, as addresses of 10.8.0.0/24. *)
Definition hosts (first : Z) (n : nat) : list (outcome Z) :=
  map (fun h => Ok (subnet_base + h)) (seqZ first (Z.of_nat n)).

(** The pool with every address 10.8.0.2 .. 10.8.0.254 handed out. *)
Definition full_pool : IPPool := snd (Allocate_many 253 default_pool).

(** From the empty pool, 253 consecutive Allocate calls succeed and yield
    the hosts 2, 3, ..., 254 in this order; the next call fails. *)
Lemma pool_fills :
  fst (Allocate_many 253 default_pool) = hosts 2 253
  /\ full_pool = pool_run default_pool (replicate 253 CallAllocate)
  /\ size (used full_pool) = 253%nat
  /\ nextHost full_pool = 255
  /\ fst (Allocate full_pool) = Err "IP pool exhausted".
Proof. vm_compute. repeat split. Qed.

(** C4, evaluated. From the empty /24 pool 253 consecutive Allocate calls
    succeed, yielding the hosts 2 through 254, and the next call fails. Then
    the address handed out last, 10.8.0.254, is released: the pool (a
    reachable state) holds 252 addresses and 10.8.0.254 is free, yet
    Allocate fails with "IP pool exhausted", and no run of further Allocate
    calls changes the pool or returns an address. The scan of Allocate
    visits [maxHosts - 2] cursor values modulo [maxHosts - 1] and so skips
    the host just before the cursor. *)
Theorem C4_release_then_allocate :
  fst (Allocate_many 253 default_pool) = hosts 2 253
  /\ fst (Allocate full_pool) = Err "IP pool exhausted"
  /\ let p := Release full_pool (subnet_base + 254) in
     reachable p
     /\ size (used p) = 252%nat
     /\ used p !! (subnet_base + 254) = None
     /\ fst (Allocate p) = Err "IP pool exhausted"
     /\ forall n : nat,
          pool_run p (replicate n CallAllocate) = p
          /\ Forall (fun r => r = Err "IP pool exhausted")
                    (fst (Allocate_many n p)).
Proof.
  destruct pool_fills as (H1 & H2 & H3 & H4 & H5).
  split; [exact H1|]. split; [exact H5|]. cbn zeta.
  assert (He : fst (Allocate (Release full_pool (subnet_base + 254)))
               = Err "IP pool exhausted") by (vm_compute; reflexivity).
  split; [|split; [|split; [|split]]].
  - apply (reachable_step full_pool (CallRelease (subnet_base + 254))).
    exists (replicate 253 CallAllocate). exact H2.
  - vm_compute. reflexivity.
  - vm_compute. reflexivity.
  - exact He.
  - intros n. apply Allocate_stuck. exact He.
Qed.

(** What a successful scan returns, for any pool: an address that was not
    marked, now marked, and nothing else touched. *)
Lemma Allocate_loop_Ok (p : IPPool) (maxHosts i : Z) (todo : nat)
    (ip : Z) (p' : IPPool) :
  Allocate_loop p maxHosts i todo = (Ok ip, p') ->
  used p !! ip <> Some true
  /\ used p' = <[ip := true]> (used p)
  /\ baseIP p' = baseIP p /\ ones p' = ones p /\ bits p' = bits p
  /\ 0 <= ip < 2 ^ 32.
Proof.
  revert i. induction todo as [|todo IH]; intros i; cbn [Allocate_loop];
    [discriminate|].
  destruct (wrap 32 (maxHosts - 1) =? 0); [discriminate|].
  match goal with |- context [used p !! ?a] => set (ip0 := a) end.
  destruct (negb (default false (used p !! ip0))) eqn:E; [|apply IH].
  intros [= <- <-]. cbn [used baseIP ones bits].
  split; [|split; [reflexivity|]].
  - intros Hu. rewrite Hu in E. discriminate.
  - repeat split; try reflexivity; subst ip0; unfold wrap;
      apply Z.mod_pos_bound; lia.
Qed.

(** X17. Allocate never hands out an address that is marked as used. For
    every pool, whatever its subnet and cursor: when Allocate returns an
    address, that address was not marked before the call, it is marked
    after it, no other entry of the table and nothing of the subnet has
    changed, and the address is a 32-bit value; releasing it at once gives
    back the table of before the call (when the address had no entry), but
    not the cursor. When Allocate fails the pool is unchanged. *)
Theorem X17_allocate_fresh (p : IPPool) :
  (forall ip p', Allocate p = (Ok ip, p') ->
     used p !! ip <> Some true
     /\ used p' !! ip = Some true
     /\ (forall a, a <> ip -> used p' !! a = used p !! a)
     /\ baseIP p' = baseIP p /\ ones p' = ones p /\ bits p' = bits p
     /\ 0 <= ip < 2 ^ 32
     /\ (used p !! ip = None -> used (Release p' ip) = used p)
     /\ nextHost (Release p' ip) = nextHost p')
  /\ (forall e, fst (Allocate p) = Err e -> snd (Allocate p) = p).
Proof.
  split; [|apply Allocate_Err].
  intros ip p' H. apply Allocate_loop_Ok in H as (H1 & H2 & H3 & H4 & H5 & H6).
  split; [exact H1|]. rewrite H2.
  split; [apply lookup_insert_eq|].
  split; [intros a Ha; now apply lookup_insert_ne|].
  do 4 (split; [assumption|]).
  split; [|reflexivity].
  intros Hn. cbn [Release used]. rewrite H2, delete_insert_eq.
  now apply delete_id.
Qed.

(** The host number the scan tries at loop index [j] on a /24. *)
Definition host_at (p : IPPool) (j : Z) : Z :=
  let r := (nextHost p + j) mod 255 in if r <? 2 then 2 else r.

Lemma host_at_range (p : IPPool) (j : Z) : 2 <= host_at p j <= 254.
Proof.
  unfold host_at. pose proof (Z.mod_pos_bound (nextHost p + j) 255 ltac:(lia)).
  destruct (_ <? 2) eqn:E; [lia|]. apply Z.ltb_ge in E. lia.
Qed.

(** One turn of the scan on a /24, with the cursor a [uint32]. *)
Lemma Allocate_loop_turn (p : IPPool) (i : Z) (todo : nat) :
  slash24 p -> 0 <= i -> 0 <= nextHost p -> nextHost p + i < 2 ^ 32 ->
  Allocate_loop p 256 i (S todo) =
    if negb (default false (used p !! (subnet_base + host_at p i)))
    then (Ok (subnet_base + host_at p i),
          {| baseIP := baseIP p; ones := ones p; bits := bits p;
             used := <[subnet_base + host_at p i := true]> (used p);
             nextHost := host_at p i + 1 |})
    else Allocate_loop p 256 (wrap 32 (i + 1)) todo.
Proof.
  intros (Hb & _ & _) Hi Hn Hlt. cbn [Allocate_loop].
  change (wrap 32 (256 - 1)) with 255. change (255 =? 0) with false. cbv iota.
  rewrite !(wrap_small 32 (nextHost p + i)) by lia.
  fold (host_at p i). pose proof (host_at_range p i) as Hh.
  rewrite Hb.
  rewrite !(wrap_small 32 (subnet_base + host_at p i))
    by (unfold subnet_base; lia).
  rewrite (wrap_small 32 (host_at p i + 1)) by lia.
  reflexivity.
Qed.

(** A successful scan on a /24 stopped at some index [j] of its range. *)
Lemma Allocate_loop_Ok_at (p : IPPool) (i : Z) (todo : nat) (ip : Z) (p' : IPPool) :
  slash24 p -> 0 <= i -> 0 <= nextHost p ->
  nextHost p + i + Z.of_nat todo < 2 ^ 32 ->
  Allocate_loop p 256 i todo = (Ok ip, p') ->
  exists j, i <= j < i + Z.of_nat todo
    /\ ip = subnet_base + host_at p j
    /\ nextHost p' = host_at p j + 1
    /\ ~ host_used p (host_at p j).
Proof.
  intros Hs. revert i. induction todo as [|todo IH]; intros i Hi Hn Hlt;
    [discriminate|].
  rewrite Allocate_loop_turn by (try assumption; lia).
  destruct (negb _) eqn:E.
  - intros [= <- <-]. exists i. cbn [nextHost].
    split; [lia|]. split; [reflexivity|]. split; [reflexivity|].
    unfold host_used. intros Hu. rewrite Hu in E. discriminate.
  - rewrite (wrap_small 32 (i + 1)) by lia. intros H.
    apply IH in H as (j & Hj & H); [|lia|lia|lia].
    exists j. split; [lia|exact H].
Qed.

(** The scan succeeds as soon as one index of its range meets a free host. *)
Lemma Allocate_loop_finds (p : IPPool) (i : Z) (todo : nat) (j : Z) :
  slash24 p -> 0 <= i -> 0 <= nextHost p ->
  nextHost p + i + Z.of_nat todo < 2 ^ 32 ->
  i <= j < i + Z.of_nat todo ->
  ~ host_used p (host_at p j) ->
  exists ip p', Allocate_loop p 256 i todo = (Ok ip, p').
Proof.
  intros Hs. revert i. induction todo as [|todo IH]; intros i Hi Hn Hlt Hj Hfree;
    [lia|].
  rewrite Allocate_loop_turn by (try assumption; lia).
  destruct (negb _) eqn:E; [eauto|].
  rewrite (wrap_small 32 (i + 1)) by lia.
  apply IH; try lia; try assumption.
  destruct (Z.eq_dec i j) as [->|]; [|lia].
  exfalso. apply Hfree. unfold host_used.
  destruct (used p !! (subnet_base + host_at p j)) as [[|]|]; cbn in E;
    [reflexivity|discriminate|discriminate].
Qed.

Lemma Allocate_slash24 (p : IPPool) :
  slash24 p -> Allocate p = Allocate_loop p 256 0 254.
Proof.
  intros (_ & Ho & Hbi). unfold Allocate. rewrite Ho, Hbi. reflexivity.
Qed.

(** An index at which the scan tries host [h]. *)
Lemma host_at_index (p : IPPool) (h : Z) :
  2 <= nextHost p <= 255 -> 2 <= h <= 254 ->
  h <> nextHost p - 1 \/ nextHost p <= 3 ->
  exists j, 0 <= j < 254 /\ host_at p j = h.
Proof.
  intros Hn Hh Hc.
  destruct (Z.eq_dec h (nextHost p - 1)) as [E|E].
  - (* cursor at 3, host 2: reached through the residue 0 *)
    assert (nextHost p = 3) by lia. exists 252. split; [lia|].
    unfold host_at. replace (nextHost p) with 3 by lia. subst h.
    replace (nextHost p - 1) with 2 by lia. reflexivity.
  - exists ((h - nextHost p) mod 255).
    pose proof (Z.mod_pos_bound (h - nextHost p) 255 ltac:(lia)) as Hj.
    assert (Hj' : (h - nextHost p) mod 255 <> 254).
    { intros E'.
      assert (Hm : (h - nextHost p + 1) mod 255 = 0).
      { rewrite Zplus_mod, E'. reflexivity. }
      apply Z.mod_divide in Hm; [|lia]. destruct Hm as [q Hq]. lia. }
    split; [lia|]. unfold host_at.
    rewrite Zplus_mod_idemp_r.
    replace (nextHost p + (h - nextHost p)) with h by lia.
    rewrite Z.mod_small by lia.
    destruct (h <? 2) eqn:E2; [apply Z.ltb_lt in E2; lia|reflexivity].
Qed.

Lemma host_at_not_before_cursor (p : IPPool) (j : Z) :
  4 <= nextHost p <= 255 -> 0 <= j < 254 -> host_at p j <> nextHost p - 1.
Proof.
  intros Hn Hj. unfold host_at.
  pose proof (Z.mod_pos_bound (nextHost p + j) 255 ltac:(lia)) as Hr.
  destruct (_ <? 2) eqn:E; [lia|]. intros E'.
  assert (Hm : (nextHost p + j - (nextHost p - 1)) mod 255 = 0).
  { rewrite Zminus_mod, E', (Z.mod_small (nextHost p - 1)) by lia.
    now rewrite Z.sub_diag. }
  replace (nextHost p + j - (nextHost p - 1)) with (j + 1) in Hm by lia.
  apply Z.mod_divide in Hm; [|lia]. destruct Hm as [q Hq]. lia.
Qed.

(** X18. On a /24 Allocate only hands out the hosts 2 to 254. Whatever the
    table, and for a cursor below [2^32 - 254]: an address returned by Allocate is
    [base + h] with [2 <= h <= 254] (never the network address, the
    server's .1 or the broadcast address), [h] was free, the cursor
    is left at [h + 1], between 3 and 255, and the pool is still a /24. *)
Theorem X18_allocate_range (p p' : IPPool) (ip : Z) :
  slash24 p -> 0 <= nextHost p < 2 ^ 32 - 254 ->
  Allocate p = (Ok ip, p') ->
  exists h, 2 <= h <= 254
    /\ ip = subnet_base + h
    /\ ~ host_used p h
    /\ nextHost p' = h + 1
    /\ slash24 p'.
Proof.
  intros Hs Hn H. rewrite Allocate_slash24 in H by exact Hs.
  pose proof H as H'.
  apply Allocate_loop_Ok_at in H as (j & Hj & -> & Hnh & Hfree);
    [|assumption|lia|lia|lia].
  apply Allocate_loop_Ok in H' as (_ & _ & Hb & Ho & Hbi & _).
  exists (host_at p j). split; [apply host_at_range|].
  split; [reflexivity|]. split; [exact Hfree|]. split; [exact Hnh|].
  destruct Hs as (Hb' & Ho' & Hbi'). unfold slash24. now rewrite Hb, Ho, Hbi.
Qed.

(** X19. When Allocate finds an address on a /24. With the cursor where
    the code leaves it (2 to 255), Allocate succeeds exactly when some host
    [h] in 2..254 is free and is not the host just before the cursor; for a
    cursor at 2 or 3 every free host counts. So from cursor 4 on, a pool
    whose only free host is [nextHost - 1] reports exhaustion. *)
Theorem X19_allocate_succeeds_iff (p : IPPool) :
  slash24 p -> 2 <= nextHost p <= 255 ->
  ((exists ip p', Allocate p = (Ok ip, p')) <->
   (exists h, 2 <= h <= 254 /\ ~ host_used p h
              /\ (h <> nextHost p - 1 \/ nextHost p <= 3))).
Proof.
  intros Hs Hn. rewrite Allocate_slash24 by exact Hs. split.
  - intros (ip & p' & H).
    apply Allocate_loop_Ok_at in H as (j & Hj & -> & _ & Hfree);
      [|assumption|lia|lia|lia].
    exists (host_at p j). split; [apply host_at_range|].
    split; [exact Hfree|].
    destruct (Z_le_gt_dec (nextHost p) 3); [now right|left].
    apply host_at_not_before_cursor; lia.
  - intros (h & Hh & Hfree & Hc).
    destruct (host_at_index p h Hn Hh Hc) as (j & Hj & <-).
    apply (Allocate_loop_finds p 0 254 j); try assumption; lia.
Qed.

(** With 256 addresses the modulus is not zero: the scan cannot panic. *)
Lemma Allocate_loop_no_panic (p : IPPool) (i : Z) (todo : nat) :
  fst (Allocate_loop p 256 i todo) <> Panic.
Proof.
  revert i. induction todo as [|todo IH]; intros i; cbn [Allocate_loop];
    [discriminate|].
  change (wrap 32 (256 - 1) =? 0) with false. cbv iota.
  destruct (negb _); [discriminate|apply IH].
Qed.

(** What holds of the default pool in every state it can reach. *)
Definition pool_inv (p : IPPool) : Prop :=
  slash24 p
  /\ 2 <= nextHost p <= 255
  /\ forall ip v, used p !! ip = Some v ->
       v = true /\ subnet_base + 2 <= ip <= subnet_base + 254.

Lemma pool_inv_step (p : IPPool) (c : pool_call) :
  pool_inv p -> pool_inv (pool_step p c).
Proof.
  intros (Hs & Hn & Hu). destruct c as [|ip]; cbn [pool_step].
  - destruct (Allocate p) as [[ip| |] p'] eqn:E; cbn [snd].
    + pose proof E as E'. rewrite Allocate_slash24 in E by exact Hs.
      apply Allocate_loop_Ok_at in E as (j & Hj & -> & Hnh & Hfree);
        [|assumption|lia|lia|lia].
      rewrite Allocate_slash24 in E' by exact Hs.
      apply Allocate_loop_Ok in E' as (_ & Hu' & Hb & Ho & Hbi & _).
      pose proof (host_at_range p j) as Hh.
      split; [|split; [lia|]].
      * destruct Hs as (Hb' & Ho' & Hbi'). unfold slash24.
        now rewrite Hb, Ho, Hbi.
      * intros a v. rewrite Hu'.
        destruct (Z.eq_dec a (subnet_base + host_at p j)) as [->|Hne].
        -- rewrite lookup_insert_eq. intros [= <-]. split; [reflexivity|lia].
        -- rewrite lookup_insert_ne by congruence. apply Hu.
    + pose proof (Allocate_Err p e) as H. rewrite E in H. cbn [fst snd] in H.
      rewrite H by reflexivity. exact (conj Hs (conj Hn Hu)).
    + exfalso. rewrite Allocate_slash24 in E by exact Hs.
      apply (Allocate_loop_no_panic p 0 254). now rewrite E.
  - split; [exact Hs|]. split; [exact Hn|].
    intros a v. cbn [Release used]. intros H.
    apply lookup_delete_Some in H as [_ H]. now apply Hu.
Qed.

(** X20. What the server's pool can never become. In every state the
    pool of the server (10.8.0.0/24, cursor 2, empty table) reaches by
    Allocate and Release calls, in any order and with any arguments: the
    subnet is unchanged, the cursor is between 2 and 255, every entry of
    the table is [true] and belongs to a host in 2..254, and so at most 253
    addresses are handed out. *)
Theorem X20_reachable_pool (p : IPPool) :
  reachable p ->
  pool_inv p /\ (size (used p) <= 253)%nat.
Proof.
  intros [cs ->].
  assert (Hinv : pool_inv (pool_run default_pool cs)).
  { induction cs as [|c cs IH] using rev_ind.
    - split; [repeat split|]. split; [cbn; lia|].
      intros ip v. cbn. rewrite lookup_empty. discriminate.
    - rewrite pool_run_snoc. now apply pool_inv_step. }
  split; [exact Hinv|].
  destruct Hinv as (_ & _ & Hu).
  set (m := used (pool_run default_pool cs)) in *.
  assert (Hsub : dom m ⊆ (list_to_set (seqZ (subnet_base + 2) 253) : gset Z)).
  { intros a Ha. apply elem_of_dom in Ha as [v Hv]. apply Hu in Hv as [_ Hv].
    apply elem_of_list_to_set, elem_of_seqZ. lia. }
  apply subseteq_size in Hsub. rewrite size_dom in Hsub.
  rewrite size_list_to_set in Hsub by apply NoDup_seqZ.
  rewrite length_seqZ in Hsub. lia.
Qed.

Section data_loop.
Context {aead : crypto.AEAD}.

(** C6, as the code has it. In the server data loop, for every received
    Data packet whose decryption fails, the packet is dropped (nothing is
    written to the tunnel or to the connection, the failure is only
    logged), the loop continues with the session alive, and the crypto
    session is unchanged, so no counter advances; but LastSeen is set to
    the time of the turn, as for every frame that parses. *)
Theorem C6_decrypt_failure (tunDevice : bool) (session : ClientSession)
    (data : list byte) (now : Z) (packet : protocol.Packet)
    (later : list (read_result * Z)) :
  protocol.UnmarshalPacket data = Ok packet ->
  protocol.Type' (protocol.Header packet) = protocol.PacketTypeData ->
  is_Err (fst (crypto.Decrypt (CryptoSession session)
                 (protocol.Payload packet))) = true ->
  let '(ctl, session', out) :=
    data_loop_turn tunDevice session false (ReadOk data) now in
  ctl = Continue
  /\ out = [Log "Session %d decrypt error: %v"]
  /\ CryptoSession session' = CryptoSession session
  /\ crypto.SendNonce (CryptoSession session')
     = crypto.SendNonce (CryptoSession session)
  /\ crypto.RecvNonce (CryptoSession session')
     = crypto.RecvNonce (CryptoSession session)
  /\ ID session' = ID session
  /\ AssignedIP session' = AssignedIP session
  /\ LastSeen session' = now
  /\ data_loop tunDevice session ((ReadOk data, now) :: later)
     = let '(c, s, o) := data_loop tunDevice session' later in (c, s, out ++ o).
Proof.
  intros Hparse Hty Hfail.
  assert (Hturn : data_loop_turn tunDevice session false (ReadOk data) now
           = (Continue, set_LastSeen now session,
              [Log "Session %d decrypt error: %v"])).
  { unfold data_loop_turn. rewrite Hparse, Hty.
    rewrite bool_decide_eq_true_2 by reflexivity.
    cbn [CryptoSession set_LastSeen].
    pose proof (crypto_facts.Decrypt_Err_same (CryptoSession session)
                  (protocol.Payload packet) Hfail) as Hsame.
    destruct (crypto.Decrypt (CryptoSession session) (protocol.Payload packet))
      as [[pt|e|] cs] eqn:E; cbn [fst is_Err] in Hfail; try discriminate.
    cbn [snd] in Hsame. subst cs. destruct session. reflexivity. }
  cbn [data_loop]. rewrite Hturn. cbn [CryptoSession set_LastSeen ID
    AssignedIP LastSeen]. repeat split.
Qed.

End data_loop.

Section data_loop_runs.
Context {aead : crypto.AEAD}.

(** The packets a run of the loop wrote to the TUN device, in order. *)
Definition tun_writes (out : list effect) : list (list byte) :=
  omap (fun e => match e with TunWrite p => Some p | _ => None end) out.

Lemma tun_writes_app (a b : list effect) :
  tun_writes (a ++ b) = tun_writes a ++ tun_writes b.
Proof. apply omap_app. Qed.

(** The key the session opens received packets with. *)
Definition recv_key (session : ClientSession) : list byte :=
  crypto.cipher_key (crypto.recvCipher (CryptoSession session)).

(** A frame that the loop accepts as a data packet carrying [pt]: at least
    a header and a nonce, type byte Data, and the bytes after the nonce
    open under [key] with the nonce. *)
Definition carries (key data pt : list byte) : Prop :=
  38 <= len data
  /\ data !!! 3%nat = protocol.PacketTypeData
  /\ crypto.xopen key (take 24 (drop 14 data)) (drop 38 data) [] = Some pt.

(** One turn: either the crypto session is untouched and nothing goes to
    the TUN device, or the frame carries a packet, the receive counter goes
    up by one and the packet goes to the TUN device if there is one. *)
Lemma data_loop_turn_cases (tunDevice : bool) (session : ClientSession)
    (done : bool) (rd : read_result) (now : Z) :
  let '(ctl, session', out) := data_loop_turn tunDevice session done rd now in
  ctl <> Crash
  /\ ID session' = ID session
  /\ AssignedIP session' = AssignedIP session
  /\ ((CryptoSession session' = CryptoSession session /\ tun_writes out = [])
      \/ exists data pt,
           rd = ReadOk data /\ done = false
           /\ carries (recv_key session) data pt
           /\ CryptoSession session' =
                crypto.set_RecvNonce
                  (wrap 64 (crypto.RecvNonce (CryptoSession session) + 1))
                  (CryptoSession session)
           /\ ctl = Continue
           /\ tun_writes out = if tunDevice then [pt] else []).
Proof.
  unfold data_loop_turn.
  destruct done; [repeat split; try discriminate; now left|].
  destruct rd as [data|e]; [|repeat split; try discriminate; now left].
  destruct (Z_lt_dec (len data) protocol.HeaderSize) as [Hs|Hl].
  { rewrite protocol_facts.UnmarshalPacket_short by exact Hs.
    repeat split; try discriminate; now left. }
  rewrite protocol_facts.UnmarshalPacket_header by lia.
  destruct (negb _ || negb _); [repeat split; try discriminate; now left|].
  destruct (negb (bool_decide (_ = protocol.ProtocolVersion)));
    [repeat split; try discriminate; now left|].
  destruct (negb (_ =? _)); [repeat split; try discriminate; now left|].
  cbn [protocol.Header protocol.Type' protocol.Payload].
  case_bool_decide as Hty.
  - cbn [CryptoSession set_LastSeen].
    destruct (Z_lt_dec (len (drop 14 data)) 24) as [Hshort|Hlong].
    + rewrite crypto_facts.Decrypt_short by exact Hshort.
      cbn [ID AssignedIP CryptoSession set_CryptoSession set_LastSeen].
      repeat split; try discriminate. now left.
    + rewrite crypto_facts.Decrypt_long by lia.
      rewrite drop_drop. change (14 + 24)%nat with 38%nat.
      destruct (crypto.xopen _ _ _ _) as [pt|] eqn:E;
        cbn [ID AssignedIP CryptoSession set_CryptoSession set_LastSeen].
      * repeat split; try discriminate. right. exists data, pt.
        split; [reflexivity|]. split; [reflexivity|].
        split; [|split; [reflexivity|split; [reflexivity|now destruct tunDevice]]].
        unfold carries, recv_key. split; [|split; [exact Hty|exact E]].
        unfold len in *. rewrite length_drop in Hlong.
        unfold protocol.HeaderSize in Hl. lia.
      * repeat split; try discriminate. now left.
  - repeat case_bool_decide;
      cbn [ID AssignedIP CryptoSession set_CryptoSession set_LastSeen];
      repeat split; try discriminate; now left.
Qed.

(** X21. What the receive loop of a session can never do. Over any run of
    the loop, frames of any content, read errors and times included: no
    turn panics; the session keeps its ID and its address; of the crypto
    session only the receive counter changes, so the loop never moves the
    send counter the TUN reader uses; without a TUN device nothing is
    written to one; and with one, the receive counter has advanced
    (modulo 2^64) by exactly the number of packets written to it. *)
Theorem X21_data_loop_invariants (tunDevice : bool) (session : ClientSession)
    (reads : list (read_result * Z)) :
  let '(ctl, session', out) := data_loop tunDevice session reads in
  ctl <> Crash
  /\ ID session' = ID session
  /\ AssignedIP session' = AssignedIP session
  /\ crypto.set_RecvNonce (crypto.RecvNonce (CryptoSession session'))
       (CryptoSession session) = CryptoSession session'
  /\ (tunDevice = false -> tun_writes out = [])
  /\ (tunDevice = true ->
      wrap 64 (crypto.RecvNonce (CryptoSession session'))
      = wrap 64 (crypto.RecvNonce (CryptoSession session)
                 + Z.of_nat (length (tun_writes out)))).
Proof.
  revert session. induction reads as [|[rd now] reads IH]; intros session.
  - cbn [data_loop]. split; [discriminate|]. do 2 (split; [reflexivity|]).
    split; [now destruct (CryptoSession session)|].
    split; [reflexivity|]. intros _. cbn. now rewrite Z.add_0_r.
  - cbn [data_loop].
    pose proof (data_loop_turn_cases tunDevice session false rd now) as Ht.
    destruct (data_loop_turn tunDevice session false rd now)
      as [[ctl s1] out1].
    destruct Ht as (Hc & Hid & Hip & Hcs).
    assert (Hone : crypto.set_RecvNonce (crypto.RecvNonce (CryptoSession s1))
                     (CryptoSession session) = CryptoSession s1
                   /\ (tunDevice = false -> tun_writes out1 = [])
                   /\ (tunDevice = true ->
                       wrap 64 (crypto.RecvNonce (CryptoSession s1))
                       = wrap 64 (crypto.RecvNonce (CryptoSession session)
                                  + Z.of_nat (length (tun_writes out1))))).
    { destruct Hcs as [[-> ->]|(data & pt & _ & _ & _ & -> & _ & ->)].
      - split; [now destruct (CryptoSession session)|].
        split; [reflexivity|]. intros _. cbn. now rewrite Z.add_0_r.
      - split; [reflexivity|]. split; [now intros ->|]. intros ->.
        cbn [crypto.RecvNonce crypto.set_RecvNonce]. unfold wrap.
        now rewrite Z.mod_mod by lia. }
    destruct Hone as (H1 & H2 & H3).
    destruct ctl; [|now repeat split|contradiction].
    specialize (IH s1).
    destruct (data_loop tunDevice s1 reads) as [[ctl2 s2] out2].
    destruct IH as (Hc2 & Hid2 & Hip2 & Hcs2 & Hno2 & Hcnt2).
    split; [exact Hc2|]. split; [congruence|]. split; [congruence|].
    rewrite tun_writes_app. split; [|split].
    + rewrite <- Hcs2, <- H1. reflexivity.
    + intros Hf. now rewrite H2, Hno2.
    + intros Hd. rewrite Hcnt2 by exact Hd. rewrite length_app, Nat2Z.inj_add.
      unfold wrap in *. rewrite Zplus_mod, H3 by exact Hd.
      rewrite <- Zplus_mod. f_equal. lia.
Qed.

(** X22. Only authenticated packets reach the TUN device. Every packet a
    run of the loop writes to the TUN device was carried by one of the
    frames read in this run: a frame of at least 38 bytes with type byte
    Data whose bytes after the 24-byte nonce open, under that nonce, with
    the receive key the session had when the loop started. *)
Theorem X22_tun_writes_authentic (tunDevice : bool) (session : ClientSession)
    (reads : list (read_result * Z)) (pt : list byte) :
  pt ∈ tun_writes (snd (data_loop tunDevice session reads)) ->
  exists data now,
    (ReadOk data, now) ∈ reads /\ carries (recv_key session) data pt.
Proof.
  revert session. induction reads as [|[rd now] reads IH]; intros session.
  - cbn. intros H. now apply elem_of_nil in H.
  - cbn [data_loop].
    pose proof (data_loop_turn_cases tunDevice session false rd now) as Ht.
    destruct (data_loop_turn tunDevice session false rd now)
      as [[ctl s1] out1].
    destruct Ht as (Hc & _ & _ & Hcs).
    assert (Hkey : recv_key s1 = recv_key session).
    { unfold recv_key.
      destruct Hcs as [[-> _]|(_ & _ & _ & _ & _ & -> & _)]; reflexivity. }
    assert (Hfirst : pt ∈ tun_writes out1 ->
              exists data now0,
                (ReadOk data, now0) ∈ (rd, now) :: reads
                /\ carries (recv_key session) data pt).
    { destruct Hcs as [[_ ->]|(data & pt' & -> & _ & Hcar & _ & _ & ->)].
      - intros H. now apply elem_of_nil in H.
      - destruct tunDevice; [|intros H; now apply elem_of_nil in H].
        intros H. apply list_elem_of_singleton in H as ->.
        exists data, now. split; [apply list_elem_of_here|exact Hcar]. }
    destruct ctl; [|exact Hfirst|contradiction].
    specialize (IH s1).
    destruct (data_loop tunDevice s1 reads) as [[ctl2 s2] out2].
    cbn [snd] in *. rewrite tun_writes_app. intros H.
    apply elem_of_app in H as [H|H]; [now apply Hfirst|].
    destruct (IH H) as (data & now0 & Hin & Hcar).
    exists data, now0. split; [now apply list_elem_of_further|].
    now rewrite <- Hkey.
Qed.

(** X23. A replayed data frame is accepted again. The receive counter is
    never compared with anything: when the loop writes the packet of a
    frame to the TUN device, the same frame received any number of times
    is written to the TUN device every time. *)
Theorem X23_replay_accepted (session : ClientSession) (data pt : list byte)
    (times : list Z) :
  carries (recv_key session) data pt ->
  is_Ok (protocol.UnmarshalPacket data) = true ->
  let '(ctl, session', out) :=
    data_loop true session (map (fun t => (ReadOk data, t)) times) in
  ctl = Continue
  /\ tun_writes out = replicate (length times) pt.
Proof.
  intros Hcar Hparse. revert session Hcar.
  induction times as [|t times IH]; intros session Hcar; [now cbn|].
  cbn [map data_loop].
  destruct Hcar as (Hlen & Hty & Hopen).
  destruct (protocol.UnmarshalPacket data) as [packet| |] eqn:Hp;
    try discriminate.
  assert (Hturn : data_loop_turn true session false (ReadOk data) t
            = (Continue,
               set_CryptoSession
                 (crypto.set_RecvNonce
                    (wrap 64 (crypto.RecvNonce (CryptoSession session) + 1))
                    (CryptoSession session))
                 (set_LastSeen t session),
               [TunWrite pt])).
  { unfold data_loop_turn. rewrite Hp.
    rewrite protocol_facts.UnmarshalPacket_header in Hp
      by (unfold protocol.HeaderSize; lia).
    destruct (negb _ || negb _); [discriminate|].
    destruct (negb (bool_decide (_ = protocol.ProtocolVersion)));
      [discriminate|].
    destruct (negb (_ =? _)); [discriminate|].
    injection Hp as <-.
    cbn [protocol.Header protocol.Type' protocol.Payload].
    rewrite Hty, bool_decide_eq_true_2 by reflexivity.
    cbn [CryptoSession set_LastSeen].
    rewrite crypto_facts.Decrypt_long
      by (unfold len in *; rewrite length_drop; lia).
    rewrite drop_drop. change (14 + 24)%nat with 38%nat.
    unfold recv_key in Hopen. rewrite Hopen. reflexivity. }
  rewrite Hturn.
  match goal with |- context [data_loop true ?s _] => specialize (IH s) end.
  destruct (data_loop true _ _) as [[ctl2 s2] out2].
  destruct IH as [-> IH]; [repeat split; assumption|].
  split; [reflexivity|]. rewrite tun_writes_app, IH. reflexivity.
Qed.

(** X24. The keepalive reply. For every frame that parses with type byte
    KeepAlive, whatever its session ID and payload, the turn writes one
    frame to the connection and nothing else, and continues: a 14-byte
    frame that parses as a KeepAlive packet with the session's own ID and
    an empty payload. *)
Theorem X24_keepalive_reply (tunDevice : bool) (session : ClientSession)
    (data : list byte) (now : Z) (packet : protocol.Packet) :
  protocol.UnmarshalPacket data = Ok packet ->
  protocol.Type' (protocol.Header packet) = protocol.PacketTypeKeepAlive ->
  0 <= ID session < 2 ^ 64 ->
  exists reply,
    data_loop_turn tunDevice session false (ReadOk data) now
      = (Continue, set_LastSeen now session, [ConnWrite reply])
    /\ len reply = 14
    /\ protocol.UnmarshalPacket reply
       = Ok (protocol.NewPacket protocol.PacketTypeKeepAlive (ID session) []).
Proof.
  intros Hp Hty Hid. eexists. split; [|split].
  - unfold data_loop_turn. rewrite Hp, Hty.
    rewrite bool_decide_eq_false_2 by discriminate.
    rewrite bool_decide_eq_true_2 by reflexivity. reflexivity.
  - rewrite protocol_facts.len_Marshal. reflexivity.
  - apply protocol_facts.Unmarshal_Marshal; try reflexivity.
    split; [exact Hid|]. vm_compute. split; [discriminate|reflexivity].
Qed.

(** A frame with the eight session-ID bytes of its header replaced. *)
Definition with_session_id (sid data : list byte) : list byte :=
  take 4 data ++ sid ++ drop 12 data.

Lemma with_session_id_len (sid data : list byte) :
  length sid = 8%nat ->
  (len data < 14 -> len (with_session_id sid data) < 14)
  /\ (14 <= len data -> len (with_session_id sid data) = len data).
Proof.
  intros Hs. unfold with_session_id, len.
  rewrite !length_app, length_take, length_drop, Hs. lia.
Qed.

Lemma with_session_id_drop (sid data : list byte) :
  length sid = 8%nat -> 14 <= len data ->
  drop 12 (with_session_id sid data) = drop 12 data.
Proof.
  intros Hs Hl. unfold with_session_id. rewrite app_assoc.
  apply drop_app_length'. unfold len in Hl.
  rewrite length_app, length_take, Hs. lia.
Qed.

Lemma with_session_id_lookup (sid data : list byte) (i : nat) :
  (i < 4)%nat -> 14 <= len data ->
  with_session_id sid data !!! i = data !!! i.
Proof.
  intros Hi Hl. unfold with_session_id. unfold len in Hl.
  rewrite lookup_total_app_l by (rewrite length_take; lia).
  rewrite lookup_total_take. case_decide; [reflexivity|lia].
Qed.

(** X25. The session ID of a frame is never looked at. A turn of the loop
    does the same thing, with the same result, for a frame and for the
    frame with any other eight bytes in the session-ID field of its
    header: the server does not check that a frame belongs to the session
    of the connection it arrives on. *)
Theorem X25_session_id_unchecked (tunDevice : bool) (session : ClientSession)
    (done : bool) (sid data : list byte) (now : Z) :
  length sid = 8%nat ->
  data_loop_turn tunDevice session done (ReadOk (with_session_id sid data)) now
  = data_loop_turn tunDevice session done (ReadOk data) now.
Proof.
  intros Hs. unfold data_loop_turn. destruct done; [reflexivity|].
  destruct (with_session_id_len sid data Hs) as [Hshort Hlong].
  destruct (Z_lt_dec (len data) 14) as [Hl|Hl].
  - rewrite !protocol_facts.UnmarshalPacket_short
      by (unfold protocol.HeaderSize; auto). reflexivity.
  - rewrite !protocol_facts.UnmarshalPacket_header
      by (unfold protocol.HeaderSize; rewrite ?Hlong; lia).
    unfold protocol.length_field.
    rewrite !with_session_id_lookup by lia.
    rewrite Hlong by lia.
    change 14%nat with (12 + 2)%nat. rewrite <- !drop_drop.
    rewrite with_session_id_drop by (try assumption; lia).
    destruct (negb _ || negb _); [reflexivity|].
    destruct (negb (bool_decide (_ = protocol.ProtocolVersion)));
      [reflexivity|].
    destruct (negb (_ =? _)); reflexivity.
Qed.

End data_loop_runs.

End server_facts.

(* ================================================================== *)
(** * The handshake: the keys of the two sides                         *)
(* ================================================================== *)

Module handshake_facts.
Import crypto primitives_facts.

Section key_derivation.
Context {kdf : KDF}.

(** The server derives its keys, as responder, under the 32 bytes that
    [crypto/rand] delivers as salt. *)
Lemma handleConnection_keys_returns (rand : reader) (sharedSecret : list byte) :
  32 <= len rand ->
  server.handleConnection_keys rand sharedSecret =
    (DeriveSessionKeys sharedSecret false (take 32 rand), drop 32 rand).
Proof.
  intros H. unfold server.handleConnection_keys, GenerateRandomBytes.
  rewrite len_make_bytes by lia. rewrite ReadFull_Ok by exact H.
  reflexivity.
Qed.

(** Had the server used the client's salt, the two sides would hold
    matching keys: this is the directional split of DeriveSessionKeys. *)
Lemma same_salt_keys_match (sharedSecret : list byte) (rand : reader) :
  32 <= len rand ->
  take 32 rand = make_bytes 32 ->
  exists c s : Session,
    client.performHandshake_keys sharedSecret = Ok c
    /\ fst (server.handleConnection_keys rand sharedSecret) = Ok s
    /\ SendKey c = RecvKey s /\ RecvKey c = SendKey s.
Proof.
  intros Hlen Hzero. rewrite handleConnection_keys_returns by exact Hlen.
  unfold client.performHandshake_keys. cbn [fst]. rewrite Hzero.
  rewrite !crypto_facts.DeriveSessionKeys_returns. cbn zeta.
  do 2 eexists. repeat split.
Qed.

End key_derivation.

(** A shared secret, the salt bytes the server's random source delivers,
    the random bytes of one nonce, and one datagram. *)
Definition secret0 : list byte := bytes_of (seqZ 1 32).
Definition server_random : reader := replicate 32 xaa.
Definition nonce_random : reader := bytes_of (seqZ 100 16).
Definition datagram : list byte := list_byte_of_string "inner IPv4 packet".

(** The session DeriveSessionKeys returns for [secret0] under HKDF-SHA256:
    its keys are the first two blocks of the key stream. *)
Definition session_of (isInitiator : bool) (salt : list byte) : Session :=
  let k1 := T1 secret0 salt session_keys_info in
  let k2 := T2 secret0 salt session_keys_info in
  let sendKey := if isInitiator then k1 else k2 in
  let recvKey := if isInitiator then k2 else k1 in
  {| SendKey := sendKey; RecvKey := recvKey; SendNonce := 0; RecvNonce := 0;
     sendCipher := {| cipher_key := sendKey |};
     recvCipher := {| cipher_key := recvKey |} |}.

Lemma derive_hkdf_sha256 (isInitiator : bool) (salt : list byte) :
  DeriveSessionKeys (kdf := hkdf_sha256) secret0 isInitiator salt
  = Ok (session_of isInitiator salt).
Proof.
  rewrite crypto_facts.DeriveSessionKeys_returns.
  rewrite K1_hkdf_sha256, K2_hkdf_sha256. reflexivity.
Qed.

(** The client's session (all-zero salt), the server's session (the salt
    it drew), and the session the server would hold under the zero salt. *)
Definition client_session : Session := session_of true (make_bytes 32).
Definition server_session : Session := session_of false server_random.
Definition server_session_zero_salt : Session := session_of false (make_bytes 32).

(** What the client and the server put on the wire for [datagram]. *)
Definition sealed_by_client : list byte :=
  bytes_of [0x00; 0x00; 0x00; 0x00; 0x00; 0x00; 0x00; 0x00;
            0x64; 0x65; 0x66; 0x67; 0x68; 0x69; 0x6a; 0x6b;
            0x6c; 0x6d; 0x6e; 0x6f; 0x70; 0x71; 0x72; 0x73;
            0x7b; 0xee; 0x21; 0x22; 0x96; 0xa8; 0x03; 0x86;
            0xdd; 0xa1; 0x54; 0xaa; 0xc1; 0xca; 0x26; 0xd8;
            0x60; 0xb5; 0x11; 0x7d; 0x04; 0xff; 0x61; 0xf9;
            0x34; 0x7c; 0x94; 0x01; 0x16; 0x8d; 0xda; 0x67; 0xa4].
Definition sealed_by_server : list byte :=
  bytes_of [0x00; 0x00; 0x00; 0x00; 0x00; 0x00; 0x00; 0x00;
            0x64; 0x65; 0x66; 0x67; 0x68; 0x69; 0x6a; 0x6b;
            0x6c; 0x6d; 0x6e; 0x6f; 0x70; 0x71; 0x72; 0x73;
            0x5f; 0xeb; 0x4e; 0xf2; 0x13; 0x56; 0xdf; 0x76;
            0x3b; 0x9e; 0xd3; 0x0c; 0x61; 0x2b; 0xac; 0x5f;
            0xf7; 0x88; 0xb4; 0x31; 0x42; 0xa7; 0x4d; 0x37;
            0xec; 0x6f; 0xe3; 0x97; 0x83; 0x7b; 0xa2; 0xc1; 0x64].

(** C1, evaluated. Client and server hold the same shared secret. The
    client derives its session as initiator under the all-zero salt, the
    server as responder under the 32 bytes its random source delivered
    (here 32 times 0xaa). Both derivations return, and the client's send key
    differs from the server's receive key, the client's receive key from
    the server's send key; the datagram the client seals is rejected by the
    server's Decrypt, and the one the server seals by the client's. *)
Theorem C1_handshake_keys :
  client.performHandshake_keys (kdf := hkdf_sha256) secret0 = Ok client_session
  /\ fst (server.handleConnection_keys (kdf := hkdf_sha256)
            server_random secret0) = Ok server_session
  /\ SendKey client_session <> RecvKey server_session
  /\ RecvKey client_session <> SendKey server_session
  /\ fst (fst (Encrypt (aead := xchacha20poly1305)
                 client_session nonce_random datagram)) = Ok sealed_by_client
  /\ fst (Decrypt (aead := xchacha20poly1305) server_session sealed_by_client)
     = Err "chacha20poly1305: message authentication failed"
  /\ fst (fst (Encrypt (aead := xchacha20poly1305)
                 server_session nonce_random datagram)) = Ok sealed_by_server
  /\ fst (Decrypt (aead := xchacha20poly1305) client_session sealed_by_server)
     = Err "chacha20poly1305: message authentication failed".
Proof.
  split; [apply derive_hkdf_sha256|]. split.
  { rewrite handleConnection_keys_returns by (vm_compute; discriminate).
    cbn [fst]. apply derive_hkdf_sha256. }
  split; [vm_compute; discriminate|]. split; [vm_compute; discriminate|].
  split; [vm_compute; reflexivity|]. split; [vm_compute; reflexivity|].
  split; vm_compute; reflexivity.
Qed.

(** With the salt the client uses, the very same bytes are opened by the
    server: the salt is the only thing that separates the two sides. *)
Example zero_salt_opens :
  fst (server.handleConnection_keys (kdf := hkdf_sha256)
         (make_bytes 32) secret0) = Ok server_session_zero_salt
  /\ SendKey client_session = RecvKey server_session_zero_salt
  /\ fst (Decrypt (aead := xchacha20poly1305)
            server_session_zero_salt sealed_by_client) = Ok datagram.
Proof.
  split.
  { rewrite handleConnection_keys_returns by (vm_compute; discriminate).
    cbn [fst]. apply derive_hkdf_sha256. }
  split; vm_compute; reflexivity.
Qed.




Section setup.
Context {kdf : KDF} {dh : X25519}.

(** The key derivation of the server returns a session whatever the random
    source delivers. *)
Lemma handleConnection_keys_Ok (rand : reader) (sharedSecret : list byte) :
  exists cs rand',
    server.handleConnection_keys rand sharedSecret = (Ok cs, rand').
Proof.
  unfold server.handleConnection_keys.
  destruct (GenerateRandomBytes rand 32) as [r rand'].
  rewrite crypto_facts.DeriveSessionKeys_returns. eauto.
Qed.



End setup.

Lemma UnmarshalPacket_no_panic (data : list byte) :
  protocol.UnmarshalPacket data <> Panic.
Proof.
  destruct (Z_lt_dec (len data) protocol.HeaderSize) as [Hs|Hl].
  - now rewrite protocol_facts.UnmarshalPacket_short.
  - rewrite protocol_facts.UnmarshalPacket_header by lia.
    destruct (negb _ || negb _); [discriminate|].
    destruct (negb (bool_decide (_ = protocol.ProtocolVersion)));
      [discriminate|].
    destruct (negb (_ =? _)); discriminate.
Qed.

Lemma UnmarshalHandshakeInit_no_panic (data : list byte) :
  protocol.UnmarshalHandshakeInit data <> Panic.
Proof.
  destruct (Z_lt_dec (len data) 72) as [Hs|Hl].
  - now rewrite protocol_facts.UnmarshalHandshakeInit_short.
  - now rewrite protocol_facts.UnmarshalHandshakeInit_long by lia.
Qed.

Section connection.
Context {kdf : KDF} {dh : X25519} {aead : AEAD}.

Lemma data_loop_no_crash (tunDevice : bool) (session : server.ClientSession)
    (reads : list (server.read_result * Z)) :
  fst (fst (server.data_loop tunDevice session reads)) <> server.Crash.
Proof.
  revert session. induction reads as [|[rd now] reads IH]; intros session;
    cbn [server.data_loop]; [discriminate|].
  pose proof (server_facts.data_loop_turn_cases tunDevice session false rd now)
    as Ht.
  destruct (server.data_loop_turn tunDevice session false rd now)
    as [[ctl s1] out1].
  destruct Ht as (Hc & _). destruct ctl; [|discriminate|contradiction].
  specialize (IH s1). now destruct (server.data_loop tunDevice s1 reads) as [[c s2] o2].
Qed.

(** What the first part of handleConnection does to the pool: nothing, or
    one successful Allocate. *)
Lemma handleConnection_accept_pool (ks : KeyPair) (ipPool : server.IPPool)
    (rand : reader) (rd : server.read_result) (now : Z) :
  server_facts.slash24 ipPool ->
  match server.handleConnection_accept ks ipPool rand rd now with
  | (Ok (session, resp), ipPool', _) =>
      server.Allocate ipPool = (Ok (server.AssignedIP session), ipPool')
  | (Err _, ipPool', _) => ipPool' = ipPool
  | (Panic, _, _) => False
  end.
Proof.
  intros Hs24. unfold server.handleConnection_accept.
  destruct rd as [data|e]; [|reflexivity].
  pose proof (UnmarshalPacket_no_panic data) as Hnp.
  destruct (protocol.UnmarshalPacket data) as [packet|e|];
    [|reflexivity|contradiction].
  destruct (negb _); [reflexivity|].
  pose proof (UnmarshalHandshakeInit_no_panic (protocol.Payload packet)) as Hnp'.
  destruct (protocol.UnmarshalHandshakeInit _) as [hsInit|e|];
    [|reflexivity|contradiction].
  unfold ComputeSharedSecret. case_bool_decide; [reflexivity|].
  destruct (handleConnection_keys_Ok rand
              (ScalarMult (PrivateKey ks) (protocol.ClientPublicKey hsInit)))
    as (cs & rand1 & ->).
  destruct (server.read_session_id rand1) as [sessionID rand2].
  pose proof (server_facts.Allocate_loop_no_panic ipPool 0 254) as Hal.
  rewrite <- server_facts.Allocate_slash24 in Hal by exact Hs24.
  pose proof (server_facts.Allocate_Err ipPool) as Herr.
  destruct (server.Allocate ipPool) as [[ip|e|] ipPool'];
    cbn [fst snd] in *; [reflexivity|now apply (Herr e)|contradiction].
Qed.

(** X27. A connection never leaks an address and never takes two. For a
    /24 pool and every course of a connection (first read, key pair, random
    source, write error, later reads): handleConnection never panics; when
    it returns, the addresses marked in the pool are exactly those marked
    before it was called, and if it returned without a log line of a
    closed session the pool is unchanged, cursor included; while it is
    still in its loop, exactly one address more is marked, one that was
    free. *)
Theorem X27_connection_pool (ks : KeyPair) (tunDevice : bool)
    (ipPool : server.IPPool) (rand : reader) (rd : server.read_result)
    (now : Z) (werr : option string)
    (reads : list (server.read_result * Z)) :
  server_facts.slash24 ipPool ->
  let '(ctl, ipPool', out) :=
    server.handleConnection ks tunDevice ipPool rand rd now werr reads in
  ctl <> server.Crash
  /\ (ctl = server.Return ->
      (forall a, server.used ipPool' !! a = Some true
                 <-> server.used ipPool !! a = Some true)
      /\ (server.Log "Session %d closed, released IP %s" ∉ out ->
          ipPool' = ipPool))
  /\ (ctl = server.Continue ->
      exists ip, server.used ipPool !! ip <> Some true
                 /\ server.used ipPool' = <[ip := true]> (server.used ipPool)).
Proof.
  intros Hs24. unfold server.handleConnection.
  pose proof (handleConnection_accept_pool ks ipPool rand rd now Hs24) as Hacc.
  destruct (server.handleConnection_accept ks ipPool rand rd now)
    as [[[[session resp]|line|] pool1] rand1]; [| |contradiction].
  - apply server_facts.Allocate_loop_Ok in Hacc
      as (Hfree & Hused & _).
    assert (Hrel : forall a,
              server.used (server.Release pool1 (server.AssignedIP session)) !! a
                = Some true <-> server.used ipPool !! a = Some true).
    { intros a. cbn [server.Release server.used]. rewrite Hused.
      rewrite delete_insert_eq.
      destruct (Z.eq_dec a (server.AssignedIP session)) as [->|Hne].
      - rewrite lookup_delete_eq. split; [discriminate|intros H; contradiction].
      - now rewrite lookup_delete_ne by congruence. }
    assert (Hclosed : forall l : list server.effect,
              server.Log "Session %d closed, released IP %s"
                ∈ l ++ [server.Log "Session %d closed, released IP %s"]).
    { intros l. apply elem_of_app. right. apply list_elem_of_here. }
    destruct werr as [e|].
    + split; [discriminate|]. split; [|discriminate]. intros _.
      split; [exact Hrel|]. intros Hno. exfalso. apply Hno.
      apply (Hclosed [server.ConnWrite resp;
                      server.Log "Write handshake response error: %v"]).
    + pose proof (data_loop_no_crash tunDevice session reads) as Hnc.
      destruct (server.data_loop tunDevice session reads) as [[ctl s2] out].
      cbn [fst] in Hnc. destruct ctl; [| |contradiction].
      * split; [discriminate|]. split; [discriminate|]. intros _.
        exists (server.AssignedIP session). split; assumption.
      * split; [discriminate|]. split; [|discriminate]. intros _.
        split; [exact Hrel|]. intros Hno. exfalso. apply Hno.
        apply (Hclosed (server.ConnWrite resp
                 :: server.Log "Session %d established, assigned IP %s" :: out)).
  - subst pool1. split; [discriminate|]. split; [|discriminate].
    intros _. split; [reflexivity|reflexivity].
Qed.

End connection.

Section tunnels.
Context {aead : AEAD}.

(** The destination of an IPv4 packet as tunReadLoop reads it: bytes 16
    to 19, as a [uint32]. *)
Definition dest_of (packet : list byte) : Z := Uint32 (drop 16 packet).

(** What Encrypt on the session's crypto session does to the session. *)
Definition after_send (s : server.ClientSession) : server.ClientSession :=
  server.set_CryptoSession
    (set_SendNonce (wrap 64 (SendNonce (server.CryptoSession s) + 1))
       (server.CryptoSession s)) s.

(** The Data frame that carries [packet] sealed under the send key of the
    session, with the random bytes [rand] in the nonce. *)
Definition data_frame (id : Z) (cs : Session) (rand : reader)
    (packet : list byte) : list byte :=
  let nonce := crypto_facts.nonce_of (SendNonce cs) rand in
  protocol.Marshal
    (protocol.NewPacket protocol.PacketTypeData id
       (nonce ++ xseal (cipher_key (sendCipher cs)) nonce packet [])).

Lemma tun_dispatch_no_match (sessions : list server.ClientSession)
    (rand : reader) (destIP : Z) (packet : list byte) :
  Forall (fun s => server.AssignedIP s <> destIP) sessions ->
  server.tun_dispatch sessions rand destIP packet = Some (sessions, rand, []).
Proof.
  induction 1 as [|s sessions Hs _ IH]; [reflexivity|].
  cbn [server.tun_dispatch].
  replace (server.AssignedIP s =? destIP) with false
    by (symmetry; now apply Z.eqb_neq).
  now rewrite IH.
Qed.

Lemma tun_dispatch_match (before after : list server.ClientSession)
    (s : server.ClientSession) (rand : reader) (destIP : Z)
    (packet : list byte) :
  Forall (fun s => server.AssignedIP s <> destIP) before ->
  server.AssignedIP s = destIP ->
  16 <= len rand ->
  server.tun_dispatch (before ++ s :: after) rand destIP packet =
    Some (before ++ after_send s :: after, drop 16 rand,
          [server.Sent (server.ID s)
             (data_frame (server.ID s) (server.CryptoSession s) rand packet)]).
Proof.
  intros Hb Hs Hrand. induction Hb as [|b before Hne _ IH].
  - cbn [app server.tun_dispatch].
    replace (server.AssignedIP s =? destIP) with true
      by (symmetry; now apply Z.eqb_eq).
    rewrite crypto_facts.Encrypt_returns by exact Hrand. reflexivity.
  - cbn [app server.tun_dispatch].
    replace (server.AssignedIP b =? destIP) with false
      by (symmetry; now apply Z.eqb_neq).
    now rewrite IH.
Qed.

(** X29. Where a packet from the TUN device goes. A turn of the server's
    tunReadLoop drops a packet of fewer than 20 bytes, and a packet whose
    bytes 16 to 19 are the address of no session, without a trace: no
    frame, no log line, no session touched, no random byte used. Otherwise
    (the random source delivering 16 bytes) exactly one frame is written:
    to the first session, in the order of the range, whose address these
    bytes are; it is the Data frame with the ID of that session carrying
    the packet sealed under that session's send key; SendNonce of that
    session goes up by one and every other session is untouched. *)
Theorem X29_tun_demux (sessions : list server.ClientSession) (rand : reader)
    (packet : list byte) :
  (len packet < 20 ->
   server.tunReadLoop_turn sessions rand (server.ReadOk packet)
   = (server.Continue, sessions, rand, []))
  /\ (20 <= len packet ->
      Forall (fun s => server.AssignedIP s <> dest_of packet) sessions ->
      server.tunReadLoop_turn sessions rand (server.ReadOk packet)
      = (server.Continue, sessions, rand, []))
  /\ (forall before s after,
        20 <= len packet -> 16 <= len rand ->
        sessions = before ++ s :: after ->
        Forall (fun s => server.AssignedIP s <> dest_of packet) before ->
        server.AssignedIP s = dest_of packet ->
        server.tunReadLoop_turn sessions rand (server.ReadOk packet)
        = (server.Continue, before ++ after_send s :: after, drop 16 rand,
           [server.Sent (server.ID s)
              (data_frame (server.ID s) (server.CryptoSession s) rand
                 packet)])).
Proof.
  assert (Hdest : 20 <= len packet ->
            server.tunReadLoop_turn sessions rand (server.ReadOk packet)
            = match server.tun_dispatch sessions rand (dest_of packet) packet with
              | Some (sessions, rand, out) =>
                  (server.Continue, sessions, rand, out)
              | None => (server.Crash, sessions, rand, [])
              end).
  { intros Hl. unfold server.tunReadLoop_turn.
    replace (len packet <? 20) with false by (symmetry; apply Z.ltb_ge; lia).
    rewrite slice_Ok by lia. change (Z.to_nat 16) with 16%nat.
    change (Z.to_nat (20 - 16)) with 4%nat.
    unfold dest_of, Uint32. now rewrite take_take. }
  split; [|split].
  - intros Hl. unfold server.tunReadLoop_turn.
    now replace (len packet <? 20) with true by (symmetry; apply Z.ltb_lt; lia).
  - intros Hl Hno. rewrite Hdest by exact Hl.
    now rewrite tun_dispatch_no_match.
  - intros before s after Hl Hrand -> Hno Hs. rewrite Hdest by exact Hl.
    now rewrite tun_dispatch_match.
Qed.


End tunnels.

End handshake_facts.
(* ================================================================== *)
(** * Runs on concrete inputs                                          *)
(* ================================================================== *)

Module runs.
Import primitives_facts.

(** A Data packet with a three-byte payload and its frame. *)
Definition small_packet : protocol.Packet :=
  protocol.NewPacket protocol.PacketTypeData 7 (bytes_of [1; 2; 3]).
Definition small_frame : list byte := protocol.Marshal small_packet.

(** A payload of 65536 zero bytes. *)
Definition big_payload : list byte := replicate (Z.to_nat 65536) x00.

(** A session in the middle of its life. *)
Definition mid_session : crypto.Session :=
  {| crypto.SendKey := replicate 32 x11; crypto.RecvKey := replicate 32 x22;
     crypto.SendNonce := 41; crypto.RecvNonce := 17;
     crypto.sendCipher := {| crypto.cipher_key := replicate 32 x11 |};
     crypto.recvCipher := {| crypto.cipher_key := replicate 32 x22 |} |}.

(** A server-side session last seen at time 100, and a Data frame whose
    40-byte payload carries no valid tag. *)
Definition seen_session : server.ClientSession :=
  {| server.ID := 7; server.CryptoSession := mid_session;
     server.AssignedIP := server.subnet_base + 2; server.LastSeen := 100 |}.
Definition forged_payload : list byte := replicate 40 x00.
Definition forged_packet : protocol.Packet :=
  protocol.NewPacket protocol.PacketTypeData 7 forged_payload.
Definition forged_frame : list byte := protocol.Marshal forged_packet.

Lemma C2_round_trip_run :
  protocol.UnmarshalPacket (protocol.Marshal small_packet) = Ok small_packet
  /\ ((exists e, protocol.UnmarshalPacket [x48; x00] = Err e)
      \/ (exists q, protocol.UnmarshalPacket [x48; x00] = Ok q
                    /\ protocol.Marshal q = [x48; x00])).
Proof.
  destruct (protocol_facts.C2_framing_round_trip small_packet [x48; x00])
    as [H1 H2].
  split; [apply H1|exact H2].
  - unfold protocol.header_typed. vm_compute. repeat split; discriminate.
  - reflexivity.
  - reflexivity.
  - vm_compute. reflexivity.
Defined.

Lemma C8_parse_run :
  exists p, protocol.UnmarshalPacket small_frame = Ok p
            /\ small_frame !! 3%nat = Some (protocol.Type' (protocol.Header p)).
Proof.
  apply (protocol_facts.C8_unmarshal_error_iff small_frame).
  vm_compute. reflexivity.
Defined.

Lemma C9_oversize_run :
  65536 <= len big_payload
  /\ protocol.UnmarshalPacket
       (protocol.Marshal (protocol.NewPacket protocol.PacketTypeData 7 big_payload))
     = Err "payload length mismatch".
Proof.
  assert (H : 65536 <= len big_payload) by (vm_compute; discriminate).
  split; [exact H|].
  apply (protocol_facts.C9_oversize_payload protocol.PacketTypeData 7 big_payload H).
Defined.

Lemma C5_derive_run :
  exists i r : crypto.Session,
    crypto.DeriveSessionKeys (kdf := hkdf_sha256)
      handshake_facts.secret0 true (make_bytes 32) = Ok i
    /\ crypto.DeriveSessionKeys (kdf := hkdf_sha256)
         handshake_facts.secret0 false (make_bytes 32) = Ok r
    /\ crypto.SendKey i = crypto.RecvKey r
    /\ crypto.RecvKey i = crypto.SendKey r
    /\ crypto.sendCipher i = crypto.recvCipher r
    /\ crypto.recvCipher i = crypto.sendCipher r.
Proof.
  exact (crypto_facts.C5_directional_split (kdf := hkdf_sha256)
           handshake_facts.secret0 (make_bytes 32)).
Defined.

Lemma C7_encrypt_run :
  let nonce :=
    crypto_facts.nonce_of (crypto.SendNonce mid_session)
      handshake_facts.nonce_random in
  crypto.Encrypt (aead := xchacha20poly1305) mid_session
    handshake_facts.nonce_random handshake_facts.datagram =
    (Ok (nonce ++ crypto.xseal (AEAD := xchacha20poly1305)
                    (crypto.cipher_key (crypto.sendCipher mid_session)) nonce
                    handshake_facts.datagram []),
     crypto.set_SendNonce (wrap 64 (crypto.SendNonce mid_session + 1)) mid_session,
     drop 16 handshake_facts.nonce_random)
  /\ take 8 nonce = LePutUint64 (crypto.SendNonce mid_session)
  /\ crypto.SendNonce
       (snd (fst (crypto.Encrypt (aead := xchacha20poly1305) mid_session
                    handshake_facts.nonce_random handshake_facts.datagram)))
     = crypto.SendNonce mid_session + 1.
Proof.
  destruct (crypto_facts.C7_encrypt_nonce (aead := xchacha20poly1305)
              mid_session handshake_facts.nonce_random handshake_facts.datagram)
    as (He & _ & Ht & _ & _ & _ & Hn).
  - unfold crypto.session_typed. vm_compute. repeat split; discriminate.
  - vm_compute. discriminate.
  - split; [exact He|]. split; [exact Ht|]. apply Hn. vm_compute. reflexivity.
Defined.

Lemma C10_decrypt_run :
  crypto.Decrypt (aead := xchacha20poly1305) mid_session [x00; x01; x02]
  = (Err "ciphertext too short", mid_session).
Proof.
  apply (crypto_facts.C10_decrypt_bounds (aead := xchacha20poly1305)
           mid_session [x00; x01; x02]).
  vm_compute. reflexivity.
Defined.

Lemma C6_forged_frame_run :
  let '(ctl, session', out) :=
    server.data_loop_turn (aead := xchacha20poly1305) true seen_session false
      (server.ReadOk forged_frame) 200 in
  ctl = server.Continue
  /\ out = [server.Log "Session %d decrypt error: %v"]
  /\ server.CryptoSession session' = mid_session
  /\ server.LastSeen session' = 200.
Proof.
  pose proof (server_facts.C6_decrypt_failure (aead := xchacha20poly1305)
                true seen_session forged_frame 200 forged_packet []) as H.
  destruct (server.data_loop_turn true seen_session false
              (server.ReadOk forged_frame) 200) as [[ctl session'] out].
  destruct H as (H1 & H2 & H3 & _ & _ & _ & _ & H8 & _).
  - vm_compute. reflexivity.
  - reflexivity.
  - vm_compute. reflexivity.
  - repeat split; assumption.
Defined.

(** C6 as stated fails here: the frame parses, it is a Data packet, its
    decryption fails, and yet LastSeen moves from 100 to 200. *)
Lemma C6_last_seen_moves :
  protocol.UnmarshalPacket forged_frame = Ok forged_packet
  /\ protocol.Type' (protocol.Header forged_packet) = protocol.PacketTypeData
  /\ fst (crypto.Decrypt (aead := xchacha20poly1305)
            (server.CryptoSession seen_session)
            (protocol.Payload forged_packet))
     = Err "chacha20poly1305: message authentication failed"
  /\ server.LastSeen seen_session = 100
  /\ server.LastSeen
       (snd (fst (server.data_loop_turn (aead := xchacha20poly1305) true
                    seen_session false (server.ReadOk forged_frame) 200)))
     = 200
  /\ server.LastSeen
       (snd (fst (server.data_loop_turn (aead := xchacha20poly1305) true
                    seen_session false (server.ReadOk forged_frame) 200)))
     <> server.LastSeen seen_session.
Proof.
  split; [vm_compute; reflexivity|]. split; [reflexivity|].
  split; [vm_compute; reflexivity|]. split; [reflexivity|].
  split; [vm_compute; reflexivity|]. vm_compute. discriminate.
Defined.

(** A handshake init message with a time stamp before 1970, and a
    handshake response. *)
Definition init0 : protocol.HandshakeInit :=
  {| protocol.ClientPublicKey := replicate 32 x11;
     protocol.Timestamp := -5;
     protocol.RandomPadding := replicate 32 x22 |}.
Definition response0 : protocol.HandshakeResponse :=
  {| protocol.ServerPublicKey := replicate 32 x33;
     protocol.RespSessionID := 2 ^ 64 - 1;
     protocol.AssignedIP := bytes_of [10; 8; 0; 2];
     protocol.ServerIP := bytes_of [10; 8; 0; 1];
     protocol.Subnet := byte_of_Z 24;
     protocol.RespRandomPadding := replicate 32 x44 |}.

Lemma X1_init_run :
  len (protocol.MarshalHandshakeInit init0) = 72
  /\ protocol.UnmarshalHandshakeInit (protocol.MarshalHandshakeInit init0)
     = Ok init0.
Proof.
  apply (protocol_facts.X1_handshake_init_round_trip init0).
  unfold protocol.init_typed.
  split; [reflexivity|]. split; [|reflexivity].
  vm_compute. split; [discriminate|reflexivity].
Defined.

Lemma X3_response_run :
  len (protocol.MarshalHandshakeResponse response0) = 81
  /\ protocol.UnmarshalHandshakeResponse
       (protocol.MarshalHandshakeResponse response0) = Ok response0.
Proof.
  apply (protocol_facts.X3_handshake_response_round_trip response0).
  unfold protocol.response_typed.
  split; [reflexivity|]. split; [vm_compute; split; [discriminate|reflexivity]|].
  split; [reflexivity|]. split; reflexivity.
Defined.

Lemma X5_new_packet_run :
  protocol.UnmarshalPacket
    (protocol.Marshal
       (protocol.NewPacket protocol.PacketTypeData 7 (bytes_of [1; 2; 3])))
    = Ok (protocol.NewPacket protocol.PacketTypeData 7 (bytes_of [1; 2; 3]))
  /\ protocol.Length
       (protocol.Header
          (protocol.NewPacket protocol.PacketTypeData 7 (bytes_of [1; 2; 3])))
     = len (bytes_of [1; 2; 3])
  /\ len (protocol.Marshal
            (protocol.NewPacket protocol.PacketTypeData 7 (bytes_of [1; 2; 3])))
     = 14 + len (bytes_of [1; 2; 3]).
Proof.
  apply (protocol_facts.X5_new_packet_round_trip protocol.PacketTypeData 7
           (bytes_of [1; 2; 3])).
  - vm_compute. split; [discriminate|reflexivity].
  - vm_compute. discriminate.
Defined.

Lemma X6_tampering_run :
  is_Err (protocol.UnmarshalPacket (<[12%nat := x01]> small_frame)) = true.
Proof.
  apply (protocol_facts.X6_header_tampering small_frame small_packet 12 x01).
  - vm_compute. reflexivity.
  - do 3 apply list_elem_of_further. apply list_elem_of_here.
  - vm_compute. discriminate.
Defined.

(** The peer of [mid_session]: it receives under the key [mid_session]
    sends under. *)
Definition peer_session : crypto.Session :=
  {| crypto.SendKey := replicate 32 x22; crypto.RecvKey := replicate 32 x11;
     crypto.SendNonce := 3; crypto.RecvNonce := 9;
     crypto.sendCipher := {| crypto.cipher_key := replicate 32 x22 |};
     crypto.recvCipher := {| crypto.cipher_key := replicate 32 x11 |} |}.

Lemma X8_encrypt_decrypt_run :
  exists sealed,
    fst (fst (crypto.Encrypt (aead := xchacha20poly1305) mid_session
                handshake_facts.nonce_random handshake_facts.datagram))
    = Ok sealed
    /\ crypto.Decrypt (aead := xchacha20poly1305) peer_session sealed
       = (Ok handshake_facts.datagram,
          crypto.set_RecvNonce (wrap 64 (crypto.RecvNonce peer_session + 1))
            peer_session).
Proof.
  apply (crypto_facts.X8_encrypt_then_decrypt (aead := xchacha20poly1305)
           mid_session peer_session handshake_facts.nonce_random
           handshake_facts.datagram).
  - vm_compute. discriminate.
  - reflexivity.
  - vm_compute. reflexivity.
Defined.

(** What two calls of Encrypt in a row on [mid_session] return. *)
Definition first_sealed : list byte :=
  Eval vm_compute in
    match fst (fst (crypto.Encrypt (aead := xchacha20poly1305) mid_session
                      handshake_facts.nonce_random handshake_facts.datagram)) with
    | Ok out => out
    | _ => []
    end.
Definition second_sealed : list byte :=
  Eval vm_compute in
    match fst (fst (crypto.Encrypt (aead := xchacha20poly1305)
                      (crypto.set_SendNonce 42 mid_session)
                      handshake_facts.nonce_random handshake_facts.datagram)) with
    | Ok out => out
    | _ => []
    end.

Lemma X9_nonces_run :
  (crypto.SendNonce mid_session
   <> crypto.SendNonce (crypto.set_SendNonce 42 mid_session) ->
   take 24 first_sealed <> take 24 second_sealed)
  /\ (crypto.set_SendNonce 42 mid_session
      = snd (fst (crypto.Encrypt (aead := xchacha20poly1305) mid_session
                    handshake_facts.nonce_random handshake_facts.datagram)) ->
      take 24 first_sealed <> take 24 second_sealed).
Proof.
  apply (crypto_facts.X9_nonces_differ (aead := xchacha20poly1305)
           mid_session (crypto.set_SendNonce 42 mid_session)
           handshake_facts.nonce_random handshake_facts.nonce_random
           handshake_facts.datagram handshake_facts.datagram
           first_sealed second_sealed).
  - unfold crypto.session_typed. vm_compute. repeat split; discriminate.
  - unfold crypto.session_typed. vm_compute. repeat split; discriminate.
  - vm_compute. reflexivity.
  - vm_compute. reflexivity.
Defined.

Lemma X10_channel_run :
  exists (i r : crypto.Session) (from_i from_r : list byte),
    crypto.DeriveSessionKeys (kdf := hkdf_sha256)
      handshake_facts.secret0 true (make_bytes 32) = Ok i
    /\ crypto.DeriveSessionKeys (kdf := hkdf_sha256)
         handshake_facts.secret0 false (make_bytes 32) = Ok r
    /\ fst (fst (crypto.Encrypt (aead := xchacha20poly1305) i
                   handshake_facts.nonce_random handshake_facts.datagram))
       = Ok from_i
    /\ fst (crypto.Decrypt (aead := xchacha20poly1305) r from_i)
       = Ok handshake_facts.datagram
    /\ fst (fst (crypto.Encrypt (aead := xchacha20poly1305) r
                   handshake_facts.nonce_random handshake_facts.datagram))
       = Ok from_r
    /\ fst (crypto.Decrypt (aead := xchacha20poly1305) i from_r)
       = Ok handshake_facts.datagram.
Proof.
  apply (crypto_facts.X10_same_salt_channel (kdf := hkdf_sha256)
           (aead := xchacha20poly1305) handshake_facts.secret0 (make_bytes 32)
           handshake_facts.nonce_random handshake_facts.datagram).
  - vm_compute. discriminate.
  - cbv zeta. intros key [->| ->].
    + rewrite K1_hkdf_sha256. vm_compute. reflexivity.
    + rewrite K2_hkdf_sha256. vm_compute. reflexivity.
Defined.

Import transport.


(** A stream that ends inside the body of a message. *)
Definition cut_stream : reader := bytes_of [0; 1; 2; 6; 9].

Lemma X13_read_run :
  (forall got c' rest,
      Read {| key := transport_facts.key32; keyPos := 0 |} cut_stream 4096
        = (Ok got, c', rest) ->
      len got <= 4096 /\ len got <= 65535
      /\ key c' = key {| key := transport_facts.key32; keyPos := 0 |})
  /\ (is_Err (fst (fst (Read {| key := transport_facts.key32; keyPos := 0 |}
                          cut_stream 4096))) = true ->
      snd (fst (Read {| key := transport_facts.key32; keyPos := 0 |}
                  cut_stream 4096))
      = {| key := transport_facts.key32; keyPos := 0 |}).
Proof.
  apply (transport_facts.X13_read_bounds
           {| key := transport_facts.key32; keyPos := 0 |} cut_stream 4096).
  vm_compute. discriminate.
Defined.

Lemma X14_oversize_run :
  let w := {| key := transport_facts.key32; keyPos := 0 |} in
  let r := {| key := transport_facts.key32; keyPos := 0 |} in
  fst (fst (Write w None big_payload)) = Ok (len big_payload)
  /\ len (snd (Write w None big_payload)) = 4 + len big_payload
  /\ keyPos (snd (fst (Write w None big_payload)))
     = (0 + (4 + len big_payload)) mod len transport_facts.key32
  /\ is_Err (fst (fst (Read r (snd (Write w None big_payload)) 4096))) = true
  /\ snd (fst (Read r (snd (Write w None big_payload)) 4096)) = r.
Proof.
  apply (transport_facts.X14_oversize_write transport_facts.key32 0
           big_payload 4096).
  - vm_compute. split; [discriminate|reflexivity].
  - vm_compute. split; reflexivity.
Defined.

(** Two messages, read three bytes at a time. *)
Definition two_messages : list (list byte) :=
  [bytes_of [1; 2; 3; 4; 5]; bytes_of [6; 7]].

Lemma X15_stream_run :
  let '(rs, c', conn') :=
    WebSocketReads 4 {| readBuf := [] |} two_messages 3 in
  concat (map transport_facts.delivered rs) ++ readBuf c' ++ concat conn'
    = readBuf {| readBuf := [] |} ++ concat two_messages
  /\ Forall (fun r => len (transport_facts.delivered r) <= 3) rs.
Proof.
  apply (transport_facts.X15_websocket_stream 4 {| readBuf := [] |}
           two_messages 3).
  vm_compute. discriminate.
Defined.

Lemma X16_progress_run :
  (readBuf {| readBuf := [] |} <> []
   \/ (exists data rest, two_messages = data :: rest /\ data <> []) ->
   exists got,
     fst (fst (WebSocketRead {| readBuf := [] |} two_messages 3)) = Ok got
     /\ 1 <= len got)
  /\ (readBuf {| readBuf := [] |} = [] -> two_messages = [] ->
      is_Err (fst (fst (WebSocketRead {| readBuf := [] |} two_messages 3)))
        = true
      /\ snd (fst (WebSocketRead {| readBuf := [] |} two_messages 3))
         = {| readBuf := [] |}).
Proof.
  apply (transport_facts.X16_websocket_progress {| readBuf := [] |}
           two_messages 3).
  vm_compute. discriminate.
Defined.

(** The full pool with host 100 given back. *)
Definition pool_with_gap : server.IPPool :=
  server.Release server_facts.full_pool (server.subnet_base + 100).

Lemma X18_range_run :
  exists h, 2 <= h <= 254
    /\ server.subnet_base + 100 = server.subnet_base + h
    /\ ~ server_facts.host_used pool_with_gap h
    /\ server.nextHost (snd (server.Allocate pool_with_gap)) = h + 1
    /\ server_facts.slash24 (snd (server.Allocate pool_with_gap)).
Proof.
  apply (server_facts.X18_allocate_range pool_with_gap
           (snd (server.Allocate pool_with_gap)) (server.subnet_base + 100)).
  - vm_compute. repeat split.
  - vm_compute. split; [discriminate|reflexivity].
  - vm_compute. reflexivity.
Defined.

Lemma X19_succeeds_run :
  (exists ip p', server.Allocate pool_with_gap = (Ok ip, p')) <->
  (exists h, 2 <= h <= 254 /\ ~ server_facts.host_used pool_with_gap h
             /\ (h <> server.nextHost pool_with_gap - 1
                 \/ server.nextHost pool_with_gap <= 3)).
Proof.
  apply (server_facts.X19_allocate_succeeds_iff pool_with_gap).
  - vm_compute. repeat split.
  - vm_compute. split; discriminate.
Defined.

Lemma X20_reachable_run :
  server_facts.pool_inv pool_with_gap
  /\ (size (server.used pool_with_gap) <= 253)%nat.
Proof.
  apply (server_facts.X20_reachable_pool pool_with_gap).
  exists (replicate 253 server.CallAllocate
            ++ [server.CallRelease (server.subnet_base + 100)]).
  vm_compute. reflexivity.
Defined.

(** [datagram] sealed under the key [seen_session] receives with, and the
    Data frame that carries it. *)
Definition sealed_for_seen : list byte :=
  Eval vm_compute in
    crypto_facts.nonce_of 0 handshake_facts.nonce_random
    ++ chacha20poly1305.xseal (replicate 32 x22)
         (crypto_facts.nonce_of 0 handshake_facts.nonce_random)
         handshake_facts.datagram [].
Definition tun_frame : list byte :=
  protocol.Marshal
    (protocol.NewPacket protocol.PacketTypeData 7 sealed_for_seen).

Lemma X22_authentic_run :
  exists data now,
    (server.ReadOk data, now) ∈ [(server.ReadOk tun_frame, 200)]
    /\ server_facts.carries (aead := xchacha20poly1305)
         (server_facts.recv_key seen_session) data handshake_facts.datagram.
Proof.
  apply (server_facts.X22_tun_writes_authentic (aead := xchacha20poly1305)
           true seen_session [(server.ReadOk tun_frame, 200)]
           handshake_facts.datagram).
  vm_compute. apply list_elem_of_here.
Defined.

Lemma X23_replay_run :
  let '(ctl, session', out) :=
    server.data_loop (aead := xchacha20poly1305) true seen_session
      (map (fun t => (server.ReadOk tun_frame, t)) [200; 201; 202]) in
  ctl = server.Continue
  /\ server_facts.tun_writes out
     = replicate (length [200; 201; 202]) handshake_facts.datagram.
Proof.
  apply (server_facts.X23_replay_accepted (aead := xchacha20poly1305)
           seen_session tun_frame handshake_facts.datagram [200; 201; 202]).
  - unfold server_facts.carries.
    split; [vm_compute; discriminate|].
    split; [vm_compute; reflexivity|]. vm_compute. reflexivity.
  - vm_compute. reflexivity.
Defined.

(** A KeepAlive frame that names another session and carries a payload. *)
Definition keepalive_packet : protocol.Packet :=
  protocol.NewPacket protocol.PacketTypeKeepAlive 99 (bytes_of [1; 2; 3]).
Definition keepalive_frame : list byte := protocol.Marshal keepalive_packet.

Lemma X24_keepalive_run :
  exists reply,
    server.data_loop_turn (aead := xchacha20poly1305) false seen_session false
      (server.ReadOk keepalive_frame) 200
      = (server.Continue, server.set_LastSeen 200 seen_session,
         [server.ConnWrite reply])
    /\ len reply = 14
    /\ protocol.UnmarshalPacket reply
       = Ok (protocol.NewPacket protocol.PacketTypeKeepAlive
               (server.ID seen_session) []).
Proof.
  apply (server_facts.X24_keepalive_reply (aead := xchacha20poly1305)
           false seen_session keepalive_frame 200 keepalive_packet).
  - vm_compute. reflexivity.
  - reflexivity.
  - vm_compute. split; [discriminate|reflexivity].
Defined.

Lemma X25_session_id_run :
  server.data_loop_turn (aead := xchacha20poly1305) true seen_session false
    (server.ReadOk (server_facts.with_session_id (replicate 8 xff) tun_frame))
    200
  = server.data_loop_turn (aead := xchacha20poly1305) true seen_session false
      (server.ReadOk tun_frame) 200.
Proof.
  apply (server_facts.X25_session_id_unchecked (aead := xchacha20poly1305)
           true seen_session false (replicate 8 xff) tun_frame 200).
  reflexivity.
Defined.

(** Two key pairs as GenerateKeyPair returns them: the random bytes
    clamped, and the base-point product. *)
Definition client_keys : crypto.KeyPair :=
  Eval vm_compute in
    match fst (crypto.GenerateKeyPair (dh := x25519) (bytes_of (seqZ 1 32))) with
    | Ok kp => kp
    | _ => {| crypto.PrivateKey := []; crypto.PublicKey := [] |}
    end.
Definition server_keys : crypto.KeyPair :=
  Eval vm_compute in
    match fst (crypto.GenerateKeyPair (dh := x25519) (bytes_of (seqZ 101 32))) with
    | Ok kp => kp
    | _ => {| crypto.PrivateKey := []; crypto.PublicKey := [] |}
    end.





Lemma X27_connection_run :
  let '(ctl, ipPool', out) :=
    server.handleConnection (kdf := hkdf_sha256) (dh := x25519)
      (aead := xchacha20poly1305) server_keys true server.default_pool
      (bytes_of (seqZ 0 72))
      (server.ReadOk
         (fst (client.handshake_init client_keys 1700000000
                 handshake_facts.server_random)))
      200 None [(server.ReadOk keepalive_frame, 201)] in
  ctl <> server.Crash
  /\ (ctl = server.Return ->
      (forall a, server.used ipPool' !! a = Some true
                 <-> server.used server.default_pool !! a = Some true)
      /\ (server.Log "Session %d closed, released IP %s" ∉ out ->
          ipPool' = server.default_pool))
  /\ (ctl = server.Continue ->
      exists ip, server.used server.default_pool !! ip <> Some true
                 /\ server.used ipPool'
                    = <[ip := true]> (server.used server.default_pool)).
Proof.
  apply (handshake_facts.X27_connection_pool (kdf := hkdf_sha256)
           (dh := x25519) (aead := xchacha20poly1305) server_keys true
           server.default_pool (bytes_of (seqZ 0 72))
           (server.ReadOk
              (fst (client.handshake_init client_keys 1700000000
                      handshake_facts.server_random)))
           200 None [(server.ReadOk keepalive_frame, 201)]).
  vm_compute. repeat split.
Defined.



End runs.
